(** * PolishTrainsGTFS: the realtime schedule index and fact containers

    A shallow embedding of [polish_trains_gtfs/realtime/schedules.py],
    [fact.py], [alerts.py], [delays.py] and [tools.py], with the properties
    their specification states about them.

    Python values are modelled as follows.
    - [str] is [string]; the regular expressions of the source only mention
      ASCII characters, so matching on UTF-8 bytes and on code points agree.
    - [int] is [Z]; the interpreter's limit on the number of digits that
      [int(...)] converts is not modelled.
    - [dict] is stdpp's [gmap]; none of the properties depends on the
      insertion order of a dictionary.
    - a raised exception is the left summand of [exn + A]. *)

From Stdlib Require Import ZArith String Ascii List Lia Permutation.
From stdpp Require Import base gmap strings list fin_maps pretty.

Local Open Scope string_scope.
Local Open Scope list_scope.
Local Open Scope Z_scope.

(** ** Exceptions *)

(** The messages of the [ValueError]s the modelled code can raise. *)
Inductive value_error : Type :=
  | failed_to_extract_ids (trip_id : string)
      (* schedules.py: "failed to extract schedule & order ids from trip_id ..." *)
  | endpoint_overflowed
      (* delays.py: "operations endpoint overflowed over multiple pages" *)
  | invalid_date (text : string)
      (* Date.from_ymd_str, date.fromisoformat, datetime.fromisoformat *)
  | invalid_int_literal (text : string)
      (* int(...) of a CSV cell *)
  | range_end_before_start
      (* BoundedDateRange(start, end) of the timetable library, end < start *)
  | value_out_of_range (v : Z).
      (* a number that does not fit the integer field of a feed message *)

Inductive exn : Type :=
  | StopIteration                 (* next() of an exhausted reader *)
  | ValueError (e : value_error)
  | OverflowError                 (* date value out of range *)
  | KeyError                      (* by_order[key] of an absent key *)
  | TypeError                     (* positional arguments to a feed message *)
  | AttributeError.               (* assignment to a message field of a message *)

Definition result (A : Type) : Type := exn + A.

Definition raise {A} (e : exn) : result A := inl e.
Definition ret {A} (a : A) : result A := inr a.

Definition bind {A B} (m : result A) (k : A -> result B) : result B :=
  match m with
  | inl e => inl e
  | inr a => k a
  end.

Notation "'let*' x ':=' m 'in' k" := (bind m (fun x => k))
  (at level 10, x name, m at level 100, k at level 200).

(** A [for] loop whose body may raise: the state is threaded from left to
    right and the first exception ends the loop. *)
Fixpoint for_each {A S} (body : S -> A -> result S) (xs : list A) (s : S)
  : result S :=
  match xs with
  | [] => ret s
  | x :: xs' => let* s' := body s x in for_each body xs' s'
  end.

Definition of_option {A} (e : exn) (o : option A) : result A :=
  match o with
  | Some a => ret a
  | None => raise e
  end.

(** ** Characters and decimal digits *)

Definition is_digit (c : ascii) : bool :=
  (("0" <=? c) && (c <=? "9"))%char.

Definition digit_value (c : ascii) : Z :=
  Z.of_N (N_of_ascii c) - 48.

(** [int(s)] for a string [s] of ASCII digits. *)
Fixpoint int_digits_from (acc : Z) (s : string) : Z :=
  match s with
  | EmptyString => acc
  | String c s' => int_digits_from (10 * acc + digit_value c) s'
  end.

Definition int_digits (s : string) : Z := int_digits_from 0 s.

(** The longest prefix of digits and what follows it: how the greedy
    [[0-9]+] consumes its input. *)
Fixpoint span_digits (s : string) : string * string :=
  match s with
  | EmptyString => (EmptyString, EmptyString)
  | String c s' =>
      if is_digit c
      then let (ds, rest) := span_digits s' in (String c ds, rest)
      else (EmptyString, s)
  end.

Fixpoint all_digits (s : string) : bool :=
  match s with
  | EmptyString => true
  | String c s' => is_digit c && all_digits s'
  end.

(** ** The trip identity codec (schedules.py, lines 143-152) *)

Module Codec.

Definition is_sign (c : ascii) : bool :=
  (Ascii.eqb c "+" || Ascii.eqb c "-")%char.

(** [int(m[1])] for a group matched by [[+-][0-9]+]. *)
Definition int_signed (sign : ascii) (digits : string) : Z :=
  if Ascii.eqb sign "-" then - int_digits digits else int_digits digits.

(** Where [$] matches (no MULTILINE flag): at the end of the string, and
    just before a line feed that is the last character of the string. *)
Definition at_dollar (s : string) : bool :=
  match s with
  | EmptyString => true
  | String c EmptyString => Ascii.eqb c "010"
  | _ => false
  end.

(** The pattern [([+-][0-9]+)D$] tried at the head of [s]. The digits are
    taken greedily; giving one back cannot help, since a digit is not
    a [D]. *)
Definition match_offset_here (s : string) : option Z :=
  match s with
  | String sign s1 =>
      if is_sign sign then
        match span_digits s1 with
        | (String d ds, String c rest) =>
            if Ascii.eqb c "D" && at_dollar rest
            then Some (int_signed sign (String d ds))
            else None
        | _ => None
        end
      else None
  | EmptyString => None
  end.

(** [re.search]: the leftmost position at which the pattern matches. *)
Fixpoint search_offset (s : string) : option Z :=
  match match_offset_here s with
  | Some z => Some z
  | None =>
      match s with
      | EmptyString => None
      | String _ s' => search_offset s'
      end
  end.

Definition _extract_start_date_offset (service_id : string) : Z :=
  match search_offset service_id with
  | Some z => z
  | None => 0
  end.

(** The pattern [^([0-9]+)_([0-9]+)]; [None] stands for the pair
    [(None, None)] of the source. *)
Definition _extract_schedule_order_ids (trip_id : string) : option (Z * Z) :=
  match span_digits trip_id with
  | (String d1 ds1, String c rest) =>
      if Ascii.eqb c "_" then
        match span_digits rest with
        | (String d2 ds2, _) =>
            Some (int_digits (String d1 ds1), int_digits (String d2 ds2))
        | _ => None
        end
      else None
  | _ => None
  end.

(** A string that is one or more ASCII digits. *)
Definition digit_run (s : string) : Prop :=
  s <> EmptyString /\ all_digits s = true.

Definition no_leading_digit (s : string) : Prop :=
  match s with
  | EmptyString => True
  | String c _ => is_digit c = false
  end.

(** The identifier begins with [<digits>_<digits>]. *)
Definition has_schedule_order_prefix (trip_id : string) : Prop :=
  exists d1 d2 rest,
    digit_run d1 /\ digit_run d2 /\ trip_id = d1 +:+ "_" +:+ d2 +:+ rest.

(** The identifier ends with a sign, one or more digits and [D]. *)
Definition has_offset_suffix (service_id : string) : Prop :=
  exists front sign ds,
    is_sign sign = true /\ digit_run ds /\
    service_id = front +:+ String sign ds +:+ "D".

Definition line_feed : string := String "010" EmptyString.

End Codec.

(** ** Calendar dates

    [datetime.date], of which the [Date] of the timetable library is a thin
    subclass: a year, a month and a day, ordered as that triple, with day
    arithmetic going through the proleptic Gregorian ordinal. *)

Record Date : Type := mkDate { year : Z; month : Z; day : Z }.

Global Instance Date_eq_dec : EqDecision Date.
Proof. solve_decision. Defined.

Global Instance Date_countable : Countable Date.
Proof.
  refine (inj_countable' (fun d => (year d, month d, day d))
                         (fun t => mkDate t.1.1 t.1.2 t.2) _).
  by intros [].
Defined.

Module Calendar.

Definition _MAXORDINAL : Z := 3652059.
Definition _DI400Y : Z := 146097.
Definition _DI100Y : Z := 36524.
Definition _DI4Y : Z := 1461.

Definition _is_leap (y : Z) : bool :=
  (y mod 4 =? 0) && (negb (y mod 100 =? 0) || (y mod 400 =? 0)).

Definition _DAYS_IN_MONTH (m : Z) : Z :=
  match m with
  | 1 => 31 | 2 => 28 | 3 => 31 | 4 => 30 | 5 => 31 | 6 => 30
  | 7 => 31 | 8 => 31 | 9 => 30 | 10 => 31 | 11 => 30 | 12 => 31
  | _ => -1
  end.

Definition _DAYS_BEFORE_MONTH (m : Z) : Z :=
  match m with
  | 1 => 0 | 2 => 31 | 3 => 59 | 4 => 90 | 5 => 120 | 6 => 151
  | 7 => 181 | 8 => 212 | 9 => 243 | 10 => 273 | 11 => 304 | 12 => 334
  | _ => -1
  end.

Definition _days_before_year (y : Z) : Z :=
  let y := y - 1 in y * 365 + y / 4 - y / 100 + y / 400.

Definition _days_in_month (y m : Z) : Z :=
  if (m =? 2) && _is_leap y then 29 else _DAYS_IN_MONTH m.

Definition _days_before_month (y m : Z) : Z :=
  _DAYS_BEFORE_MONTH m + (if (2 <? m) && _is_leap y then 1 else 0).

Definition _ymd2ord (y m d : Z) : Z :=
  _days_before_year y + _days_before_month y m + d.

Definition _ord2ymd (n : Z) : Z * Z * Z :=
  let n := n - 1 in
  let n400 := n / _DI400Y in
  let n := n mod _DI400Y in
  let y := n400 * 400 + 1 in
  let n100 := n / _DI100Y in
  let n := n mod _DI100Y in
  let n4 := n / _DI4Y in
  let n := n mod _DI4Y in
  let n1 := n / 365 in
  let n := n mod 365 in
  let y := y + n100 * 100 + n4 * 4 + n1 in
  if (n1 =? 4) || (n100 =? 4) then (y - 1, 12, 31)
  else
    let leapyear := (n1 =? 3) && (negb (n4 =? 24) || (n100 =? 3)) in
    let m := Z.shiftr (n + 50) 5 in
    let preceding :=
      _DAYS_BEFORE_MONTH m + (if (2 <? m) && leapyear then 1 else 0) in
    if n <? preceding then
      let m := m - 1 in
      let preceding :=
        preceding
        - (_DAYS_IN_MONTH m + (if (m =? 2) && leapyear then 1 else 0)) in
      (y, m, n - preceding + 1)
    else (y, m, n - preceding + 1).

Definition toordinal (d : Date) : Z := _ymd2ord (year d) (month d) (day d).

Definition fromordinal (n : Z) : Date :=
  let '(y, m, d) := _ord2ymd n in mkDate y m d.

(** What the constructor of [date] checks. *)
Definition valid (d : Date) : Prop :=
  1 <= year d <= 9999 /\ 1 <= month d <= 12 /\
  1 <= day d <= _days_in_month (year d) (month d).

(** [self + timedelta(days=delta)]. *)
Definition add_days (d : Date) (delta : Z) : result Date :=
  let o := toordinal d + delta in
  if (0 <? o) && (o <=? _MAXORDINAL) then ret (fromordinal o)
  else raise OverflowError.

(** [a <= b] on dates: the order of the triples. *)
Definition leb (a b : Date) : bool :=
  if year a =? year b then
    if month a =? month b then day a <=? day b else month a <? month b
  else year a <? year b.

(** [a < b] on dates. *)
Definition ltb (a b : Date) : bool :=
  if year a =? year b then
    if month a =? month b then day a <? day b else month a <? month b
  else year a <? year b.

Definition digit_char (n : Z) : ascii :=
  ascii_of_N (Z.to_N (48 + n mod 10)).

(** ["%02d"] and ["%04d"] for the values a date holds. *)
Definition fmt_02d (n : Z) : string :=
  String (digit_char (n / 10)) (String (digit_char n) EmptyString).

Definition fmt_04d (n : Z) : string :=
  String (digit_char (n / 1000)) (String (digit_char (n / 100))
    (String (digit_char (n / 10)) (String (digit_char n) EmptyString))).

(** [date.isoformat()]: YYYY-MM-DD. *)
Definition isoformat (d : Date) : string :=
  fmt_04d (year d) +:+ "-" +:+ fmt_02d (month d) +:+ "-" +:+ fmt_02d (day d).

(** [date.strftime("%Y%m%d")]. *)
Definition strftime_Ymd (d : Date) : string :=
  fmt_04d (year d) +:+ fmt_02d (month d) +:+ fmt_02d (day d).

End Calendar.

(** An inclusive range of dates with both ends given, and its [in]. *)
Record BoundedDateRange : Type :=
  mkRange { range_start : Date; range_end : Date }.

(** [BoundedDateRange(start, end)] of the timetable library: a range whose
    end is before its start is refused with a [ValueError]. *)
Definition new_BoundedDateRange (start end_ : Date) : result BoundedDateRange :=
  if Calendar.ltb end_ start then raise (ValueError range_end_before_start)
  else ret (mkRange start end_).

Definition contains (r : BoundedDateRange) (d : Date) : bool :=
  Calendar.leb (range_start r) d && Calendar.leb d (range_end r).

(** ** Trip occurrences (tools.py) *)

(** [TripDate]: the schedule index stores timetable trip identifiers
    (strings) in [trip_id], the live parsers store schedule numbers
    (integers). *)
Record TripDate (I : Type) : Type :=
  mkTripDate { trip_id : I; start_date : Date }.

Arguments mkTripDate {I} _ _.
Arguments trip_id {I} _.
Arguments start_date {I} _.

(** ** The schedule index (schedules.py) *)

Record OrderKey : Type :=
  mkOrderKey { schedule_id : Z; order_id : Z; operating_date : Date }.

Global Instance OrderKey_eq_dec : EqDecision OrderKey.
Proof. solve_decision. Defined.

Global Instance OrderKey_countable : Countable OrderKey.
Proof.
  refine (inj_countable'
            (fun k => (schedule_id k, order_id k, operating_date k))
            (fun t => mkOrderKey t.1.1 t.1.2 t.2) _).
  by intros [].
Defined.

Record StopTime : Type :=
  mkStopTime { trip : TripDate string; stop_sequence : Z; stop_id : string }.

Record Trips : Type :=
  mkTrips { all : list (TripDate string); by_order_number : gmap Z StopTime }.

Record DatePair : Type :=
  mkDatePair { pair_operating_date : Date; pair_start_date : Date }.

Record TripKeyPair : Type :=
  mkTripKeyPair { gtfs : TripDate string; live : OrderKey }.

Record Schedules : Type :=
  mkSchedules {
    by_order : gmap OrderKey Trips;
    valid_operating_dates : BoundedDateRange
  }.

(** The rows [csv.DictReader] yields for the four tables: every cell is
    a string, under the column names the loader reads. *)
Record FeedInfoRow : Type :=
  mkFeedInfoRow { feed_start_date : string; feed_end_date : string }.

Record CalendarDateRow : Type :=
  mkCalendarDateRow { cal_service_id : string; cal_date : string }.

Record TripRow : Type :=
  mkTripRow { row_trip_id : string; row_service_id : string }.

Record StopTimeRow : Type :=
  mkStopTimeRow {
    st_trip_id : string;
    st_stop_sequence : string;
    st_stop_id : string;
    st_plk_order : string
  }.

(** The members of the archive that [load_from_gtfs] opens. This is the
    input domain of the model: an archive that has the four members, each
    with the columns the loader reads and no row shorter than its header.
    What the interpreter raises outside it (a missing member or column, a
    short row) is not modelled. *)
Record Archive : Type :=
  mkArchive {
    feed_info_txt : list FeedInfoRow;
    calendar_dates_txt : list CalendarDateRow;
    trips_txt : list TripRow;
    stop_times_txt : list StopTimeRow
  }.

Module Loader.
Section Loader.

(** The two parsers the loader calls and this repository does not define:
    [Date.from_ymd_str] of the timetable library and Python's [int] on
    a cell. [None] is a [ValueError]. *)
Variable from_ymd_str : string -> option Date.
Variable int : string -> option Z.

Definition parse_date (s : string) : result Date :=
  of_option (ValueError (invalid_date s)) (from_ymd_str s).

Definition parse_int (s : string) : result Z :=
  of_option (ValueError (invalid_int_literal s)) (int s).

Definition _load_feed_dates (f : list FeedInfoRow) : result BoundedDateRange :=
  match f with
  | [] => raise StopIteration
  | row :: _ =>
      let* first_full_day := parse_date (feed_start_date row) in
      let* start := Calendar.add_days first_full_day (-1) in
      let* end_ := parse_date (feed_end_date row) in
      new_BoundedDateRange start end_
  end.

(** [d.setdefault(k, []).append(v)]. *)
Definition setdefault_append {K V} `{Countable K}
    (k : K) (v : V) (d : gmap K (list V)) : gmap K (list V) :=
  <[k := default [] (d !! k) ++ [v]]> d.

Definition _load_services_row (range : BoundedDateRange)
    (services : gmap string (list DatePair)) (row : CalendarDateRow)
  : result (gmap string (list DatePair)) :=
  let service_id := cal_service_id row in
  let start_date_offset := Codec._extract_start_date_offset service_id in
  let* start_date := parse_date (cal_date row) in
  let* operating_date := Calendar.add_days start_date (- start_date_offset) in
  if contains range operating_date
  then ret (setdefault_append (cal_service_id row)
              (mkDatePair operating_date start_date) services)
  else ret services.

Definition _load_services (f : list CalendarDateRow) (range : BoundedDateRange)
  : result (gmap string (list DatePair)) :=
  for_each (_load_services_row range) f ∅.

(** The body of the inner loop of [_load_trips]. A [Trips] object is
    always true, so the walrus test only asks whether the key is there. *)
Definition register_trip (trip_id : string) (schedule_id order_id : Z)
    (st : gmap OrderKey Trips * gmap string (list TripKeyPair)) (p : DatePair)
  : gmap OrderKey Trips * gmap string (list TripKeyPair) :=
  let '(by_order, trip_id_to_keys) := st in
  let key := mkOrderKey schedule_id order_id (pair_operating_date p) in
  let trip_date := mkTripDate trip_id (pair_start_date p) in
  let trip_id_to_keys :=
    setdefault_append trip_id (mkTripKeyPair trip_date key) trip_id_to_keys in
  match by_order !! key with
  | Some t =>
      (<[key := mkTrips (all t ++ [trip_date]) (by_order_number t)]> by_order,
       trip_id_to_keys)
  | None => (<[key := mkTrips [trip_date] ∅]> by_order, trip_id_to_keys)
  end.

Definition _load_trips_row (services : gmap string (list DatePair))
    (st : gmap OrderKey Trips * gmap string (list TripKeyPair)) (row : TripRow)
  : result (gmap OrderKey Trips * gmap string (list TripKeyPair)) :=
  let trip_id := row_trip_id row in
  match Codec._extract_schedule_order_ids trip_id with
  | None => raise (ValueError (failed_to_extract_ids trip_id))
  | Some (schedule_id, order_id) =>
      let service_id := row_service_id row in
      ret (foldl (register_trip trip_id schedule_id order_id) st
             (default [] (services !! service_id)))
  end.

Definition _load_trips (f : list TripRow) (services : gmap string (list DatePair))
  : result (gmap OrderKey Trips * gmap string (list TripKeyPair)) :=
  for_each (_load_trips_row services) f (∅, ∅).

(** The body of the inner loop of [_load_stop_times], in the order in
    which Python evaluates it. *)
Definition set_stop_time (row : StopTimeRow)
    (by_order : gmap OrderKey Trips) (p : TripKeyPair)
  : result (gmap OrderKey Trips) :=
  let* seq := parse_int (st_stop_sequence row) in
  let stop_time := mkStopTime (gtfs p) seq (st_stop_id row) in
  let* order_number := parse_int (st_plk_order row) in
  match by_order !! live p with
  | None => raise KeyError
  | Some t =>
      ret (<[live p :=
               mkTrips (all t) (<[order_number := stop_time]> (by_order_number t))]>
             by_order)
  end.

Definition _load_stop_times_row (trip_id_to_keys : gmap string (list TripKeyPair))
    (by_order : gmap OrderKey Trips) (row : StopTimeRow)
  : result (gmap OrderKey Trips) :=
  let trip_id := st_trip_id row in
  for_each (set_stop_time row) (default [] (trip_id_to_keys !! trip_id)) by_order.

Definition _load_stop_times (f : list StopTimeRow)
    (by_order : gmap OrderKey Trips)
    (trip_id_to_keys : gmap string (list TripKeyPair))
  : result (gmap OrderKey Trips) :=
  for_each (_load_stop_times_row trip_id_to_keys) f by_order.

Definition load_from_gtfs (arch : Archive) : result Schedules :=
  let* valid_operating_dates := _load_feed_dates (feed_info_txt arch) in
  let* services := _load_services (calendar_dates_txt arch) valid_operating_dates in
  let* loaded := _load_trips (trips_txt arch) services in
  let* by_order :=
    _load_stop_times (stop_times_txt arch) (fst loaded) (snd loaded) in
  ret (mkSchedules by_order valid_operating_dates).

(** *** What the loader's passes are expected to establish *)

(** The pair [p] kept for [service_id] comes from the calendar row [row]:
    the row marks the service active on the pair's start date, the operating
    date is the start date less the day shift of the service identifier,
    and it lies in [range]. *)
Definition pair_from_row (range : BoundedDateRange) (service_id : string)
    (p : DatePair) (row : CalendarDateRow) : Prop :=
  cal_service_id row = service_id /\
  from_ymd_str (cal_date row) = Some (pair_start_date p) /\
  Calendar.add_days (pair_start_date p)
    (- Codec._extract_start_date_offset service_id)
  = inr (pair_operating_date p) /\
  contains range (pair_operating_date p) = true.

Definition services_justified (rows : list CalendarDateRow)
    (range : BoundedDateRange) (services : gmap string (list DatePair)) : Prop :=
  forall service_id pairs p,
    services !! service_id = Some pairs -> p ∈ pairs ->
    exists row, row ∈ rows /\ pair_from_row range service_id p row.

(** The occurrence [td] stored under [key] comes from a trip row: the row
    names the trip, its identifier yields the two numbers of the key, and
    one of the pairs of its service links the two dates. *)
Definition occurrence_from_row (services : gmap string (list DatePair))
    (key : OrderKey) (td : TripDate string) (row : TripRow) : Prop :=
  row_trip_id row = trip_id td /\
  Codec._extract_schedule_order_ids (trip_id td)
  = Some (schedule_id key, order_id key) /\
  exists pairs,
    services !! row_service_id row = Some pairs /\
    mkDatePair (operating_date key) (start_date td) ∈ pairs.

Definition index_justified (rows : list TripRow)
    (services : gmap string (list DatePair))
    (by_order : gmap OrderKey Trips) : Prop :=
  forall key t,
    by_order !! key = Some t ->
    all t <> [] /\
    forall td, td ∈ all t ->
      exists row, row ∈ rows /\ occurrence_from_row services key td row.

(** Every pair of the reverse index names a key of the index. *)
Definition keys_registered (by_order : gmap OrderKey Trips)
    (trip_id_to_keys : gmap string (list TripKeyPair)) : Prop :=
  forall trip_id pairs p,
    trip_id_to_keys !! trip_id = Some pairs -> p ∈ pairs ->
    is_Some (by_order !! live p).

(** The pairs a stop-time row resolves to. *)
Definition row_pairs (trip_id_to_keys : gmap string (list TripKeyPair))
    (row : StopTimeRow) : list TripKeyPair :=
  default [] (trip_id_to_keys !! st_trip_id row).

(** The two numeric cells of every row that resolves to a pair are
    integer literals. *)
Definition cells_parse (rows : list StopTimeRow)
    (trip_id_to_keys : gmap string (list TripKeyPair)) : Prop :=
  forall row, row ∈ rows -> row_pairs trip_id_to_keys row <> [] ->
    is_Some (int (st_stop_sequence row)) /\ is_Some (int (st_plk_order row)).

(** [by_order[key].by_order_number[n]] is [stop_time]. *)
Definition stored (key : OrderKey) (n : Z) (stop_time : StopTime)
    (by_order : gmap OrderKey Trips) : Prop :=
  exists t, by_order !! key = Some t /\ by_order_number t !! n = Some stop_time.

End Loader.
End Loader.


(** ** Instants *)

(** A timezone-aware [datetime]: the instant in microseconds since the
    epoch, and the offset from UTC it is displayed with. Python compares
    two such values by their instants alone. *)
Record datetime : Type := mkDatetime { instant : Z; utcoffset : Z }.

(** [max(a, b)] keeps its first argument unless the second is greater. *)
Definition max_datetime (a b : datetime) : datetime :=
  if instant a <? instant b then b else a.

(** ** JSON documents, as [json.dumps] receives them *)

#[local] Unset Elimination Schemes.
Inductive json : Type :=
  | JNull
  | JBool (b : bool)
  | JInt (z : Z)
  | JStr (s : string)
  | JList (items : list json)
  | JDict (entries : list (string * json)).
#[local] Set Elimination Schemes.

(** [d[key]] on a dictionary built by a display: the entry under [key]. *)
Fixpoint assoc (key : string) (entries : list (string * json)) : option json :=
  match entries with
  | [] => None
  | (k, v) :: rest => if String.eqb k key then Some v else assoc key rest
  end.

Definition json_get (key : string) (j : json) : option json :=
  match j with
  | JDict entries => assoc key entries
  | _ => None
  end.

(** ** Feed messages *)

Module gtfs_realtime_pb2.

(** Modelled from the spec: the generated module [gtfs_realtime_pb2] is
    not among the sources. Its messages are taken as records of the
    fields the realtime code sets; an optional sub-message that is never
    set is [None].

    The classes are generated protocol-buffer messages. Three rules of the
    protocol-buffer runtime, a library, decide what the realtime code does
    with them: a constructor takes keyword arguments only ([TypeError] for
    a positional one), a number must fit the integer type of its field
    ([ValueError]), and a field that holds a message cannot be assigned to
    ([AttributeError]). *)
Inductive StopScheduleRelationship : Type := SCHEDULED | SKIPPED | NO_DATA.

(** The runtime's check of a number against the integer type of the field
    it is given to. *)
Definition checked (lo hi v : Z) : result Z :=
  if (lo <=? v) && (v <=? hi) then ret v
  else raise (ValueError (value_out_of_range v)).

Definition int32 : Z -> result Z := checked (- 2 ^ 31) (2 ^ 31 - 1).
Definition int64 : Z -> result Z := checked (- 2 ^ 63) (2 ^ 63 - 1).
Definition uint32 : Z -> result Z := checked 0 (2 ^ 32 - 1).
Definition uint64 : Z -> result Z := checked 0 (2 ^ 64 - 1).

(** The runtime's constructor call [Message(positional..., field=...)];
    [from_keywords] is the message the keyword arguments describe. *)
Definition construct {M : Type} (positional : list string) (from_keywords : M)
  : result M :=
  match positional with
  | [] => ret from_keywords
  | _ :: _ => raise TypeError
  end.

(** Modelled from the spec: the message [TripUpdate.StopTimeEvent], with
    the two fields the code passes, [time] an int64 and [uncertainty] an
    int32. *)
Record StopTimeEvent : Type :=
  mkStopTimeEvent { time : Z; uncertainty : Z }.

Definition new_StopTimeEvent (time uncertainty : Z) : result StopTimeEvent :=
  let* time := int64 time in
  let* uncertainty := int32 uncertainty in
  ret (mkStopTimeEvent time uncertainty).

(** Modelled from the spec: the message [TripUpdate.StopTimeUpdate]; an
    event that was never assigned is [None]. *)
Record StopTimeUpdate : Type :=
  mkStopTimeUpdate {
    stu_stop_sequence : Z;
    stu_stop_id : string;
    schedule_relationship : StopScheduleRelationship;
    arrival : option StopTimeEvent;
    departure : option StopTimeEvent
  }.

(** Modelled from the spec: [StopTimeUpdate(stop_sequence=..., stop_id=...)],
    in which the relationship has its default and no event is set;
    [stop_sequence] is a uint32. *)
Definition new_StopTimeUpdate (stop_sequence : Z) (stop_id : string)
  : result StopTimeUpdate :=
  let* stop_sequence := uint32 stop_sequence in
  ret (mkStopTimeUpdate stop_sequence stop_id SCHEDULED None None).

(** The three assignments the code makes to such a message.
    [u.schedule_relationship = r] sets an enumeration field. [u.arrival = e]
    and [u.departure = e] name fields that hold a message, and the runtime
    refuses them whatever [e] and [u] are. *)
Definition set_schedule_relationship (r : StopScheduleRelationship)
    (u : StopTimeUpdate) : StopTimeUpdate :=
  mkStopTimeUpdate (stu_stop_sequence u) (stu_stop_id u) r
    (arrival u) (departure u).

Definition set_arrival (e : StopTimeEvent) (u : StopTimeUpdate)
  : result StopTimeUpdate :=
  raise AttributeError.

Definition set_departure (e : StopTimeEvent) (u : StopTimeUpdate)
  : result StopTimeUpdate :=
  raise AttributeError.

(** Modelled from the spec: the messages of a trip selector, a trip
    update, a translated text, an alert, and the header of a feed. *)
Inductive TripScheduleRelationship : Type := TRIP_SCHEDULED.

Record TripDescriptor : Type :=
  mkTripDescriptor {
    td_trip_id : string;
    td_schedule_relationship : TripScheduleRelationship;
    td_start_date : string
  }.

Record TripUpdate : Type :=
  mkTripUpdate { tu_trip : TripDescriptor; stop_time_update : list StopTimeUpdate }.

Record Translation : Type := mkTranslation { text : string; language : string }.

Record TranslatedString : Type :=
  mkTranslatedString { translation : list Translation }.

Record EntitySelector : Type := mkEntitySelector { es_trip : TripDescriptor }.

Record Alert : Type :=
  mkAlert {
    header_text : TranslatedString;
    description_text : TranslatedString;
    informed_entity : list EntitySelector
  }.

(** Modelled from the spec: the message [FeedEntity], which carries an
    identifier and either an alert or a trip update. *)
Record FeedEntity : Type :=
  mkFeedEntity {
    id : string;
    alert : option Alert;
    trip_update : option TripUpdate
  }.

Inductive Incrementality : Type := FULL_DATASET | DIFFERENTIAL.

Record FeedHeader : Type :=
  mkFeedHeader {
    gtfs_realtime_version : string;
    incrementality : Incrementality;
    header_timestamp : Z
  }.

(** Modelled from the spec: [FeedHeader(gtfs_realtime_version=...,
    incrementality=..., timestamp=...)]; [timestamp] is a uint64. *)
Definition new_FeedHeader (version : string) (i : Incrementality) (timestamp : Z)
  : result FeedHeader :=
  let* timestamp := uint64 timestamp in
  ret (mkFeedHeader version i timestamp).

Record FeedMessage : Type :=
  mkFeedMessage { header : FeedHeader; entity : list FeedEntity }.

End gtfs_realtime_pb2.

(** ** Facts (alerts.py, delays.py, fact.py) *)

Record StopDelay : Type :=
  mkStopDelay {
    sd_stop_id : Z;
    sd_stop_sequence : Z;
    cancelled : bool;
    confirmed : bool;
    live_arrival : datetime;
    live_departure : datetime
  }.

Record TripDelay : Type :=
  mkTripDelay { delay_trip : TripDate Z; stops : list StopDelay }.

Record Alert : Type :=
  mkAlert {
    alert_id : Z;
    title : string;
    description : string;
    trips : list (TripDate Z)
  }.

(** The two classes that implement the [Fact] protocol. *)
Inductive Fact : Type :=
  | AlertFact (a : Alert)
  | TripDelayFact (d : TripDelay).

Record FactContainer : Type :=
  mkFactContainer { timestamp : datetime; facts : list Fact }.

(** The decoded bodies of the two endpoints, with the fields the parsers
    read; a nullable field is an [option]. *)
Record StopRecord : Type :=
  mkStopRecord {
    s_id : Z;
    s_psn : Z;
    s_cn : option bool;
    s_cf : option bool;
    s_aa : string;
    s_ad : string
  }.

Record TripRecord : Type :=
  mkTripRecord { d_sid : Z; d_od : string; d_st : list StopRecord }.

Record DelaysBody : Type :=
  mkDelaysBody { pg_hn : bool; delays_ts : string; tr : list TripRecord }.

Record AffectedRecord : Type := mkAffectedRecord { i_sid : Z; i_od : string }.

Record AlertRecord : Type :=
  mkAlertRecord {
    a_id : Z;
    a_tt : option string;
    a_msg : option string;
    a_ar : list AffectedRecord
  }.

Record AlertsBody : Type :=
  mkAlertsBody { alerts_ts : string; ds : list AlertRecord }.

(** A list comprehension whose element expression may raise. *)
Fixpoint comprehension {A B} (f : A -> result B) (xs : list A) : result (list B) :=
  match xs with
  | [] => ret []
  | x :: xs' =>
      let* y := f x in
      let* ys := comprehension f xs' in
      ret (y :: ys)
  end.

Module Realtime.
Section Realtime.

(** Library calls on instants and dates that the realtime code relies on:
    [date.fromisoformat], [datetime.fromisoformat] ([None] is a
    [ValueError]), [datetime.isoformat()], its [timespec="seconds"] form,
    and [round(dt.timestamp())]. *)
Variable date_fromisoformat : string -> option Date.
Variable datetime_fromisoformat : string -> option datetime.
Variable datetime_isoformat : datetime -> string.
Variable datetime_isoformat_seconds : datetime -> string.
Variable rounded_timestamp : datetime -> Z.

Definition str (z : Z) : string := pretty z.

(** *** tools.py *)

Definition TripDate_parse (schedule_id : Z) (operating_date : string)
  : result (TripDate Z) :=
  let day_text := String.substring 0 10 operating_date in
  let* d := of_option (ValueError (invalid_date day_text))
              (date_fromisoformat day_text) in
  ret (mkTripDate schedule_id d).

Definition TripDate_as_json (t : TripDate Z) : json :=
  JDict [("trip_id", JStr (str (trip_id t)));
         ("start_date", JStr (Calendar.isoformat (start_date t)))].

Definition TripDate_as_gtfs_rt (t : TripDate Z) : gtfs_realtime_pb2.TripDescriptor :=
  gtfs_realtime_pb2.mkTripDescriptor (str (trip_id t)) gtfs_realtime_pb2.TRIP_SCHEDULED
    (Calendar.strftime_Ymd (start_date t)).

(** [as_translation(x)], with the default language. The source builds the
    translation as [TranslatedString.Translation(x, lang)], with its two
    arguments in positions. *)
Definition as_translation (x : string) : result gtfs_realtime_pb2.TranslatedString :=
  let lang := "pl" in
  let* t := gtfs_realtime_pb2.construct [x; lang]
              (gtfs_realtime_pb2.mkTranslation "" "") in
  ret (gtfs_realtime_pb2.mkTranslatedString [t]).

(** *** delays.py *)

Definition StopDelay_as_json (s : StopDelay) : json :=
  if cancelled s then
    JDict [("stop_id", JStr (str (sd_stop_id s)));
           ("stop_sequence", JInt (sd_stop_sequence s));
           ("confirmed", JBool (confirmed s));
           ("cancelled", JBool true)]
  else
    JDict [("stop_id", JStr (str (sd_stop_id s)));
           ("stop_sequence", JInt (sd_stop_sequence s));
           ("confirmed", JBool (confirmed s));
           ("cancelled", JBool false);
           ("arrival", JStr (datetime_isoformat (live_arrival s)));
           ("departure", JStr (datetime_isoformat (live_departure s)))].

Definition StopDelay_as_gtfs_rt (s : StopDelay)
  : result gtfs_realtime_pb2.StopTimeUpdate :=
  let* u := gtfs_realtime_pb2.new_StopTimeUpdate (sd_stop_sequence s)
              (str (sd_stop_id s)) in
  if cancelled s then
    ret (gtfs_realtime_pb2.set_schedule_relationship gtfs_realtime_pb2.SKIPPED u)
  else
    let uncertainty := if confirmed s then 0 else 1 in
    let u :=
      gtfs_realtime_pb2.set_schedule_relationship gtfs_realtime_pb2.SCHEDULED u in
    let* arrival :=
      gtfs_realtime_pb2.new_StopTimeEvent
        (rounded_timestamp (live_arrival s)) uncertainty in
    let* u := gtfs_realtime_pb2.set_arrival arrival u in
    let* departure :=
      gtfs_realtime_pb2.new_StopTimeEvent
        (rounded_timestamp (live_departure s)) uncertainty in
    let* u := gtfs_realtime_pb2.set_departure departure u in
    ret u.

Definition TripDelay_id (d : TripDelay) : string :=
  "D_" +:+ Calendar.isoformat (start_date (delay_trip d)) +:+ "_"
       +:+ str (trip_id (delay_trip d)).

Definition TripDelay_as_json (d : TripDelay) : json :=
  JDict [("type", JStr "delay");
         ("id", JStr (TripDelay_id d));
         ("trip", TripDate_as_json (delay_trip d));
         ("stops", JList (map StopDelay_as_json (stops d)))].

Definition TripDelay_as_gtfs_rt (d : TripDelay) : result gtfs_realtime_pb2.FeedEntity :=
  let id := TripDelay_id d in
  let trip := TripDate_as_gtfs_rt (delay_trip d) in
  let* stop_time_update := comprehension StopDelay_as_gtfs_rt (stops d) in
  ret (gtfs_realtime_pb2.mkFeedEntity id None
         (Some (gtfs_realtime_pb2.mkTripUpdate trip stop_time_update))).

Definition parse_stop_delay (s : StopRecord) : result StopDelay :=
  let* arr := of_option (ValueError (invalid_date (s_aa s)))
                (datetime_fromisoformat (s_aa s)) in
  let* dep := of_option (ValueError (invalid_date (s_ad s)))
                (datetime_fromisoformat (s_ad s)) in
  ret (mkStopDelay (s_id s) (s_psn s)
         (default false (s_cn s)) (default false (s_cf s)) arr dep).

Definition parse_trip_delay (d : TripRecord) : result TripDelay :=
  let* t := TripDate_parse (d_sid d) (d_od d) in
  let* ss := comprehension parse_stop_delay (d_st d) in
  ret (mkTripDelay t ss).

(** [fetch_delays], from the decoded body of the response on. *)
Definition fetch_delays (data : DelaysBody) : result FactContainer :=
  if pg_hn data then raise (ValueError endpoint_overflowed)
  else
    let* ts := of_option (ValueError (invalid_date (delays_ts data)))
                 (datetime_fromisoformat (delays_ts data)) in
    let* fs := comprehension parse_trip_delay (tr data) in
    ret (mkFactContainer ts (map TripDelayFact fs)).

(** *** alerts.py *)

Definition Alert_id (a : Alert) : string := "A_" +:+ str (alert_id a).

Definition Alert_as_json (a : Alert) : json :=
  JDict [("type", JStr "alert");
         ("id", JStr (Alert_id a));
         ("title", JStr (title a));
         ("description", JStr (description a));
         ("trips", JList (map TripDate_as_json (trips a)))].

Definition Alert_as_gtfs_rt (a : Alert) : result gtfs_realtime_pb2.FeedEntity :=
  let id := Alert_id a in
  let* header_text := as_translation (title a) in
  let* description_text := as_translation (description a) in
  let informed_entity :=
    map (fun i => gtfs_realtime_pb2.mkEntitySelector (TripDate_as_gtfs_rt i))
        (trips a) in
  ret (gtfs_realtime_pb2.mkFeedEntity id
         (Some (gtfs_realtime_pb2.mkAlert header_text description_text
                  informed_entity))
         None).

Definition parse_alert (d : AlertRecord) : result Alert :=
  let* ts := comprehension (fun i => TripDate_parse (i_sid i) (i_od i)) (a_ar d) in
  ret (mkAlert (a_id d) (default "" (a_tt d)) (default "" (a_msg d)) ts).

Definition fetch_alerts (data : AlertsBody) : result FactContainer :=
  let* ts := of_option (ValueError (invalid_date (alerts_ts data)))
               (datetime_fromisoformat (alerts_ts data)) in
  let* fs := comprehension parse_alert (ds data) in
  ret (mkFactContainer ts (map AlertFact fs)).

(** *** fact.py *)

Definition Fact_as_json (f : Fact) : json :=
  match f with
  | AlertFact a => Alert_as_json a
  | TripDelayFact d => TripDelay_as_json d
  end.

Definition Fact_as_gtfs_rt (f : Fact) : result gtfs_realtime_pb2.FeedEntity :=
  match f with
  | AlertFact a => Alert_as_gtfs_rt a
  | TripDelayFact d => TripDelay_as_gtfs_rt d
  end.

Definition merge (self other : FactContainer) : FactContainer :=
  mkFactContainer (max_datetime (timestamp self) (timestamp other))
                  (facts self ++ facts other).

Definition as_json (c : FactContainer) : json :=
  JDict [("timestamp", JStr (datetime_isoformat_seconds (timestamp c)));
         ("facts", JList (map Fact_as_json (facts c)))].

Definition as_gtfs_rt (c : FactContainer) : result gtfs_realtime_pb2.FeedMessage :=
  let* header :=
    gtfs_realtime_pb2.new_FeedHeader "2.0" gtfs_realtime_pb2.FULL_DATASET
      (rounded_timestamp (timestamp c)) in
  let* entity := comprehension Fact_as_gtfs_rt (facts c) in
  ret (gtfs_realtime_pb2.mkFeedMessage header entity).

(** *** The identifiers of the rendered entities *)

(** The identifier a fact is rendered with: the [id] of its JSON view and
    the [id=] of its feed entity are one and the same expression. *)
Definition Fact_id (f : Fact) : string :=
  match f with
  | AlertFact a => Alert_id a
  | TripDelayFact d => TripDelay_id d
  end.

Definition entity_ids (c : FactContainer) : list string :=
  map Fact_id (facts c).

(** The facts a feed can be made of: no alert, and of a trip delay only
    cancelled stops whose sequence number fits its field. *)
Definition stop_renders (s : StopDelay) : Prop :=
  cancelled s = true /\ 0 <= sd_stop_sequence s < 2 ^ 32.

(** The update of a cancelled stop, and the entity of a trip delay all of
    whose stops are cancelled. *)
Definition skipped_update (s : StopDelay) : gtfs_realtime_pb2.StopTimeUpdate :=
  gtfs_realtime_pb2.mkStopTimeUpdate (sd_stop_sequence s) (str (sd_stop_id s))
    gtfs_realtime_pb2.SKIPPED None None.

Definition skipped_entity (d : TripDelay) : gtfs_realtime_pb2.FeedEntity :=
  gtfs_realtime_pb2.mkFeedEntity (TripDelay_id d) None
    (Some (gtfs_realtime_pb2.mkTripUpdate (TripDate_as_gtfs_rt (delay_trip d))
             (map skipped_update (stops d)))).

Definition fact_renders (f : Fact) : Prop :=
  match f with
  | AlertFact _ => False
  | TripDelayFact d => Forall stop_renders (stops d)
  end.

Definition json_ids (c : FactContainer) : list (option json) :=
  map (fun f => json_get "id" (Fact_as_json f)) (facts c).

Fixpoint alert_ids (fs : list Fact) : list Z :=
  match fs with
  | [] => []
  | AlertFact a :: fs' => alert_id a :: alert_ids fs'
  | TripDelayFact _ :: fs' => alert_ids fs'
  end.

Fixpoint delay_trips (fs : list Fact) : list (TripDate Z) :=
  match fs with
  | [] => []
  | AlertFact _ :: fs' => delay_trips fs'
  | TripDelayFact d :: fs' => delay_trip d :: delay_trips fs'
  end.

End Realtime.
End Realtime.


(** ** Sample inputs

    Instances of the library functions, and inputs on which the properties
    below are exercised. *)

Module Sample.

(** A parser of [YYYYMMDD] cells. *)
Definition from_ymd_str (s : string) : option Date :=
  if (String.length s =? 8)%nat && all_digits s then
    Some (mkDate (int_digits (String.substring 0 4 s))
                 (int_digits (String.substring 4 2 s))
                 (int_digits (String.substring 6 2 s)))
  else None.

(** A parser of unsigned decimal cells. *)
Definition int (s : string) : option Z :=
  match s with
  | EmptyString => None
  | _ => if all_digits s then Some (int_digits s) else None
  end.

(** The instant in whole seconds, halves going to the even neighbour. *)
Definition rounded_timestamp (d : datetime) : Z :=
  let q := instant d / 1000000 in
  let r := instant d mod 1000000 in
  if r <? 500000 then q
  else if 500000 <? r then q + 1
  else if Z.even q then q else q + 1.

Definition noon : datetime := mkDatetime 1748772000000000 7200.

Definition alert_42 : Alert := mkAlert 42 "Utrudnienia" "" [].

Definition delay_42 : TripDelay := mkTripDelay (mkTripDate 42 (mkDate 2025 6 1)) [].

(** One disruption listed twice in a snapshot. *)
Definition repeated_alert : FactContainer :=
  mkFactContainer noon [AlertFact alert_42; AlertFact alert_42].

Definition alert_and_delay : FactContainer :=
  mkFactContainer noon [AlertFact alert_42; TripDelayFact delay_42].

(** A feed for June 2025: a service without a shift, one whose days are
    numbered a day late, one a day early, and one of the previous winter. *)
Definition archive : Archive :=
  mkArchive
    [mkFeedInfoRow "20250601" "20250630"]
    [mkCalendarDateRow "S1" "20250602";
     mkCalendarDateRow "S2+1D" "20250601";
     mkCalendarDateRow "S2+1D" "20250603";
     mkCalendarDateRow "S3-1D" "20250630";
     mkCalendarDateRow "OLD" "20250101"]
    [mkTripRow "12345_6" "S1";
     mkTripRow "12345_6_BUS" "S1";
     mkTripRow "777_1" "S2+1D";
     mkTripRow "555_2" "S3-1D";
     mkTripRow "888_2" "OLD"]
    [mkStopTimeRow "12345_6" "0" "100" "1";
     mkStopTimeRow "12345_6" "1" "101" "2";
     mkStopTimeRow "12345_6" "2" "102" "2";
     mkStopTimeRow "999_9" "first" "" "";
     mkStopTimeRow "888_2" "" "5" "none"].

(** The same feed with a trip whose identifier carries no numbers. *)
Definition broken_archive : Archive :=
  mkArchive (feed_info_txt archive) (calendar_dates_txt archive)
    (mkTripRow "12345_6" "S1" :: mkTripRow "IC_6" "S1" :: trips_txt archive)
    (stop_times_txt archive).

(** The same feed with the two days of its feed-info row exchanged. *)
Definition reversed_archive : Archive :=
  mkArchive [mkFeedInfoRow "20250630" "20250601"] (calendar_dates_txt archive)
    (trips_txt archive) (stop_times_txt archive).

(** What a build stores under [key], and there under order number [n]. *)
Definition view (r : result Schedules) (key : OrderKey) (n : Z)
  : result (option (list (TripDate string) * option StopTime)) :=
  match r with
  | inl e => inl e
  | inr sched =>
      inr (match by_order sched !! key with
           | Some t => Some (all t, by_order_number t !! n)
           | None => None
           end)
  end.

Definition key_12345 : OrderKey := mkOrderKey 12345 6 (mkDate 2025 6 2).

Definition trip_12345 : TripDate string := mkTripDate "12345_6" (mkDate 2025 6 2).

Definition one_trip : gmap OrderKey Trips := {[ key_12345 := mkTrips [trip_12345] ∅ ]}.

Definition one_trip_keys : gmap string (list TripKeyPair) :=
  {[ "12345_6" := [mkTripKeyPair trip_12345 key_12345] ]}.

Definition overflowed : DelaysBody := mkDelaysBody true "2025-06-01T12:00:00+02:00" [].

(** A trip of which one stop is cancelled, and nothing else. *)
Definition cancelled_only : FactContainer :=
  mkFactContainer noon
    [TripDelayFact (mkTripDelay (mkTripDate 42 (mkDate 2025 6 1))
                      [mkStopDelay 200 1 true false noon noon])].

(** Two trains of schedule 42 on one day (the parser reads the schedule and
    the day of a record, not its order). *)
Definition two_orders : FactContainer :=
  mkFactContainer noon
    [TripDelayFact (mkTripDelay (mkTripDate 42 (mkDate 2025 6 1))
                      [mkStopDelay 100 1 false true noon noon]);
     TripDelayFact (mkTripDelay (mkTripDate 42 (mkDate 2025 6 1))
                      [mkStopDelay 200 1 true false noon noon])].

End Sample.

(** ** Further statements about the index *)

Module Index.

(** The occurrence [td] is listed under [key], and the reverse index lists
    the two together under the identifier of the trip. *)
Definition registered
    (st : gmap OrderKey Trips * gmap string (list TripKeyPair))
    (key : OrderKey) (td : TripDate string) : Prop :=
  (exists t, st.1 !! key = Some t /\ td ∈ all t) /\
  (exists ps, st.2 !! trip_id td = Some ps /\ mkTripKeyPair td key ∈ ps).

(** Every pair of the reverse index is filed under the identifier of its
    trip, and its trip is listed under its key. *)
Definition reverse_index_sound
    (st : gmap OrderKey Trips * gmap string (list TripKeyPair)) : Prop :=
  forall tid ps p,
    st.2 !! tid = Some ps -> p ∈ ps ->
    trip_id (gtfs p) = tid /\
    exists t, st.1 !! live p = Some t /\ gtfs p ∈ all t.

(** The stop time [stop_time] under order number [n] was read from one of
    the rows. *)
Definition stop_time_from_rows (int : string -> option Z)
    (rows : list StopTimeRow) (n : Z) (stop_time : StopTime) : Prop :=
  exists row,
    row ∈ rows /\
    st_trip_id row = trip_id (trip stop_time) /\
    int (st_plk_order row) = Some n /\
    int (st_stop_sequence row) = Some (stop_sequence stop_time) /\
    st_stop_id row = stop_id stop_time.

(** Every stop time of the index belongs to an occurrence listed under the
    same key and was read from one of the rows. *)
Definition stop_times_sound (int : string -> option Z)
    (rows : list StopTimeRow) (by_order : gmap OrderKey Trips) : Prop :=
  forall key t n stop_time,
    by_order !! key = Some t -> by_order_number t !! n = Some stop_time ->
    trip stop_time ∈ all t /\ stop_time_from_rows int rows n stop_time.

End Index.

(** ** Trip identifiers (ids.py) *)

Module Ids.

Definition get_trip_id (schedule_id order_id : Z) (train_order_id : option Z)
  : string :=
  match train_order_id with
  | None => Realtime.str schedule_id +:+ "_" +:+ Realtime.str order_id
  | Some t =>
      Realtime.str schedule_id +:+ "_" +:+ Realtime.str order_id
        +:+ "_" +:+ Realtime.str t
  end.

End Ids.

(** ** The facts of a run (app.py) *)

Module App.
Section App.

Variable date_fromisoformat : string -> option Date.
Variable datetime_fromisoformat : string -> option datetime.

(** The container that [main] renders,
    [fetch_alerts(apikey).merge(fetch_delays(apikey))], from the decoded
    bodies of the two responses on: the alerts are fetched first. *)
Definition facts_of_main (alerts : AlertsBody) (delays : DelaysBody)
  : result FactContainer :=
  let* a := Realtime.fetch_alerts date_fromisoformat datetime_fromisoformat alerts in
  let* d := Realtime.fetch_delays date_fromisoformat datetime_fromisoformat delays in
  ret (Realtime.merge a d).

End App.
End App.

(** ** The API key (apikey.py) *)

Module ApiKey.

Inductive error : Type :=
  | NotSet          (* ValueError("PKP_PLK_APIKEY environment variable not set") *)
  | FileNotFound.   (* open(path) of a path that names no file *)

(** [not key] for the value of [os.getenv]: unset or empty. *)
Definition falsy (key : option string) : bool :=
  match key with
  | None => true
  | Some EmptyString => true
  | Some _ => false
  end.

Section ApiKey.

(** [str.strip]. *)
Variable strip : string -> string.

(** [get_apikey], reading the environment [env] and the text files
    [files]. *)
Definition get_apikey (env files : gmap string string) : error + string :=
  let key := env !! "PKP_PLK_APIKEY" in
  let read :=
    if falsy key then
      match env !! "PKP_PLK_APIKEY_FILE" with
      | Some path =>
          if falsy (Some path) then inr key
          else
            match files !! path with
            | Some content => inr (Some content)
            | None => inl FileNotFound
            end
      | None => inr key
      end
    else inr key in
  match read with
  | inl e => inl e
  | inr key =>
      match key with
      | Some k => if falsy key then inl NotSet else inr (strip k)
      | None => inl NotSet
      end
  end.

End ApiKey.
End ApiKey.

(** ** Splitting bus legs (static/split_bus_legs.py) *)

Module SplitBusLegs.

(** The attributes of a stop time of the timetable library that the task
    reads or writes; [rest] stands for all the others, which a copy
    carries over. The extra fields are a dictionary of strings. *)
Record StopTime (R : Type) : Type :=
  mkStopTime {
    trip_id : string;
    arrival_time : Z;
    departure_time : Z;
    platform : string;
    extra_fields : gmap string string;
    rest : R
  }.

Arguments mkStopTime {R} _ _ _ _ _ _.
Arguments trip_id {R} _.
Arguments arrival_time {R} _.
Arguments departure_time {R} _.
Arguments platform {R} _.
Arguments extra_fields {R} _.
Arguments rest {R} _.

Definition startswith (s prefix : string) : bool := String.prefix prefix s.

Definition get_departure_data {R} (stop_time : StopTime R) : bool :=
  String.eqb (platform stop_time) "BUS"
  || (startswith (trip_id stop_time) "PLK_KM_"
      && startswith
           (default "" (extra_fields stop_time !! "plk_category_code")) "Z").

Definition arrival_only {R} (stop_time : StopTime R) (previous_data : bool)
  : StopTime R :=
  let extra := extra_fields stop_time in
  let departure_time := arrival_time stop_time in
  if previous_data then
    mkStopTime (trip_id stop_time) (arrival_time stop_time) departure_time
      "BUS" (<["track" := ""]> extra) (rest stop_time)
  else
    mkStopTime (trip_id stop_time) (arrival_time stop_time) departure_time
      (default "" (extra !! "arrival_platform"))
      (<["track" := default "" (extra !! "arrival_track")]> extra)
      (rest stop_time).

Definition departure_only {R} (stop_time : StopTime R) (current_data : bool)
  : StopTime R :=
  let extra := extra_fields stop_time in
  let arrival_time := departure_time stop_time in
  if current_data then
    mkStopTime (trip_id stop_time) arrival_time (departure_time stop_time)
      "BUS" (<["track" := ""]> extra) (rest stop_time)
  else if String.eqb (platform stop_time) "BUS" then
    mkStopTime (trip_id stop_time) arrival_time (departure_time stop_time)
      "" (<["track" := ""]> extra) (rest stop_time)
  else
    mkStopTime (trip_id stop_time) arrival_time (departure_time stop_time)
      (platform stop_time) extra (rest stop_time).

Inductive RouteType : Type :=
  | TRAM | METRO | RAIL | BUS | FERRY | CABLE_TRAM | GONDOLA | FUNICULAR
  | TROLLEYBUS | MONORAIL.

(** The attributes of a route that the task reads or writes. *)
Record Route (R : Type) : Type :=
  mkRoute {
    agency_id : string;
    short_name : string;
    long_name : string;
    type : RouteType;
    color : string;
    text_color : string;
    route_rest : R
  }.

Arguments mkRoute {R} _ _ _ _ _ _ _.
Arguments agency_id {R} _.
Arguments short_name {R} _.
Arguments long_name {R} _.
Arguments type {R} _.
Arguments color {R} _.
Arguments text_color {R} _.
Arguments route_rest {R} _.

(** [BusRouteCuration]: a key that is not required is an [option]. *)
Record BusRouteCuration : Type :=
  mkBusRouteCuration {
    agency : option string;
    short_name_match : string;
    short_name_replacement : option string;
    long_name_replacement : option string;
    curated_color : option string
  }.

(** [d.get(key)] as a condition: present and not empty. *)
Definition truthy (value : option string) : option string :=
  match value with
  | Some EmptyString => None
  | other => other
  end.

Section Curation.

(** The library calls of the curation: [re.search(pattern, text)] with the
    match object it returns, [match.expand(template)],
    [template.format(argument)] and [text_color_for(color)]. *)
Variable Match : Type.
Variable re_search : string -> string -> option Match.
Variable expand : Match -> string -> string.
Variable format : string -> string -> string.
Variable text_color_for : string -> string.

(** The two tests of the loop: [None] is [continue]. *)
Definition curation_match {R} (curated_route : BusRouteCuration) (route : Route R)
  : option Match :=
  match agency curated_route with
  | Some a =>
      if String.eqb a (agency_id route) then
        re_search (short_name_match curated_route) (short_name route)
      else None
  | None => re_search (short_name_match curated_route) (short_name route)
  end.

(** The body of the loop once both tests have passed. *)
Definition apply_curation {R} (curated_route : BusRouteCuration)
    (short_name_match : Match) (route : Route R) : Route R :=
  let short_name :=
    match truthy (short_name_replacement curated_route) with
    | Some short_name_template => expand short_name_match short_name_template
    | None => short_name route
    end in
  let long_name :=
    match truthy (long_name_replacement curated_route) with
    | Some long_name_template => format long_name_template (long_name route)
    | None => long_name route
    end in
  match truthy (curated_color curated_route) with
  | Some c =>
      mkRoute (agency_id route) short_name long_name (type route) c
        (text_color_for c) (route_rest route)
  | None =>
      mkRoute (agency_id route) short_name long_name (type route)
        (color route) (text_color route) (route_rest route)
  end.

Definition fallback_curation {R} (route : Route R) : Route R :=
  mkRoute (agency_id route) ("ZKA " +:+ short_name route)
    (long_name route +:+ " (Zastępcza Komunikacja Autobusowa)")
    (type route) "DE4E4E" "FFFFFF" (route_rest route).

Fixpoint curate {R} (curated_routes : list BusRouteCuration) (route : Route R)
  : Route R :=
  match curated_routes with
  | [] => fallback_curation route
  | curated_route :: others =>
      match curation_match curated_route route with
      | Some short_name_match => apply_curation curated_route short_name_match route
      | None => curate others route
      end
  end.

Definition update_bus_replacement_route {R}
    (curated_routes : list BusRouteCuration) (route : Route R) : Route R :=
  let route :=
    mkRoute (agency_id route) (short_name route) (long_name route) BUS
      (color route) (text_color route) (route_rest route) in
  curate curated_routes route.

End Curation.
End SplitBusLegs.


(** ** What a snapshot parses to *)

Module Snapshot.
Section Snapshot.

Variable date_fromisoformat : string -> option Date.
Variable datetime_fromisoformat : string -> option datetime.

(** The occurrence [t] is that of schedule [sid] on the day that the first
    ten characters of [od] spell. *)
Definition trip_of (sid : Z) (od : string) (t : TripDate Z) : Prop :=
  trip_id t = sid /\
  date_fromisoformat (String.substring 0 10 od) = Some (start_date t).

Definition alert_of (rec : AlertRecord) (f : Fact) : Prop :=
  exists a,
    f = AlertFact a /\ alert_id a = a_id rec /\
    title a = default "" (a_tt rec) /\
    description a = default "" (a_msg rec) /\
    Forall2 (fun i t => trip_of (i_sid i) (i_od i) t) (a_ar rec) (trips a).

Definition stop_of (s : StopRecord) (sd : StopDelay) : Prop :=
  sd_stop_id sd = s_id s /\ sd_stop_sequence sd = s_psn s /\
  cancelled sd = default false (s_cn s) /\
  confirmed sd = default false (s_cf s) /\
  datetime_fromisoformat (s_aa s) = Some (live_arrival sd) /\
  datetime_fromisoformat (s_ad s) = Some (live_departure sd).

Definition delay_of (rec : TripRecord) (f : Fact) : Prop :=
  exists d,
    f = TripDelayFact d /\
    trip_of (d_sid rec) (d_od rec) (delay_trip d) /\
    Forall2 stop_of (d_st rec) (stops d).

(** Every date and instant of the body of the alerts parses. *)
Definition alerts_parse (data : AlertsBody) : Prop :=
  is_Some (datetime_fromisoformat (alerts_ts data)) /\
  forall rec i, rec ∈ ds data -> i ∈ a_ar rec ->
    is_Some (date_fromisoformat (String.substring 0 10 (i_od i))).

(** Every date and instant of the body of the delays parses. *)
Definition delays_parse (data : DelaysBody) : Prop :=
  is_Some (datetime_fromisoformat (delays_ts data)) /\
  forall rec, rec ∈ tr data ->
    is_Some (date_fromisoformat (String.substring 0 10 (d_od rec))) /\
    forall s, s ∈ d_st rec ->
      is_Some (datetime_fromisoformat (s_aa s)) /\
      is_Some (datetime_fromisoformat (s_ad s)).

End Snapshot.
End Snapshot.

(** ** Further sample inputs *)

Module Fixtures.

(** A parser of [YYYY-MM-DD]. *)
Definition date_fromisoformat (s : string) : option Date :=
  match s with
  | String y1 (String y2 (String y3 (String y4 (String "-"
      (String m1 (String m2 (String "-" (String d1 (String d2 "")))))))))
    =>
      let digits := [y1; y2; y3; y4; m1; m2; d1; d2] in
      if forallb is_digit digits then
        Some (mkDate (int_digits (String y1 (String y2 (String y3 (String y4 "")))))
                     (int_digits (String m1 (String m2 "")))
                     (int_digits (String d1 (String d2 ""))))
      else None
  | _ => None
  end.

(** A parser of [YYYY-MM-DDTHH:MM:SS], read as UTC. *)
Definition datetime_fromisoformat (s : string) : option datetime :=
  match date_fromisoformat (String.substring 0 10 s),
        String.substring 10 9 s, String.length s with
  | Some d, String "T" (String h1 (String h2 (String ":"
      (String m1 (String m2 (String ":" (String s1 (String s2 "")))))))), 19%nat
    =>
      if forallb is_digit [h1; h2; m1; m2; s1; s2] then
        let seconds :=
          (Calendar.toordinal d - 719163) * 86400
          + int_digits (String h1 (String h2 "")) * 3600
          + int_digits (String m1 (String m2 "")) * 60
          + int_digits (String s1 (String s2 "")) in
        Some (mkDatetime (seconds * 1000000) 0)
      else None
  | _, _, _ => None
  end.

Definition alerts : AlertsBody :=
  mkAlertsBody "2025-06-01T10:00:00"
    [mkAlertRecord 7 (Some "Utrudnienia") None
       [mkAffectedRecord 42 "2025-06-01T00:00:00.000";
        mkAffectedRecord 43 "2025-06-02"];
     mkAlertRecord 8 None (Some "Prace torowe") []].

Definition delays : DelaysBody :=
  mkDelaysBody false "2025-06-01T10:00:05"
    [mkTripRecord 42 "2025-06-01T00:00:00"
       [mkStopRecord 100 1 None (Some true)
          "2025-06-01T10:01:00" "2025-06-01T10:02:00";
        mkStopRecord 101 2 (Some true) None
          "2025-06-01T10:11:00" "2025-06-01T10:12:00"]].

(** The delays with an instant that does not parse in the last stop. *)
Definition broken_delays : DelaysBody :=
  mkDelaysBody false "2025-06-01T10:00:05"
    [mkTripRecord 42 "2025-06-01T00:00:00"
       [mkStopRecord 100 1 None (Some true)
          "2025-06-01T10:01:00" "2025-06-01T10:02:00";
        mkStopRecord 101 2 (Some true) None "2025-06-01T10:11:00" "soon"]].

End Fixtures.


(** ** Sample inputs for the key and for the bus legs *)

Module Fixtures2.

(** [strip] for keys padded with spaces. *)
Fixpoint lstrip (s : string) : string :=
  match s with
  | String " " s' => lstrip s'
  | _ => s
  end.

Definition strip (s : string) : string :=
  String.rev (lstrip (String.rev (lstrip s))).

Definition env_with_key : gmap string string :=
  {[ "PKP_PLK_APIKEY" := " secret " ; "PKP_PLK_APIKEY_FILE" := "/no/such/file" ]}.

Definition env_with_file : gmap string string :=
  {[ "PKP_PLK_APIKEY" := "" ; "PKP_PLK_APIKEY_FILE" := "/run/secrets/plk" ]}.

Definition secrets : gmap string string := {[ "/run/secrets/plk" := "secret " ]}.

(** A search for patterns that are plain words: the pattern matches when
    the text is the pattern itself; the match expands a template to
    itself, and a template is formatted by putting the argument after
    it. *)
Definition re_search (pattern text : string) : option string :=
  if String.eqb pattern text then Some text else None.

Definition expand (m template : string) : string := template.

Definition format (template argument : string) : string := template +:+ argument.

Definition text_color_for (c : string) : string := "000000".

Definition km_route : SplitBusLegs.Route unit :=
  SplitBusLegs.mkRoute "KM" "R1" "Warszawa - Radom" SplitBusLegs.RAIL
    "009955" "FFFFFF" tt.

Definition for_ic : SplitBusLegs.BusRouteCuration :=
  SplitBusLegs.mkBusRouteCuration (Some "IC") "R1" (Some "ZIC") None None.

Definition for_r1 : SplitBusLegs.BusRouteCuration :=
  SplitBusLegs.mkBusRouteCuration (Some "KM") "R1" (Some "ZR1") (Some "")
    (Some "AA0000").

Definition for_any_r1 : SplitBusLegs.BusRouteCuration :=
  SplitBusLegs.mkBusRouteCuration None "R1" (Some "other") None None.

Definition km_stop : SplitBusLegs.StopTime unit :=
  SplitBusLegs.mkStopTime "PLK_KM_1_2" 36000 36060 "II"
    {[ "plk_category_code" := "ZKM" ; "track" := "4" ;
       "arrival_platform" := "I" ; "arrival_track" := "2" ]} tt.

End Fixtures2.


(** ** Views of a build, for the samples *)

Module Views.

Definition range_of (r : result Schedules) : option BoundedDateRange :=
  match r with
  | inl _ => None
  | inr sched => Some (valid_operating_dates sched)
  end.

Definition earlier : FactContainer :=
  mkFactContainer (mkDatetime 1748772000000000 0) [AlertFact Sample.alert_42].

Definition later : FactContainer :=
  mkFactContainer (mkDatetime 1748772005000000 7200)
    [TripDelayFact Sample.delay_42].

End Views.


(** * Properties *)

Example offset_plus : Codec._extract_start_date_offset "PR+1D" = 1.
Proof. reflexivity. Qed.

Example offset_minus : Codec._extract_start_date_offset "1234-2D" = -2.
Proof. reflexivity. Qed.

Example offset_absent : Codec._extract_start_date_offset "1234" = 0.
Proof. reflexivity. Qed.

Example offset_inner : Codec._extract_start_date_offset "A+1DB" = 0.
Proof. reflexivity. Qed.

Example ids_plain : Codec._extract_schedule_order_ids "12345_6" = Some (12345, 6).
Proof. reflexivity. Qed.

Example ids_bus_leg : Codec._extract_schedule_order_ids "12345_6_BUS" = Some (12345, 6).
Proof. reflexivity. Qed.

Example ids_missing : Codec._extract_schedule_order_ids "x12_6" = None.
Proof. reflexivity. Qed.

Example ordinal_2025_06_01 : Calendar.toordinal (mkDate 2025 6 1) = 739403.
Proof. reflexivity. Qed.

Example fromordinal_samples :
  map Calendar.fromordinal [738579; 738945; 739251; 730485; 693655; 3652059; 1]
  = [mkDate 2023 2 28; mkDate 2024 2 29; mkDate 2024 12 31; mkDate 2000 12 31;
     mkDate 1900 3 1; mkDate 9999 12 31; mkDate 1 1 1].
Proof. reflexivity. Qed.

Example toordinal_samples :
  map Calendar.toordinal
    [mkDate 2023 2 28; mkDate 2024 2 29; mkDate 2024 12 31; mkDate 2000 12 31;
     mkDate 1900 3 1; mkDate 9999 12 31; mkDate 1 1 1]
  = [738579; 738945; 739251; 730485; 693655; 3652059; 1].
Proof. reflexivity. Qed.

Example isoformat_2025_06_01 : Calendar.isoformat (mkDate 2025 6 1) = "2025-06-01".
Proof. reflexivity. Qed.

Example add_days_back : Calendar.add_days (mkDate 2025 6 1) (-1) = inr (mkDate 2025 5 31).
Proof. reflexivity. Qed.

Example add_days_leap : Calendar.add_days (mkDate 2024 2 28) 2 = inr (mkDate 2024 3 1).
Proof. reflexivity. Qed.

Example add_days_underflow : Calendar.add_days (mkDate 1 1 1) (-1) = inl OverflowError.
Proof. reflexivity. Qed.

(** ** Strings of digits *)

Lemma append_cons (c : ascii) (a b : string) :
  String c a +:+ b = String c (a +:+ b).
Proof. reflexivity. Qed.

Lemma append_nil_l (b : string) : "" +:+ b = b.
Proof. reflexivity. Qed.

Lemma append_nil_r (a : string) : a +:+ "" = a.
Proof. induction a as [|x a IH]; [done|]. by rewrite append_cons, IH. Qed.

Lemma append_assoc (a b c : string) : (a +:+ b) +:+ c = a +:+ b +:+ c.
Proof. induction a as [|x a IH]; [done|]. by rewrite !append_cons, IH. Qed.

Lemma span_digits_spec (s : string) :
  s = (span_digits s).1 +:+ (span_digits s).2 /\
  all_digits (span_digits s).1 = true /\
  Codec.no_leading_digit (span_digits s).2.
Proof.
  induction s as [|c s IH]; simpl; [done|].
  destruct (is_digit c) eqn:Hc.
  - destruct (span_digits s) as [ds rest]; simpl in *.
    destruct IH as (-> & Hds & Hrest). by rewrite append_cons, Hc, Hds.
  - by simpl.
Qed.

Lemma span_digits_app (ds rest : string) :
  all_digits ds = true -> Codec.no_leading_digit rest ->
  span_digits (ds +:+ rest) = (ds, rest).
Proof.
  induction ds as [|c ds IH]; intros Hds Hrest.
  - rewrite append_nil_l. destruct rest as [|c rest]; simpl in *; [done|].
    by rewrite Hrest.
  - simpl in Hds. apply andb_true_iff in Hds as [Hc Hds].
    rewrite append_cons. simpl. by rewrite Hc, IH.
Qed.

Lemma all_digits_app (a b : string) :
  all_digits (a +:+ b) = all_digits a && all_digits b.
Proof.
  induction a as [|c a IH]; [done|].
  rewrite append_cons. simpl. by rewrite IH, andb_assoc.
Qed.

(** ** The codec *)

Lemma extract_ids_of_prefix (d1 d2 rest : string) :
  Codec.digit_run d1 -> Codec.digit_run d2 -> Codec.no_leading_digit rest ->
  Codec._extract_schedule_order_ids (d1 +:+ "_" +:+ d2 +:+ rest)
  = Some (int_digits d1, int_digits d2).
Proof.
  intros [Hne1 Hd1] [Hne2 Hd2] Hrest. unfold Codec._extract_schedule_order_ids.
  rewrite (span_digits_app d1) by done.
  destruct d1 as [|c1 d1]; [done|]. rewrite append_cons, append_nil_l. simpl.
  rewrite (span_digits_app d2) by done.
  by destruct d2.
Qed.

Lemma extract_ids_some_prefix (trip_id : string) (p : Z * Z) :
  Codec._extract_schedule_order_ids trip_id = Some p ->
  Codec.has_schedule_order_prefix trip_id.
Proof.
  unfold Codec._extract_schedule_order_ids.
  destruct (span_digits_spec trip_id) as (Heq & Hd1 & _).
  destruct (span_digits trip_id) as [g1 r1]; simpl in *.
  destruct g1 as [|c1 g1]; [done|]. destruct r1 as [|c r1]; [done|].
  destruct (Ascii.eqb_spec c "_") as [->|]; [|done].
  destruct (span_digits_spec r1) as (Heq2 & Hd2 & _).
  destruct (span_digits r1) as [g2 r2]; simpl in *.
  destruct g2 as [|c2 g2]; [done|]. intros _.
  exists (String c1 g1), (String c2 g2), r2.
  split_and!; [done..|]. by rewrite Heq, Heq2.
Qed.

Lemma extract_ids_none (trip_id : string) :
  ~ Codec.has_schedule_order_prefix trip_id ->
  Codec._extract_schedule_order_ids trip_id = None.
Proof.
  intros Hno. destruct (Codec._extract_schedule_order_ids trip_id) eqn:E; [|done].
  destruct Hno. by eapply extract_ids_some_prefix.
Qed.

Lemma append_last_inj (a b : string) (c d : ascii) :
  a +:+ String c "" = b +:+ String d "" -> a = b /\ c = d.
Proof.
  revert b. induction a as [|x a IH]; intros [|y b] H;
    rewrite ?append_cons, ?append_nil_l in H.
  - by inversion H.
  - inversion H as [[Hx Hb]]. destruct b; rewrite ?append_cons in Hb; done.
  - inversion H as [[Hx Ha]]. destruct a; rewrite ?append_cons in Ha; done.
  - inversion H as [[Hx Hab]]. apply IH in Hab as [-> ->]. done.
Qed.

Lemma is_sign_not_digit (c : ascii) : Codec.is_sign c = true -> is_digit c = false.
Proof.
  unfold Codec.is_sign. intros H. apply orb_true_iff in H as [H|H];
    apply Ascii.eqb_eq in H; by subst.
Qed.

Lemma at_dollar_cases (e : string) :
  Codec.at_dollar e = true -> e = "" \/ e = Codec.line_feed.
Proof.
  destruct e as [|c [|c' e]]; simpl; [by left| |done].
  intros H. apply Ascii.eqb_eq in H. subst. by right.
Qed.

(** A match at the head of [s] tells what [s] is. *)
Lemma match_offset_here_some (s : string) (z : Z) :
  Codec.match_offset_here s = Some z ->
  exists sign ds e,
    Codec.is_sign sign = true /\ Codec.digit_run ds /\
    (e = "" \/ e = Codec.line_feed) /\
    s = String sign ds +:+ "D" +:+ e /\ z = Codec.int_signed sign ds.
Proof.
  destruct s as [|sign s1]; simpl; [done|].
  destruct (Codec.is_sign sign) eqn:Hsign; [|done].
  destruct (span_digits_spec s1) as (Heq & Hds & _).
  destruct (span_digits s1) as [g r]; simpl in *.
  destruct g as [|d ds]; [done|]. destruct r as [|c rest]; [done|].
  destruct (Ascii.eqb_spec c "D") as [->|]; [|done]. simpl.
  destruct (Codec.at_dollar rest) eqn:Hend; [|done].
  intros [= <-]. exists sign, (String d ds), rest.
  split_and!; try done; [by apply at_dollar_cases | by rewrite Heq].
Qed.

Lemma match_offset_here_suffix (sign : ascii) (ds e : string) :
  Codec.is_sign sign = true -> Codec.digit_run ds ->
  e = "" \/ e = Codec.line_feed ->
  Codec.match_offset_here (String sign ds +:+ "D" +:+ e)
  = Some (Codec.int_signed sign ds).
Proof.
  intros Hsign [Hne Hds] He. rewrite append_cons. simpl. rewrite Hsign.
  rewrite (span_digits_app ds) by done.
  destruct ds as [|d ds]; [done|]. rewrite append_cons, append_nil_l.
  by destruct He as [-> | ->].
Qed.

Lemma offset_tail_inj (x y e e' : string) :
  e = "" \/ e = Codec.line_feed -> e' = "" \/ e' = Codec.line_feed ->
  x +:+ "D" +:+ e = y +:+ "D" +:+ e' -> x = y.
Proof.
  unfold Codec.line_feed. intros [-> | ->] [-> | ->] H;
    rewrite ?append_nil_r in H.
  - by apply append_last_inj in H as [? _].
  - rewrite <- (append_assoc y) in H. by apply append_last_inj in H as [_ ?].
  - rewrite <- (append_assoc x) in H. by apply append_last_inj in H as [_ ?].
  - rewrite <- (append_assoc x), <- (append_assoc y) in H.
    apply append_last_inj in H as [H _].
    by apply append_last_inj in H as [? _].
Qed.

(** No match can begin before the sign of a suffix that ends the string:
    the sign would have to be one of the digits. *)
Lemma match_offset_here_early (c sign : ascii) (front ds e : string) (z : Z) :
  Codec.is_sign sign = true -> Codec.digit_run ds ->
  e = "" \/ e = Codec.line_feed ->
  Codec.match_offset_here (String c (front +:+ String sign ds +:+ "D" +:+ e))
  = Some z -> False.
Proof.
  intros Hsign [Hne Hds] He Hm.
  apply match_offset_here_some in Hm
    as (sign' & ds' & e' & Hsign' & [Hne' Hds'] & He' & Heq & _).
  rewrite (append_cons sign' ds') in Heq. injection Heq as _ Heq.
  rewrite <- (append_assoc front (String sign ds)) in Heq.
  apply offset_tail_inj in Heq; [|done..]. subst ds'.
  rewrite all_digits_app in Hds'. simpl in Hds'.
  rewrite (is_sign_not_digit sign Hsign) in Hds'.
  by rewrite andb_false_r in Hds'.
Qed.

Lemma search_offset_eq (s : string) :
  Codec.search_offset s
  = match Codec.match_offset_here s with
    | Some z => Some z
    | None =>
        match s with
        | EmptyString => None
        | String _ s' => Codec.search_offset s'
        end
    end.
Proof. by destruct s. Qed.

Lemma search_offset_suffix (front : string) (sign : ascii) (ds e : string) :
  Codec.is_sign sign = true -> Codec.digit_run ds ->
  e = "" \/ e = Codec.line_feed ->
  Codec.search_offset (front +:+ String sign ds +:+ "D" +:+ e)
  = Some (Codec.int_signed sign ds).
Proof.
  intros Hsign Hds He. induction front as [|c front IH].
  - by rewrite append_nil_l, search_offset_eq, match_offset_here_suffix.
  - rewrite append_cons, search_offset_eq.
    destruct (Codec.match_offset_here _) eqn:Hm; [|done].
    exfalso. by eapply match_offset_here_early.
Qed.

Lemma search_offset_some (s : string) (z : Z) :
  Codec.search_offset s = Some z ->
  exists front sign ds e,
    Codec.is_sign sign = true /\ Codec.digit_run ds /\
    (e = "" \/ e = Codec.line_feed) /\
    s = front +:+ String sign ds +:+ "D" +:+ e /\ z = Codec.int_signed sign ds.
Proof.
  induction s as [|c s IH]; rewrite search_offset_eq.
  - by destruct (Codec.match_offset_here "") eqn:Hm.
  - destruct (Codec.match_offset_here (String c s)) eqn:Hm.
    + intros [= <-]. apply match_offset_here_some in Hm
        as (sign & ds & e & ? & ? & ? & ? & ?).
      by exists "", sign, ds, e.
    + intros H. apply IH in H as (front & sign & ds & e & ? & ? & ? & -> & ?).
      by exists (String c front), sign, ds, e.
Qed.

(** The day shift of an identifier that ends with the suffix. *)
Lemma offset_of_suffix (front : string) (sign : ascii) (ds : string) :
  Codec.is_sign sign = true -> Codec.digit_run ds ->
  Codec._extract_start_date_offset (front +:+ String sign ds +:+ "D")
  = Codec.int_signed sign ds.
Proof.
  intros Hsign Hds. unfold Codec._extract_start_date_offset.
  rewrite <- (append_nil_r "D").
  rewrite (search_offset_suffix front sign ds ""); auto.
Qed.

(** The day shift of an identifier without the suffix, also when a final
    line feed is set aside, is 0. *)
Lemma offset_default (service_id : string) :
  ~ Codec.has_offset_suffix service_id ->
  (forall s, service_id = s +:+ Codec.line_feed -> ~ Codec.has_offset_suffix s) ->
  Codec._extract_start_date_offset service_id = 0.
Proof.
  intros Hno Hno_lf. unfold Codec._extract_start_date_offset.
  destruct (Codec.search_offset service_id) as [z|] eqn:Hs; [|done].
  apply search_offset_some in Hs
    as (front & sign & ds & e & Hsign & Hds & [-> | ->] & -> & _).
  - destruct Hno. exists front, sign, ds. by rewrite append_nil_r.
  - destruct (Hno_lf (front +:+ String sign ds +:+ "D")).
    + by rewrite !append_assoc.
    + by exists front, sign, ds.
Qed.

(** C4: the day shift of an identifier that ends with a line feed. The
    identifier ["PR+1D\n"] does not end with a sign, digits and [D], yet its
    day shift is 1, not 0: [$] also matches before a final line feed. *)
Theorem offset_before_final_line_feed :
  Codec._extract_start_date_offset ("PR+1D" +:+ Codec.line_feed) = 1 /\
  ~ Codec.has_offset_suffix ("PR+1D" +:+ Codec.line_feed).
Proof.
  split; [reflexivity|].
  intros (front & sign & ds & _ & _ & Heq).
  change ("PR+1D" +:+ Codec.line_feed) with ("PR+1D" +:+ String "010" "") in Heq.
  rewrite <- (append_assoc front) in Heq.
  by apply append_last_inj in Heq as [_ ?].
Qed.


(** ** Loops that may raise *)

Lemma bind_inr {A B} (m : result A) (k : A -> result B) (b : B) :
  bind m k = inr b -> exists a, m = inr a /\ k a = inr b.
Proof. destruct m as [e|a]; simpl; [done|]. by exists a. Qed.

Lemma of_option_inr {A} (e : exn) (o : option A) (a : A) :
  of_option e o = inr a -> o = Some a.
Proof. destruct o; simpl; unfold ret, raise; congruence. Qed.

Lemma for_each_app {A S} (body : S -> A -> result S) (xs ys : list A) (s : S) :
  for_each body (xs ++ ys) s
  = bind (for_each body xs s) (for_each body ys).
Proof.
  revert s. induction xs as [|x xs IH]; intros s; simpl; [done|].
  destruct (body s x) as [e|s']; simpl; [done|]. apply IH.
Qed.

(** A property of the state that every iteration which returns keeps
    holds when the loop returns. *)
Lemma for_each_inv {A S} (P : S -> Prop) (body : S -> A -> result S) (xs : list A) :
  (forall s x s', x ∈ xs -> P s -> body s x = inr s' -> P s') ->
  forall s s', P s -> for_each body xs s = inr s' -> P s'.
Proof.
  induction xs as [|x xs IH]; intros Hstep s s' Hs; simpl.
  - intros [= <-]. done.
  - intros Hrun. apply bind_inr in Hrun as (s1 & Hbody & Hrest).
    eapply IH; [|eapply Hstep; [|exact Hs|exact Hbody]|exact Hrest].
    + intros ? ? ? ?. apply Hstep. by right.
    + by left.
Qed.

Lemma foldl_inv {A S} (P : S -> Prop) (f : S -> A -> S) (xs : list A) :
  (forall s x, x ∈ xs -> P s -> P (f s x)) ->
  forall s, P s -> P (foldl f s xs).
Proof.
  induction xs as [|x xs IH]; intros Hstep s Hs; simpl; [done|].
  apply IH.
  - intros ? ? ?. apply Hstep. by right.
  - apply Hstep; [by left|done].
Qed.

(** A comprehension returns the list of what its element expression
    returns, element by element, and raises as soon as one element does. *)
Lemma comprehension_inr {A B} (f : A -> result B) (xs : list A) (ys : list B) :
  comprehension f xs = inr ys -> Forall2 (fun x y => f x = inr y) xs ys.
Proof.
  revert ys. induction xs as [|x xs IH]; intros ys; simpl.
  - intros [= <-]. constructor.
  - intros H. apply bind_inr in H as (y & Hy & H).
    apply bind_inr in H as (ys' & Hys & H). injection H as <-.
    constructor; [done|by apply IH].
Qed.

Lemma comprehension_returns {A B} (f : A -> result B) (xs : list A) :
  (forall x, x ∈ xs -> exists y, f x = inr y) ->
  exists ys, comprehension f xs = inr ys.
Proof.
  induction xs as [|x xs IH]; intros Hall; simpl; [by eexists|].
  destruct (Hall x) as [y Hy]; [by left|]. rewrite Hy. simpl.
  destruct IH as [ys Hys]; [intros ? ?; apply Hall; by right|].
  rewrite Hys. simpl. by eexists.
Qed.

Lemma Forall2_inr_elem {A B} (f : A -> result B) (xs : list A) (ys : list B) x :
  Forall2 (fun x y => f x = inr y) xs ys -> x ∈ xs -> exists y, f x = inr y.
Proof.
  induction 1 as [|x' y' xs ys Hxy _ IH]; intros Hx.
  - by apply elem_of_nil in Hx.
  - apply elem_of_cons in Hx as [->|Hx]; [eauto|by apply IH].
Qed.

Lemma comprehension_map {A B} (f : A -> result B) (g : A -> B)
    (P : A -> Prop) (xs : list A) :
  (forall x y, f x = inr y <-> P x /\ y = g x) ->
  forall ys, comprehension f xs = inr ys <-> Forall P xs /\ ys = map g xs.
Proof.
  intros Hf. induction xs as [|x xs IH]; intros ys; simpl.
  - split; [intros [= <-]; by split|]. by intros [_ ->].
  - split.
    + intros H. apply bind_inr in H as (y & Hy & H).
      apply bind_inr in H as (ys' & Hys & H). injection H as <-.
      apply Hf in Hy as [HP ->]. apply IH in Hys as [HPs ->].
      split; [by constructor|done].
    + intros [HP ->]. apply Forall_cons in HP as [HPx HPs].
      assert (f x = inr (g x)) as -> by (apply Hf; by split). simpl.
      assert (comprehension f xs = inr (map g xs)) as -> by (apply IH; by split).
      done.
Qed.

(** ** Day arithmetic *)

Lemma days_before_year_split (a b c d : Z) :
  0 <= b <= 3 -> 0 <= c <= 24 -> 0 <= d <= 3 ->
  Calendar._days_before_year (400 * a + 100 * b + 4 * c + d + 1)
  = 146097 * a + 36524 * b + 1461 * c + 365 * d.
Proof.
  intros Hb Hc Hd. unfold Calendar._days_before_year.
  replace (400 * a + 100 * b + 4 * c + d + 1 - 1)
    with (400 * a + 100 * b + 4 * c + d) by lia.
  Z.div_mod_to_equations. lia.
Qed.

Lemma is_leap_split (a b c d : Z) :
  0 <= b <= 3 -> 0 <= c <= 24 -> 0 <= d <= 3 ->
  Calendar._is_leap (400 * a + 100 * b + 4 * c + d + 1)
  = (d =? 3) && (negb (c =? 24) || (b =? 3)).
Proof.
  intros Hb Hc Hd. unfold Calendar._is_leap.
  destruct (Z.eqb_spec d 3), (Z.eqb_spec c 24), (Z.eqb_spec b 3);
    repeat match goal with
           | |- context [?x mod ?k =? 0] => destruct (Z.eqb_spec (x mod k) 0)
           end; simpl; try reflexivity; exfalso;
    Z.div_mod_to_equations; lia.
Qed.

(** The month and the day within the year, for day [r] of a year. *)
Lemma month_day_split (y r : Z) (leap : bool) :
  0 <= r < 365 -> Calendar._is_leap y = leap ->
  let m := Z.shiftr (r + 50) 5 in
  let preceding :=
    Calendar._DAYS_BEFORE_MONTH m + (if (2 <? m) && leap then 1 else 0) in
  (if r <? preceding then
     Calendar._ymd2ord y (m - 1)
       (r - (preceding
             - (Calendar._DAYS_IN_MONTH (m - 1)
                + (if (m - 1 =? 2) && leap then 1 else 0))) + 1)
   else Calendar._ymd2ord y m (r - preceding + 1))
  = Calendar._days_before_year y + r + 1.
Proof.
  intros Hr Hleap m preceding. subst preceding.
  assert (Hm : 32 * m <= r + 50 < 32 * m + 32).
  { subst m. rewrite Z.shiftr_div_pow2 by lia. change (2 ^ 5) with 32.
    Z.div_mod_to_equations. lia. }
  clearbody m.
  unfold Calendar._ymd2ord, Calendar._days_before_month. rewrite Hleap.
  assert (m = 1 \/ m = 2 \/ m = 3 \/ m = 4 \/ m = 5 \/ m = 6 \/ m = 7 \/
          m = 8 \/ m = 9 \/ m = 10 \/ m = 11 \/ m = 12) as Hcases by lia.
  destruct leap;
    repeat (destruct Hcases as [Hcases|Hcases]); subst m; simpl;
    match goal with
    | |- context [?a <? ?b] => destruct (Z.ltb_spec a b)
    end; simpl; lia.
Qed.

Lemma ymd2ord_ord2ymd (n : Z) :
  (let '(y, m, d) := Calendar._ord2ymd n in Calendar._ymd2ord y m d) = n.
Proof.
  unfold Calendar._ord2ymd, Calendar._DI400Y, Calendar._DI100Y, Calendar._DI4Y.
  cbv zeta.
  set (a := (n - 1) / 146097). set (r1 := (n - 1) mod 146097).
  set (b := r1 / 36524). set (r2 := r1 mod 36524).
  set (c := r2 / 1461). set (r3 := r2 mod 1461).
  set (d := r3 / 365). set (r := r3 mod 365).
  assert (n - 1 = 146097 * a + r1 /\ 0 <= r1 < 146097) as [E1 B1]
    by (subst a r1; Z.div_mod_to_equations; lia).
  assert (r1 = 36524 * b + r2 /\ 0 <= r2 < 36524) as [E2 B2]
    by (subst b r2; Z.div_mod_to_equations; lia).
  assert (r2 = 1461 * c + r3 /\ 0 <= r3 < 1461) as [E3 B3]
    by (subst c r3; Z.div_mod_to_equations; lia).
  assert (r3 = 365 * d + r /\ 0 <= r < 365) as [E4 B4]
    by (subst d r; Z.div_mod_to_equations; lia).
  clearbody a r1 b r2 c r3 d r.
  destruct (Z.eqb_spec d 4) as [Hd|Hd]; [|destruct (Z.eqb_spec b 4) as [Hb|Hb]];
    simpl.
  - replace (a * 400 + 1 + b * 100 + c * 4 + d - 1)
      with (400 * a + 100 * b + 4 * c + 3 + 1) by lia.
    unfold Calendar._ymd2ord, Calendar._days_before_month.
    rewrite days_before_year_split, is_leap_split by lia.
    replace (c =? 24) with false by (symmetry; apply Z.eqb_neq; lia).
    simpl. lia.
  - replace (a * 400 + 1 + b * 100 + c * 4 + d - 1)
      with (400 * a + 100 * 3 + 4 * 24 + 3 + 1) by lia.
    unfold Calendar._ymd2ord, Calendar._days_before_month.
    rewrite days_before_year_split, is_leap_split by lia.
    simpl. lia.
  - replace (a * 400 + 1 + b * 100 + c * 4 + d)
      with (400 * a + 100 * b + 4 * c + d + 1) by lia.
    pose proof (month_day_split (400 * a + 100 * b + 4 * c + d + 1) r
                  ((d =? 3) && (negb (c =? 24) || (b =? 3))) B4) as Hmd.
    cbv zeta in Hmd. rewrite days_before_year_split in Hmd by lia.
    specialize (Hmd (is_leap_split a b c d ltac:(lia) ltac:(lia) ltac:(lia))).
    destruct (r <? _); rewrite Hmd; lia.
Qed.

Lemma toordinal_fromordinal (n : Z) :
  Calendar.toordinal (Calendar.fromordinal n) = n.
Proof.
  pose proof (ymd2ord_ord2ymd n) as H.
  unfold Calendar.toordinal, Calendar.fromordinal.
  by destruct (Calendar._ord2ymd n) as [[y m] d].
Qed.

(** Adding days moves the ordinal by that many days. *)
Lemma add_days_ordinal (d d' : Date) (delta : Z) :
  Calendar.add_days d delta = inr d' ->
  Calendar.toordinal d' = Calendar.toordinal d + delta.
Proof.
  unfold Calendar.add_days, ret, raise.
  destruct (_ && _); intros H; [|discriminate H].
  replace d' with (Calendar.fromordinal (Calendar.toordinal d + delta))
    by congruence.
  apply toordinal_fromordinal.
Qed.

(** ** The schedule index *)

Section LoaderProperties.

Variable from_ymd_str : string -> option Date.
Variable int : string -> option Z.

(** *** Pass 2: every retained pair comes from a calendar row *)

Lemma load_services_justified rows range services :
  Loader._load_services from_ymd_str rows range = inr services ->
  Loader.services_justified from_ymd_str rows range services.
Proof.
  unfold Loader._load_services.
  apply (for_each_inv (Loader.services_justified from_ymd_str rows range)); [|done].
  intros s row s' Hin Hs Hrow. unfold Loader._load_services_row in Hrow.
  apply bind_inr in Hrow as (start & Hstart & Hrow).
  apply of_option_inr in Hstart.
  apply bind_inr in Hrow as (op & Hop & Hrow).
  destruct (contains range op) eqn:Hrange; injection Hrow as <-; [|done].
  intros sid pairs p Hlook Hp. unfold Loader.setdefault_append in Hlook.
  destruct (decide (cal_service_id row = sid)) as [Heq|Hne].
  - rewrite Heq, lookup_insert_eq in Hlook. injection Hlook as <-.
    apply elem_of_app in Hp as [Hp|Hp].
    + destruct (s !! sid) as [old|] eqn:Hold; simpl in Hp;
        [by eapply Hs | by apply elem_of_nil in Hp].
    + apply list_elem_of_singleton in Hp as ->. exists row.
      split; [done|]. unfold Loader.pair_from_row; simpl. by rewrite <- Heq.
  - rewrite lookup_insert_ne in Hlook by done. by eapply Hs.
Qed.

(** *** Pass 3: every stored occurrence comes from a trip row *)

Lemma register_trip_justified rows services row sid oid st p pairs :
  row ∈ rows ->
  Codec._extract_schedule_order_ids (row_trip_id row) = Some (sid, oid) ->
  services !! row_service_id row = Some pairs -> p ∈ pairs ->
  Loader.index_justified rows services st.1 ->
  Loader.index_justified rows services
    (Loader.register_trip (row_trip_id row) sid oid st p).1.
Proof.
  intros Hrow Hids Hserv Hp Hst. destruct st as [by_order t2k]; simpl in *.
  set (key := mkOrderKey sid oid (pair_operating_date p)).
  set (td := mkTripDate (row_trip_id row) (pair_start_date p)).
  assert (Hnew : exists r, r ∈ rows /\ Loader.occurrence_from_row services key td r).
  { exists row. split; [done|]. split_and!; [done|done|].
    exists pairs. split; [done|]. by destruct p. }
  unfold Loader.register_trip. fold key. fold td.
  destruct (by_order !! key) as [t|] eqn:Hkey; simpl;
    intros key' t' Hlook;
    (destruct (decide (key = key')) as [<-|Hne];
     [rewrite lookup_insert_eq in Hlook; injection Hlook as <-; simpl
     |rewrite lookup_insert_ne in Hlook by done; by eapply Hst]).
  - split; [by destruct (all t)|].
    intros td' Htd. apply elem_of_app in Htd as [Htd|Htd].
    + by eapply Hst.
    + by apply list_elem_of_singleton in Htd as ->.
  - split; [done|]. intros td' Htd.
    by apply list_elem_of_singleton in Htd as ->.
Qed.

Lemma register_trip_keys trip_id sid oid st p :
  Loader.keys_registered st.1 st.2 ->
  Loader.keys_registered (Loader.register_trip trip_id sid oid st p).1
                         (Loader.register_trip trip_id sid oid st p).2.
Proof.
  destruct st as [by_order t2k]; simpl. intros Hst.
  unfold Loader.register_trip.
  set (key := mkOrderKey sid oid (pair_operating_date p)).
  set (td := mkTripDate trip_id (pair_start_date p)).
  assert (Hgrow : forall k,
    is_Some (by_order !! k) ->
    is_Some ((match by_order !! key with
              | Some t => <[key := mkTrips (all t ++ [td]) (by_order_number t)]> by_order
              | None => <[key := mkTrips [td] ∅]> by_order
              end) !! k)).
  { intros k Hk. destruct (by_order !! key);
      (destruct (decide (key = k)) as [<-|];
       [rewrite lookup_insert_eq; eauto | by rewrite lookup_insert_ne]). }
  assert (Hkey :
    is_Some ((match by_order !! key with
              | Some t => <[key := mkTrips (all t ++ [td]) (by_order_number t)]> by_order
              | None => <[key := mkTrips [td] ∅]> by_order
              end) !! key)).
  { destruct (by_order !! key); rewrite lookup_insert_eq; eauto. }
  destruct (by_order !! key) as [t|] eqn:Hlook; simpl in *;
    intros tid pairs q Hq Hin; unfold Loader.setdefault_append in Hq;
    (destruct (decide (trip_id = tid)) as [<-|];
     [rewrite lookup_insert_eq in Hq; injection Hq as <-;
      apply elem_of_app in Hin as [Hin|Hin];
      [destruct (t2k !! trip_id) eqn:Ht; simpl in Hin;
       [apply Hgrow; by eapply Hst | by apply elem_of_nil in Hin]
      |apply list_elem_of_singleton in Hin as ->; exact Hkey]
     |rewrite lookup_insert_ne in Hq by done; apply Hgrow; by eapply Hst]).
Qed.

Lemma load_trips_justified rows services by_order trip_id_to_keys :
  Loader._load_trips rows services = inr (by_order, trip_id_to_keys) ->
  Loader.index_justified rows services by_order /\
  Loader.keys_registered by_order trip_id_to_keys.
Proof.
  unfold Loader._load_trips.
  set (P := fun st : gmap OrderKey Trips * gmap string (list TripKeyPair) =>
              Loader.index_justified rows services st.1 /\
              Loader.keys_registered st.1 st.2).
  apply (for_each_inv P).
  - intros st row st' Hrow Hst Hrun. unfold Loader._load_trips_row in Hrun.
    destruct (Codec._extract_schedule_order_ids (row_trip_id row))
      as [[sid oid]|] eqn:Hids; [|done].
    injection Hrun as <-.
    destruct (services !! row_service_id row) as [pairs|] eqn:Hserv; simpl; [|done].
    apply (foldl_inv P); [|done].
    intros st1 p Hp [Hj Hk]. split.
    + by eapply register_trip_justified.
    + by apply register_trip_keys.
  - split; [intros key t Hl | intros tid pairs p Hl]; simpl in Hl;
      by rewrite lookup_empty in Hl.
Qed.

(** *** Pass 4 leaves the occurrences of every key as they are *)

Lemma set_stop_time_all row by_order p by_order' :
  Loader.set_stop_time int row by_order p = inr by_order' ->
  forall key, all <$> (by_order' !! key) = all <$> (by_order !! key).
Proof.
  unfold Loader.set_stop_time. intros Hrun key.
  apply bind_inr in Hrun as (seq & _ & Hrun).
  apply bind_inr in Hrun as (n & _ & Hrun).
  destruct (by_order !! live p) as [t|] eqn:Hlive; [|done].
  injection Hrun as <-.
  destruct (decide (live p = key)) as [<-|].
  - by rewrite lookup_insert_eq, Hlive.
  - by rewrite lookup_insert_ne.
Qed.

Lemma load_stop_times_all rows by_order trip_id_to_keys by_order' :
  Loader._load_stop_times int rows by_order trip_id_to_keys = inr by_order' ->
  forall key, all <$> (by_order' !! key) = all <$> (by_order !! key).
Proof.
  unfold Loader._load_stop_times.
  apply (for_each_inv
           (fun bo => forall key, all <$> (bo !! key) = all <$> (by_order !! key)));
    [|done].
  intros bo row bo' _ Hbo. unfold Loader._load_stop_times_row.
  apply (for_each_inv
           (fun bo => forall key, all <$> (bo !! key) = all <$> (by_order !! key)));
    [|done].
  intros bo1 p bo2 _ Hbo1 Hset key.
  by rewrite (set_stop_time_all _ _ _ _ Hset).
Qed.

(** C1: in a built index, every stored key has an operating date within
    the valid operating dates, and every occurrence listed under it comes
    from a trip row and a calendar row of the trip's service such that the
    operating date is the start date less the day shift extracted from the
    service identifier, as a date and in days. *)
Theorem stored_operating_date_is_shifted_start_date arch sched :
  Loader.load_from_gtfs from_ymd_str int arch = inr sched ->
  forall key t,
    by_order sched !! key = Some t ->
    contains (valid_operating_dates sched) (operating_date key) = true /\
    forall td, td ∈ all t ->
      exists row cal,
        row ∈ trips_txt arch /\ cal ∈ calendar_dates_txt arch /\
        row_trip_id row = trip_id td /\
        Codec._extract_schedule_order_ids (trip_id td)
        = Some (schedule_id key, order_id key) /\
        cal_service_id cal = row_service_id row /\
        from_ymd_str (cal_date cal) = Some (start_date td) /\
        Calendar.add_days (start_date td)
          (- Codec._extract_start_date_offset (row_service_id row))
        = inr (operating_date key) /\
        Calendar.toordinal (operating_date key)
        = Calendar.toordinal (start_date td)
          - Codec._extract_start_date_offset (row_service_id row).
Proof.
  unfold Loader.load_from_gtfs. intros Hload key t Hkey.
  apply bind_inr in Hload as (range & Hrange & Hload).
  apply bind_inr in Hload as (services & Hserv & Hload).
  apply bind_inr in Hload as ([bo t2k] & Htrips & Hload).
  apply bind_inr in Hload as (bo' & Hstops & Hload).
  injection Hload as <-. simpl in *.
  apply load_services_justified in Hserv.
  apply load_trips_justified in Htrips as [Hidx _].
  pose proof (load_stop_times_all _ _ _ _ Hstops key) as Hall.
  rewrite Hkey in Hall. simpl in Hall.
  destruct (bo !! key) as [t0|] eqn:Hkey0; [|done].
  injection Hall as Hall. destruct (Hidx _ _ Hkey0) as [Hne Hocc].
  assert (Hpair : forall td, td ∈ all t ->
    exists row cal,
      row ∈ trips_txt arch /\ cal ∈ calendar_dates_txt arch /\
      row_trip_id row = trip_id td /\
      Codec._extract_schedule_order_ids (trip_id td)
      = Some (schedule_id key, order_id key) /\
      Loader.pair_from_row from_ymd_str range (row_service_id row)
        (mkDatePair (operating_date key) (start_date td)) cal).
  { intros td Htd. rewrite Hall in Htd.
    destruct (Hocc td Htd) as (row & Hrow & Hid & Hids & pairs & Hpairs & Hin).
    destruct (Hserv _ _ _ Hpairs Hin) as (cal & Hcal & Hfrom).
    by exists row, cal. }
  split.
  - destruct (all t) as [|td tds] eqn:Ht; [by rewrite Hall in Hne|].
    destruct (Hpair td) as (_ & _ & _ & _ & _ & _ & _ & _ & _ & Hin); [by left|].
    exact Hin.
  - intros td Htd.
    destruct (Hpair td Htd) as (row & cal & ? & ? & ? & ? & ? & ? & Hadd & _).
    exists row, cal. split_and!; try done.
    apply add_days_ordinal in Hadd. simpl in Hadd. lia.
Qed.

(** *** Pass 1 *)

Lemma contains_iff (r : BoundedDateRange) (d : Date) :
  contains r d = true <->
  Calendar.leb (range_start r) d = true /\ Calendar.leb d (range_end r) = true.
Proof. unfold contains. apply andb_true_iff. Qed.

Lemma ltb_negb_leb (a b : Date) : Calendar.ltb a b = negb (Calendar.leb b a).
Proof.
  unfold Calendar.ltb, Calendar.leb.
  destruct (Z.eqb_spec (year a) (year b)) as [->|Hy].
  - rewrite Z.eqb_refl. destruct (Z.eqb_spec (month a) (month b)) as [->|Hm].
    + rewrite Z.eqb_refl. destruct (Z.ltb_spec (day a) (day b));
        destruct (Z.leb_spec (day b) (day a)); simpl; try done; lia.
    + destruct (Z.eqb_spec (month b) (month a)); [congruence|].
      destruct (Z.ltb_spec (month a) (month b));
        destruct (Z.ltb_spec (month b) (month a)); simpl; try done; lia.
  - destruct (Z.eqb_spec (year b) (year a)); [congruence|].
    destruct (Z.ltb_spec (year a) (year b));
      destruct (Z.ltb_spec (year b) (year a)); simpl; try done; lia.
Qed.

(** The range from [S] to [L] is made when [S] is not after [L], and refused
    otherwise. *)
Lemma load_feed_dates_range row rest F L S :
  from_ymd_str (feed_start_date row) = Some F ->
  from_ymd_str (feed_end_date row) = Some L ->
  Calendar.add_days F (-1) = inr S ->
  Loader._load_feed_dates from_ymd_str (row :: rest)
  = if Calendar.leb S L then inr (mkRange S L)
    else inl (ValueError range_end_before_start).
Proof.
  intros HF HL HS. unfold Loader._load_feed_dates, Loader.parse_date.
  rewrite HF. simpl. rewrite HS. simpl. rewrite HL. simpl.
  unfold new_BoundedDateRange. rewrite ltb_negb_leb.
  by destruct (Calendar.leb S L).
Qed.

(** C2: when the feed-info row declares the first day [F] and the last
    day [L], and [S] is [F] less one day (its ordinal is one less), reading
    the feed dates returns the range from [S] to [L] provided [S] is not
    after [L]; when it is, the range is refused and no index is built. The
    range from [S] to [L] is the valid operating dates of every index built
    from the archive, and a date is in it exactly when it is neither before
    [S] nor after [L]. For 2025-06-01 and 2025-06-30 the range is
    2025-05-31 to 2025-06-30. *)
Theorem valid_operating_dates_start_one_day_early arch row rest F L S :
  feed_info_txt arch = row :: rest ->
  from_ymd_str (feed_start_date row) = Some F ->
  from_ymd_str (feed_end_date row) = Some L ->
  Calendar.add_days F (-1) = inr S ->
  Calendar.toordinal S = Calendar.toordinal F - 1 /\
  (Calendar.leb S L = true ->
   Loader._load_feed_dates from_ymd_str (feed_info_txt arch) = inr (mkRange S L)) /\
  (Calendar.leb S L = false ->
   Loader._load_feed_dates from_ymd_str (feed_info_txt arch)
   = inl (ValueError range_end_before_start) /\
   Loader.load_from_gtfs from_ymd_str int arch
   = inl (ValueError range_end_before_start)) /\
  (forall sched,
     Loader.load_from_gtfs from_ymd_str int arch = inr sched ->
     Calendar.leb S L = true /\
     valid_operating_dates sched = mkRange S L /\
     forall d, contains (valid_operating_dates sched) d = true <->
               Calendar.leb S d = true /\ Calendar.leb d L = true) /\
  (F = mkDate 2025 6 1 -> L = mkDate 2025 6 30 ->
   mkRange S L = mkRange (mkDate 2025 5 31) (mkDate 2025 6 30)).
Proof.
  intros Hrows HF HL HS.
  pose proof (load_feed_dates_range row rest F L S HF HL HS) as Hfeed.
  rewrite <- Hrows in Hfeed.
  split_and!; [by apply add_days_ordinal in HS| | | |].
  - intros Hle. by rewrite Hfeed, Hle.
  - intros Hle. rewrite Hle in Hfeed. split; [done|].
    unfold Loader.load_from_gtfs. by rewrite Hfeed.
  - intros sched Hload. unfold Loader.load_from_gtfs in Hload.
    rewrite Hfeed in Hload. destruct (Calendar.leb S L); [|discriminate Hload].
    simpl in Hload.
    apply bind_inr in Hload as (services & _ & Hload).
    apply bind_inr in Hload as (loaded & _ & Hload).
    apply bind_inr in Hload as (bo & _ & Hload).
    injection Hload as <-. simpl. split_and!; [done..|].
    intros d. apply (contains_iff (mkRange S L)).
  - intros -> ->. vm_compute in HS. by injection HS as <-.
Qed.

(** *** A malformed trip identifier *)

(** An identifier with the prefix splits into its two digit runs, the
    second taken to its end, and yields the numbers they denote. *)
Lemma extract_ids_of_runs (trip_id : string) :
  Codec.has_schedule_order_prefix trip_id ->
  exists d1 d2 rest,
    Codec.digit_run d1 /\ Codec.digit_run d2 /\ Codec.no_leading_digit rest /\
    trip_id = d1 +:+ "_" +:+ d2 +:+ rest /\
    Codec._extract_schedule_order_ids trip_id
    = Some (int_digits d1, int_digits d2).
Proof.
  intros (d1 & d2 & rest & H1 & [Hne Hd2] & ->).
  destruct (span_digits_spec rest) as (Hrest & Hg & Hr).
  assert (Codec.digit_run (d2 +:+ (span_digits rest).1)) as H2.
  { split; [by destruct d2 | by rewrite all_digits_app, Hd2, Hg]. }
  exists d1, (d2 +:+ (span_digits rest).1), (span_digits rest).2.
  split_and!; [done|done|done| |].
  - by rewrite append_assoc, <- Hrest.
  - rewrite Hrest at 1. rewrite <- (append_assoc d2).
    by apply extract_ids_of_prefix.
Qed.

Lemma extract_ids_prefix_some (trip_id : string) :
  Codec.has_schedule_order_prefix trip_id ->
  is_Some (Codec._extract_schedule_order_ids trip_id).
Proof.
  intros H. apply extract_ids_of_runs in H as (d1 & d2 & rest & _ & _ & _ & _ & H).
  eauto.
Qed.

Lemma load_trips_raises services rows st row :
  row ∈ rows ->
  Codec._extract_schedule_order_ids (row_trip_id row) = None ->
  exists bad,
    bad ∈ rows /\
    Codec._extract_schedule_order_ids (row_trip_id bad) = None /\
    for_each (Loader._load_trips_row services) rows st
    = inl (ValueError (failed_to_extract_ids (row_trip_id bad))).
Proof.
  revert st. induction rows as [|r rows IH]; intros st Hin Hnone.
  - by apply elem_of_nil in Hin.
  - simpl. unfold Loader._load_trips_row at 1.
    destruct (Codec._extract_schedule_order_ids (row_trip_id r))
      as [[sid oid]|] eqn:Hids.
    + apply elem_of_cons in Hin as [->|Hin]; [congruence|].
      simpl. destruct (IH (foldl (Loader.register_trip (row_trip_id r) sid oid) st
                             (default [] (services !! row_service_id r))) Hin Hnone)
        as (bad & Hbad & Hnone' & Hrun).
      exists bad. split_and!; [by right|done|done].
    + exists r. split_and!; [by left|done|done].
Qed.

(** C3: an identifier that begins with a run of digits, an underscore and
    a run of digits yields the two numbers the runs denote (the second run
    read to its end); and when
    a trip row carries an identifier without such a beginning, the build
    raises the [ValueError] of [_load_trips] for an identifier without it
    instead of returning an index. *)
Theorem schedule_order_ids_or_build_fails :
  (forall trip_id,
     Codec.has_schedule_order_prefix trip_id ->
     exists d1 d2 rest,
       Codec.digit_run d1 /\ Codec.digit_run d2 /\ Codec.no_leading_digit rest /\
       trip_id = d1 +:+ "_" +:+ d2 +:+ rest /\
       Codec._extract_schedule_order_ids trip_id
       = Some (int_digits d1, int_digits d2)) /\
  (forall arch range services row,
     Loader._load_feed_dates from_ymd_str (feed_info_txt arch) = inr range ->
     Loader._load_services from_ymd_str (calendar_dates_txt arch) range
     = inr services ->
     row ∈ trips_txt arch ->
     ~ Codec.has_schedule_order_prefix (row_trip_id row) ->
     exists bad,
       bad ∈ trips_txt arch /\
       ~ Codec.has_schedule_order_prefix (row_trip_id bad) /\
       Loader.load_from_gtfs from_ymd_str int arch
       = inl (ValueError (failed_to_extract_ids (row_trip_id bad)))).
Proof.
  split; [apply extract_ids_of_runs|].
  intros arch range services row Hfeed Hserv Hrow Hbad.
  destruct (load_trips_raises services (trips_txt arch) (∅, ∅) row Hrow
              (extract_ids_none _ Hbad)) as (bad & Hin & Hnone & Hrun).
  exists bad. split_and!; [done| |].
  - intros Hprefix. apply extract_ids_prefix_some in Hprefix as [ids Hids].
    congruence.
  - unfold Loader.load_from_gtfs. rewrite Hfeed. simpl. rewrite Hserv. simpl.
    unfold Loader._load_trips. by rewrite Hrun.
Qed.

(** *** Pass 4 *)

(** A trip identifier gets no entry in the reverse index when no trip row
    carries it, or when the services of the rows that do kept no pair. *)
Lemma load_trips_unlisted rows services by_order trip_id_to_keys tid :
  Loader._load_trips rows services = inr (by_order, trip_id_to_keys) ->
  (forall row, row ∈ rows -> row_trip_id row = tid ->
               default [] (services !! row_service_id row) = []) ->
  trip_id_to_keys !! tid = None.
Proof.
  intros Hrun Hrows. unfold Loader._load_trips in Hrun.
  set (P := fun st : gmap OrderKey Trips * gmap string (list TripKeyPair) =>
              st.2 !! tid = None).
  revert Hrun. apply (for_each_inv P); [|done].
  intros st row st' Hrow Hst Hstep. unfold Loader._load_trips_row in Hstep.
  destruct (Codec._extract_schedule_order_ids (row_trip_id row))
    as [[sid oid]|]; [|done].
  injection Hstep as <-.
  destruct (decide (row_trip_id row = tid)) as [Heq|Hne].
  - by rewrite (Hrows row Hrow Heq).
  - apply (foldl_inv P); [|done].
    intros [bo t2k] p _ Hp. unfold P, Loader.register_trip in *. simpl in *.
    destruct (bo !! _); simpl; unfold Loader.setdefault_append;
      by rewrite lookup_insert_ne.
Qed.

(** C10: a stop-time row whose trip identifier has no entry in the reverse
    index leaves the index as it is and raises nothing, whatever its other
    cells hold; the whole pass gives the same result with and without
    the row. *)
Theorem stop_time_of_unlisted_trip_is_skipped trip_id_to_keys row :
  trip_id_to_keys !! st_trip_id row = None ->
  (forall by_order,
     Loader._load_stop_times_row int trip_id_to_keys by_order row = inr by_order) /\
  (forall before after by_order,
     Loader._load_stop_times int (before ++ row :: after) by_order trip_id_to_keys
     = Loader._load_stop_times int (before ++ after) by_order trip_id_to_keys).
Proof.
  intros Hnone.
  assert (Hrow : forall by_order,
    Loader._load_stop_times_row int trip_id_to_keys by_order row = inr by_order).
  { intros by_order. unfold Loader._load_stop_times_row. by rewrite Hnone. }
  split; [done|]. intros before after by_order. unfold Loader._load_stop_times.
  rewrite !for_each_app. destruct (for_each _ before by_order) as [e|bo]; [done|].
  simpl. by rewrite Hrow.
Qed.

(** *** Overwriting in pass 4 *)

Lemma set_stop_time_returns row by_order p :
  is_Some (int (st_stop_sequence row)) -> is_Some (int (st_plk_order row)) ->
  is_Some (by_order !! live p) ->
  exists by_order',
    Loader.set_stop_time int row by_order p = inr by_order' /\
    forall key, is_Some (by_order !! key) -> is_Some (by_order' !! key).
Proof.
  intros [s Hs] [n Hn] [t Ht]. unfold Loader.set_stop_time, Loader.parse_int.
  rewrite Hs, Hn, Ht. simpl. eexists. split; [done|].
  intros key Hkey. destruct (decide (live p = key)) as [<-|].
  - rewrite lookup_insert_eq. eauto.
  - by rewrite lookup_insert_ne.
Qed.

Lemma set_stop_time_writes row by_order p by_order' n s :
  Loader.set_stop_time int row by_order p = inr by_order' ->
  int (st_plk_order row) = Some n -> int (st_stop_sequence row) = Some s ->
  Loader.stored (live p) n (mkStopTime (gtfs p) s (st_stop_id row)) by_order'.
Proof.
  unfold Loader.set_stop_time, Loader.parse_int. intros Hrun Hn Hs.
  rewrite Hs, Hn in Hrun. simpl in Hrun.
  destruct (by_order !! live p) as [t|]; [|done]. injection Hrun as <-.
  eexists. split; [apply lookup_insert_eq|]. simpl. apply lookup_insert_eq.
Qed.

Lemma set_stop_time_keeps row by_order q by_order' key n stop_time :
  Loader.set_stop_time int row by_order q = inr by_order' ->
  (int (st_plk_order row) = Some n -> live q <> key) ->
  Loader.stored key n stop_time by_order ->
  Loader.stored key n stop_time by_order'.
Proof.
  unfold Loader.set_stop_time, Loader.parse_int. intros Hrun Hother (t & Ht & Hn).
  apply bind_inr in Hrun as (s & _ & Hrun).
  apply bind_inr in Hrun as (n' & Hn' & Hrun). apply of_option_inr in Hn'.
  destruct (by_order !! live q) as [t'|] eqn:Hq; [|done]. injection Hrun as <-.
  destruct (decide (live q = key)) as [Heq|Hne].
  - assert (n' <> n) by (intros ->; by apply Hother).
    subst key. rewrite Ht in Hq. injection Hq as <-.
    eexists. split; [apply lookup_insert_eq|]. simpl.
    by rewrite lookup_insert_ne.
  - exists t. by rewrite lookup_insert_ne.
Qed.

Lemma for_each_returns {A S} (P : S -> Prop) (body : S -> A -> result S)
    (xs : list A) :
  (forall s x, x ∈ xs -> P s -> exists s', body s x = inr s' /\ P s') ->
  forall s, P s -> exists s', for_each body xs s = inr s' /\ P s'.
Proof.
  induction xs as [|x xs IH]; intros Hstep s Hs; simpl; [by exists s|].
  destruct (Hstep s x) as (s1 & Hbody & Hs1); [by left|done|].
  rewrite Hbody. simpl. apply IH; [|done].
  intros ? ? ?. apply Hstep. by right.
Qed.

Lemma load_stop_times_returns rows by_order trip_id_to_keys :
  Loader.keys_registered by_order trip_id_to_keys ->
  Loader.cells_parse int rows trip_id_to_keys ->
  exists by_order',
    Loader._load_stop_times int rows by_order trip_id_to_keys = inr by_order' /\
    Loader.keys_registered by_order' trip_id_to_keys.
Proof.
  intros Hkeys Hcells. unfold Loader._load_stop_times.
  apply (for_each_returns (fun bo => Loader.keys_registered bo trip_id_to_keys));
    [|done].
  intros bo row Hrow Hbo. unfold Loader._load_stop_times_row.
  apply (for_each_returns (fun bo => Loader.keys_registered bo trip_id_to_keys));
    [|done].
  intros bo1 q Hq Hbo1.
  destruct (Hcells row Hrow) as [Hs Hn].
  { unfold Loader.row_pairs. intros Hnil. rewrite Hnil in Hq.
    by apply elem_of_nil in Hq. }
  destruct (trip_id_to_keys !! st_trip_id row) as [pairs|] eqn:Hpairs;
    simpl in Hq; [|by apply elem_of_nil in Hq].
  destruct (set_stop_time_returns row bo1 q Hs Hn) as (bo2 & Hrun & Hdom).
  { by eapply Hbo1. }
  exists bo2. split; [done|]. intros tid ps r Hps Hr. apply Hdom. by eapply Hbo1.
Qed.

(** C7: the stop times of one [Trips] are a map from order numbers, so an
    order number has at most one stop time. Provided the pairs of the
    reverse index name keys of the index and the numeric cells of the rows
    are integer literals, the pass returns; and of all the writes under
    one key and one order number, the stop time that is stored at the end
    is that of the last one: the one after which no pair of the same row
    and no later row writes under that key and order number. *)
Theorem last_stop_time_row_wins rows by_order trip_id_to_keys :
  Loader.keys_registered by_order trip_id_to_keys ->
  Loader.cells_parse int rows trip_id_to_keys ->
  exists by_order',
    Loader._load_stop_times int rows by_order trip_id_to_keys = inr by_order' /\
    forall before row after earlier p later n s,
      rows = before ++ row :: after ->
      Loader.row_pairs trip_id_to_keys row = earlier ++ p :: later ->
      int (st_plk_order row) = Some n ->
      int (st_stop_sequence row) = Some s ->
      (forall q, q ∈ later -> live q <> live p) ->
      (forall row' q, row' ∈ after -> q ∈ Loader.row_pairs trip_id_to_keys row' ->
                      int (st_plk_order row') = Some n -> live q <> live p) ->
      Loader.stored (live p) n (mkStopTime (gtfs p) s (st_stop_id row)) by_order'.
Proof.
  intros Hkeys Hcells.
  destruct (load_stop_times_returns rows by_order trip_id_to_keys Hkeys Hcells)
    as (bo' & Hrun & _).
  exists bo'. split; [done|].
  intros before row after earlier p later n s -> Hpairs Hn Hs Hlater Hafter.
  unfold Loader._load_stop_times in Hrun. rewrite for_each_app in Hrun.
  apply bind_inr in Hrun as (bo1 & _ & Hrun). simpl in Hrun.
  apply bind_inr in Hrun as (bo2 & Hrow & Hrest).
  unfold Loader._load_stop_times_row in Hrow.
  fold (Loader.row_pairs trip_id_to_keys row) in Hrow.
  rewrite Hpairs, for_each_app in Hrow.
  apply bind_inr in Hrow as (bo3 & _ & Hrow). simpl in Hrow.
  apply bind_inr in Hrow as (bo4 & Hwrite & Hrow).
  pose proof (set_stop_time_writes _ _ _ _ _ _ Hwrite Hn Hs) as Hstored.
  set (Q := Loader.stored (live p) n (mkStopTime (gtfs p) s (st_stop_id row))) in *.
  assert (Q bo2) as Hbo2.
  { revert Hrow. apply (for_each_inv Q); [|done].
    intros bo q bo5 Hq Hbo Hset. eapply set_stop_time_keeps; [exact Hset| |done].
    intros _. by apply Hlater. }
  revert Hrest. apply (for_each_inv Q); [|done].
  intros bo row' bo5 Hrow' Hbo. unfold Loader._load_stop_times_row.
  fold (Loader.row_pairs trip_id_to_keys row').
  apply (for_each_inv Q); [|done].
  intros bo6 q bo7 Hq Hbo6 Hset. eapply set_stop_time_keeps; [exact Hset| |done].
  intros Hn'. by eapply Hafter.
Qed.

End LoaderProperties.

(** ** Fact containers *)

Lemma max_datetime_instant (a b : datetime) :
  instant (max_datetime a b) = Z.max (instant a) (instant b).
Proof. unfold max_datetime. destruct (Z.ltb_spec (instant a) (instant b)); lia. Qed.

Lemma max_datetime_assoc (a b c : datetime) :
  max_datetime (max_datetime a b) c = max_datetime a (max_datetime b c).
Proof.
  unfold max_datetime.
  destruct (Z.ltb_spec (instant a) (instant b));
    destruct (Z.ltb_spec (instant b) (instant c)); simpl;
    repeat (match goal with
            | |- context [?x <? ?y] => destruct (Z.ltb_spec x y)
            end; simpl); try done; lia.
Qed.

(** C5: the timestamp of a merge is that of one of the two containers and
    its instant is the later of the two, and its facts are those of the
    first followed by those of the second; the two ways of merging three
    containers give the same timestamp and the same facts, in the same
    order and so as multisets. *)
Theorem merge_timestamp_facts_assoc :
  (forall a b,
     instant (timestamp (Realtime.merge a b))
     = Z.max (instant (timestamp a)) (instant (timestamp b)) /\
     (timestamp (Realtime.merge a b) = timestamp a \/
      timestamp (Realtime.merge a b) = timestamp b) /\
     facts (Realtime.merge a b) = facts a ++ facts b) /\
  (forall A B C,
     timestamp (Realtime.merge (Realtime.merge A B) C)
     = timestamp (Realtime.merge A (Realtime.merge B C)) /\
     facts (Realtime.merge (Realtime.merge A B) C)
     = facts (Realtime.merge A (Realtime.merge B C)) /\
     Permutation (facts (Realtime.merge (Realtime.merge A B) C))
                 (facts (Realtime.merge A (Realtime.merge B C)))).
Proof.
  split.
  - intros a b. simpl. split_and!; [apply max_datetime_instant| |done].
    unfold max_datetime. destruct (_ <? _); [by right|by left].
  - intros A B C. simpl. rewrite max_datetime_assoc, <- app_assoc. done.
Qed.

Section RealtimeProperties.

Variable date_fromisoformat : string -> option Date.
Variable datetime_fromisoformat : string -> option datetime.
Variable datetime_isoformat : datetime -> string.
Variable datetime_isoformat_seconds : datetime -> string.
Variable rounded_timestamp : datetime -> Z.

Lemma checked_in_range (lo hi v : Z) :
  lo <= v <= hi -> gtfs_realtime_pb2.checked lo hi v = inr v.
Proof.
  intros Hv. unfold gtfs_realtime_pb2.checked.
  destruct (Z.leb_spec lo v); destruct (Z.leb_spec v hi); simpl; try done; lia.
Qed.

Lemma checked_inr (lo hi v v' : Z) :
  gtfs_realtime_pb2.checked lo hi v = inr v' -> v' = v /\ lo <= v <= hi.
Proof.
  unfold gtfs_realtime_pb2.checked.
  destruct (Z.leb_spec lo v); destruct (Z.leb_spec v hi); simpl; try done.
  intros [= <-]. lia.
Qed.

(** What a stop delay renders to when it renders: the skipped update of a
    cancelled stop whose sequence number fits a uint32. *)
Lemma StopDelay_as_gtfs_rt_inr (s : StopDelay) u :
  Realtime.StopDelay_as_gtfs_rt rounded_timestamp s = inr u <->
  cancelled s = true /\ 0 <= sd_stop_sequence s < 2 ^ 32 /\
  u = gtfs_realtime_pb2.mkStopTimeUpdate (sd_stop_sequence s)
        (Realtime.str (sd_stop_id s)) gtfs_realtime_pb2.SKIPPED None None.
Proof.
  unfold Realtime.StopDelay_as_gtfs_rt, gtfs_realtime_pb2.new_StopTimeUpdate,
    gtfs_realtime_pb2.uint32.
  split.
  - intros H. apply bind_inr in H as (u0 & Hu0 & H).
    apply bind_inr in Hu0 as (seq & Hseq & Hu0). injection Hu0 as <-.
    apply checked_inr in Hseq as [-> Hseq].
    destruct (cancelled s).
    + injection H as <-. split_and!; [done|lia..|done].
    + exfalso. unfold gtfs_realtime_pb2.new_StopTimeEvent in H.
      destruct (gtfs_realtime_pb2.int64 (rounded_timestamp (live_arrival s)));
        simpl in H; [done|].
      destruct (gtfs_realtime_pb2.int32 (if confirmed s then 0 else 1));
        simpl in H; done.
  - intros (Hc & Hseq & ->). rewrite checked_in_range by lia. simpl.
    by rewrite Hc.
Qed.

(** C8: a cancelled stop delay whose sequence number fits its field renders
    as a skipped update with neither event set. A stop delay that is not
    cancelled is not rendered: the code builds the arrival with the live
    instant and with uncertainty 0 or 1, and the assignment of that event to
    the update raises [AttributeError], so the scheduled update with the two
    live instants is never returned. *)
Theorem uncancelled_stop_delay_is_not_rendered (s : StopDelay) :
  (cancelled s = true -> 0 <= sd_stop_sequence s < 2 ^ 32 ->
   Realtime.StopDelay_as_gtfs_rt rounded_timestamp s
   = inr (gtfs_realtime_pb2.mkStopTimeUpdate (sd_stop_sequence s)
            (Realtime.str (sd_stop_id s)) gtfs_realtime_pb2.SKIPPED None None)) /\
  (cancelled s = false ->
   forall u, Realtime.StopDelay_as_gtfs_rt rounded_timestamp s <> inr u) /\
  (cancelled s = false -> 0 <= sd_stop_sequence s < 2 ^ 32 ->
   - 2 ^ 63 <= rounded_timestamp (live_arrival s) < 2 ^ 63 ->
   Realtime.StopDelay_as_gtfs_rt rounded_timestamp s = inl AttributeError).
Proof.
  split_and!.
  - intros Hc Hseq. by apply StopDelay_as_gtfs_rt_inr.
  - intros Hc u Hu. apply StopDelay_as_gtfs_rt_inr in Hu as (Hc' & _).
    congruence.
  - intros Hc Hseq Htime.
    unfold Realtime.StopDelay_as_gtfs_rt, gtfs_realtime_pb2.new_StopTimeUpdate,
      gtfs_realtime_pb2.new_StopTimeEvent, gtfs_realtime_pb2.uint32,
      gtfs_realtime_pb2.int64, gtfs_realtime_pb2.int32.
    rewrite checked_in_range by lia. simpl. rewrite Hc.
    rewrite checked_in_range by lia. simpl.
    rewrite checked_in_range by (destruct (confirmed s); lia). done.
Qed.

(** C9: when the pagination flag of the body is set, fetching the delays
    raises the [ValueError] for an overflowed endpoint and returns no
    container, whatever the rest of the body holds. *)
Theorem paginated_delays_are_rejected (data : DelaysBody) :
  pg_hn data = true ->
  Realtime.fetch_delays date_fromisoformat datetime_fromisoformat data
  = inl (ValueError endpoint_overflowed) /\
  forall c,
    Realtime.fetch_delays date_fromisoformat datetime_fromisoformat data <> inr c.
Proof.
  intros Hflag. unfold Realtime.fetch_delays. rewrite Hflag. by split.
Qed.

(** *** Rendered identifiers *)

Lemma digit_char_inj (n m : Z) :
  Calendar.digit_char n = Calendar.digit_char m -> n mod 10 = m mod 10.
Proof.
  unfold Calendar.digit_char. intros H.
  apply (f_equal N_of_ascii) in H.
  pose proof (Z.mod_pos_bound n 10 ltac:(lia)).
  pose proof (Z.mod_pos_bound m 10 ltac:(lia)).
  rewrite !N_ascii_embedding in H by lia. lia.
Qed.

Lemma fmt_02d_inj (n m : Z) :
  0 <= n < 100 -> 0 <= m < 100 ->
  Calendar.fmt_02d n = Calendar.fmt_02d m -> n = m.
Proof.
  unfold Calendar.fmt_02d. intros Hn Hm [= H1 H0].
  apply digit_char_inj in H1. apply digit_char_inj in H0.
  Z.div_mod_to_equations. lia.
Qed.

Lemma fmt_04d_inj (n m : Z) :
  0 <= n < 10000 -> 0 <= m < 10000 ->
  Calendar.fmt_04d n = Calendar.fmt_04d m -> n = m.
Proof.
  unfold Calendar.fmt_04d. intros Hn Hm [= H3 H2 H1 H0].
  apply digit_char_inj in H3. apply digit_char_inj in H2.
  apply digit_char_inj in H1. apply digit_char_inj in H0.
  Z.div_mod_to_equations. lia.
Qed.

Lemma days_in_month_le (y m : Z) : Calendar._days_in_month y m <= 31.
Proof.
  unfold Calendar._days_in_month, Calendar._DAYS_IN_MONTH.
  destruct ((m =? 2) && Calendar._is_leap y); [lia|].
  repeat (match goal with |- context [match ?x with _ => _ end] => destruct x end);
    lia.
Qed.

Lemma valid_bounds (d : Date) :
  Calendar.valid d ->
  0 <= year d < 10000 /\ 0 <= month d < 100 /\ 0 <= day d < 100.
Proof.
  intros (Hy & Hm & Hd). pose proof (days_in_month_le (year d) (month d)). lia.
Qed.

(** What follows the first ten characters of an ISO date and the date
    itself can be read back from their concatenation. *)
Lemma isoformat_app_inj (d d' : Date) (rest rest' : string) :
  Calendar.valid d -> Calendar.valid d' ->
  Calendar.isoformat d +:+ rest = Calendar.isoformat d' +:+ rest' ->
  d = d' /\ rest = rest'.
Proof.
  intros Hd Hd'. apply valid_bounds in Hd as (Hy & Hm & Hday).
  apply valid_bounds in Hd' as (Hy' & Hm' & Hday').
  destruct d as [y m dd], d' as [y' m' dd']; simpl in *.
  unfold Calendar.isoformat; simpl.
  intros H.
  assert (Calendar.fmt_04d y = Calendar.fmt_04d y' /\
          Calendar.fmt_02d m = Calendar.fmt_02d m' /\
          Calendar.fmt_02d dd = Calendar.fmt_02d dd' /\ rest = rest')
    as (Ey & Em & Ed & Er).
  { unfold Calendar.fmt_04d, Calendar.fmt_02d in *.
    cbv [String.append] in H.
    injection H as ? ? ? ? ? ? ? ? ?.
    split_and!; congruence. }
  apply fmt_04d_inj in Ey; [|done..]. apply fmt_02d_inj in Em; [|done..].
  apply fmt_02d_inj in Ed; [|done..]. by subst.
Qed.

Lemma Alert_id_inj (a a' : Alert) :
  Realtime.Alert_id a = Realtime.Alert_id a' -> alert_id a = alert_id a'.
Proof.
  unfold Realtime.Alert_id, Realtime.str. intros H.
  apply String.app_inj in H. by apply (inj pretty) in H.
Qed.

Lemma TripDelay_id_inj (d d' : TripDelay) :
  Calendar.valid (start_date (delay_trip d)) ->
  Calendar.valid (start_date (delay_trip d')) ->
  Realtime.TripDelay_id d = Realtime.TripDelay_id d' ->
  delay_trip d = delay_trip d'.
Proof.
  unfold Realtime.TripDelay_id, Realtime.str. intros Hv Hv' H.
  apply String.app_inj in H.
  apply isoformat_app_inj in H as [Hdate H]; [|done..].
  apply String.app_inj in H. apply (inj pretty) in H.
  destruct (delay_trip d), (delay_trip d'); simpl in *. by subst.
Qed.

Lemma Alert_id_ne_TripDelay_id (a : Alert) (d : TripDelay) :
  Realtime.Alert_id a <> Realtime.TripDelay_id d.
Proof. unfold Realtime.Alert_id, Realtime.TripDelay_id. by rewrite !append_cons. Qed.

Lemma entity_id_in_alert_ids (fs : list Fact) (a : Alert) :
  Realtime.Alert_id a ∈ map Realtime.Fact_id fs ->
  alert_id a ∈ Realtime.alert_ids fs.
Proof.
  induction fs as [|[a'|d'] fs IH]; simpl; intros H.
  - by apply elem_of_nil in H.
  - apply elem_of_cons in H as [H|H]; [|right; by apply IH].
    apply Alert_id_inj in H. rewrite H. by left.
  - apply elem_of_cons in H as [H|H]; [|by apply IH].
    by apply Alert_id_ne_TripDelay_id in H.
Qed.

Lemma entity_id_in_delay_trips (fs : list Fact) (d : TripDelay) :
  Calendar.valid (start_date (delay_trip d)) ->
  Forall (fun t => Calendar.valid (start_date t)) (Realtime.delay_trips fs) ->
  Realtime.TripDelay_id d ∈ map Realtime.Fact_id fs ->
  delay_trip d ∈ Realtime.delay_trips fs.
Proof.
  intros Hd. induction fs as [|[a'|d'] fs IH]; simpl; intros Hv H.
  - by apply elem_of_nil in H.
  - apply elem_of_cons in H as [H|H]; [|by apply IH].
    symmetry in H. by apply Alert_id_ne_TripDelay_id in H.
  - apply Forall_cons in Hv as [Hv' Hv].
    apply elem_of_cons in H as [H|H]; [|right; by apply IH].
    apply TripDelay_id_inj in H; [|done..]. rewrite H. by left.
Qed.

(** The entity of a fact, when the fact renders, has the identifier of
    the fact. *)
Lemma Fact_as_gtfs_rt_id (f : Fact) (e : gtfs_realtime_pb2.FeedEntity) :
  Realtime.Fact_as_gtfs_rt rounded_timestamp f = inr e ->
  gtfs_realtime_pb2.id e = Realtime.Fact_id f.
Proof.
  destruct f as [a|d]; simpl.
  - unfold Realtime.Alert_as_gtfs_rt. intros H.
    apply bind_inr in H as (h & Hh & _). discriminate Hh.
  - unfold Realtime.TripDelay_as_gtfs_rt. intros H.
    apply bind_inr in H as (us & _ & H). by injection H as <-.
Qed.

Lemma as_gtfs_rt_ids (c : FactContainer) (m : gtfs_realtime_pb2.FeedMessage) :
  Realtime.as_gtfs_rt rounded_timestamp c = inr m ->
  map gtfs_realtime_pb2.id (gtfs_realtime_pb2.entity m) = Realtime.entity_ids c.
Proof.
  unfold Realtime.as_gtfs_rt, Realtime.entity_ids. intros H.
  apply bind_inr in H as (h & _ & H). apply bind_inr in H as (es & Hes & H).
  injection H as <-. simpl. apply comprehension_inr in Hes.
  induction Hes as [|f e fs es Hfe _ IH]; simpl; [done|].
  by rewrite IH, (Fact_as_gtfs_rt_id f e Hfe).
Qed.

(** C6, as the code has it: the identifier of an alert differs from that
    of every trip delay, whatever their numbers; and the identifiers
    rendered for a container are pairwise distinct when no two of its
    alerts share an id and no two of its delays share a trip occurrence.
    The JSON view carries these identifiers, and so do the entities of the
    feed whenever the feed is rendered. *)
Theorem entity_ids_unique_among_distinct_facts (c : FactContainer) :
  NoDup (Realtime.alert_ids (facts c)) ->
  NoDup (Realtime.delay_trips (facts c)) ->
  Forall (fun t => Calendar.valid (start_date t)) (Realtime.delay_trips (facts c)) ->
  (forall a d, Realtime.Alert_id a <> Realtime.TripDelay_id d) /\
  NoDup (Realtime.entity_ids c) /\
  Realtime.json_ids datetime_isoformat c
  = map (fun i => Some (JStr i)) (Realtime.entity_ids c) /\
  (forall m,
     Realtime.as_gtfs_rt rounded_timestamp c = inr m ->
     map gtfs_realtime_pb2.id (gtfs_realtime_pb2.entity m)
     = Realtime.entity_ids c).
Proof.
  intros Ha Hd Hv. split; [apply Alert_id_ne_TripDelay_id|].
  split_and!; [| |apply as_gtfs_rt_ids].
  - unfold Realtime.entity_ids. destruct c as [ts fs]; simpl in *.
    induction fs as [|[a|d] fs IH]; simpl in *; [constructor|..].
    + apply NoDup_cons in Ha as [Hnotin Ha]. constructor; [|by apply IH].
      intros Hin. by apply Hnotin, entity_id_in_alert_ids.
    + apply NoDup_cons in Hd as [Hnotin Hd].
      apply Forall_cons in Hv as [Hvd Hv]. constructor; [|by apply IH].
      intros Hin. by apply Hnotin, entity_id_in_delay_trips.
  - unfold Realtime.entity_ids, Realtime.json_ids.
    rewrite !map_map. apply map_ext. by intros [a|d].
Qed.

End RealtimeProperties.

(** C6, as it is stated, fails: a container that lists one alert twice
    renders the identifier [A_42] twice, as its JSON view shows. *)
Lemma repeated_alert_ids_collide :
  Realtime.entity_ids Sample.repeated_alert = ["A_42"; "A_42"] /\
  Realtime.json_ids (fun _ => "") Sample.repeated_alert
  = [Some (JStr "A_42"); Some (JStr "A_42")] /\
  ~ NoDup (Realtime.entity_ids Sample.repeated_alert).
Proof.
  split_and!; [reflexivity..|]. intros H. apply NoDup_cons in H as [Hnotin _].
  apply Hnotin. by left.
Qed.

(** ** The properties on the sample inputs *)

Example sample_index_key :
  Sample.view (Loader.load_from_gtfs Sample.from_ymd_str Sample.int Sample.archive)
              Sample.key_12345 2
  = inr (Some ([Sample.trip_12345; mkTripDate "12345_6_BUS" (mkDate 2025 6 2)],
               Some (mkStopTime Sample.trip_12345 2 "102"))).
Proof. vm_compute. reflexivity. Qed.

Example sample_index_shifted_key :
  Sample.view (Loader.load_from_gtfs Sample.from_ymd_str Sample.int Sample.archive)
              (mkOrderKey 777 1 (mkDate 2025 5 31)) 1
  = inr (Some ([mkTripDate "777_1" (mkDate 2025 6 1)], None)).
Proof. vm_compute. reflexivity. Qed.

Example sample_index_out_of_range :
  Sample.view (Loader.load_from_gtfs Sample.from_ymd_str Sample.int Sample.archive)
              (mkOrderKey 555 2 (mkDate 2025 7 1)) 1
  = inr None.
Proof. vm_compute. reflexivity. Qed.

Lemma stored_operating_date_is_shifted_start_date_witness :
  exists sched,
    Loader.load_from_gtfs Sample.from_ymd_str Sample.int Sample.archive = inr sched /\
    forall key t,
      by_order sched !! key = Some t ->
      contains (valid_operating_dates sched) (operating_date key) = true /\
      forall td, td ∈ all t ->
        exists row cal,
          row ∈ trips_txt Sample.archive /\
          cal ∈ calendar_dates_txt Sample.archive /\
          row_trip_id row = trip_id td /\
          Codec._extract_schedule_order_ids (trip_id td)
          = Some (schedule_id key, order_id key) /\
          cal_service_id cal = row_service_id row /\
          Sample.from_ymd_str (cal_date cal) = Some (start_date td) /\
          Calendar.add_days (start_date td)
            (- Codec._extract_start_date_offset (row_service_id row))
          = inr (operating_date key) /\
          Calendar.toordinal (operating_date key)
          = Calendar.toordinal (start_date td)
            - Codec._extract_start_date_offset (row_service_id row).
Proof.
  destruct (Loader.load_from_gtfs Sample.from_ymd_str Sample.int Sample.archive)
    as [e|sched] eqn:E.
  - vm_compute in E. discriminate E.
  - exists sched. split; [reflexivity|].
    exact (stored_operating_date_is_shifted_start_date
             Sample.from_ymd_str Sample.int Sample.archive sched E).
Defined.

Lemma valid_operating_dates_start_one_day_early_witness :
  Loader._load_feed_dates Sample.from_ymd_str (feed_info_txt Sample.archive)
  = inr (mkRange (mkDate 2025 5 31) (mkDate 2025 6 30)) /\
  Loader.load_from_gtfs Sample.from_ymd_str Sample.int Sample.reversed_archive
  = inl (ValueError range_end_before_start).
Proof.
  split.
  - exact (proj1 (proj2 (valid_operating_dates_start_one_day_early
                           Sample.from_ymd_str Sample.int Sample.archive
                           (mkFeedInfoRow "20250601" "20250630") []
                           (mkDate 2025 6 1) (mkDate 2025 6 30) (mkDate 2025 5 31)
                           eq_refl eq_refl eq_refl eq_refl))
                 eq_refl).
  - exact (proj2 (proj1 (proj2 (proj2 (valid_operating_dates_start_one_day_early
                           Sample.from_ymd_str Sample.int Sample.reversed_archive
                           (mkFeedInfoRow "20250630" "20250601") []
                           (mkDate 2025 6 30) (mkDate 2025 6 1) (mkDate 2025 6 29)
                           eq_refl eq_refl eq_refl eq_refl)))
                 eq_refl)).
Defined.

Lemma sample_id_without_prefix : ~ Codec.has_schedule_order_prefix "IC_6".
Proof.
  intros H. apply extract_ids_prefix_some in H as [ids H]. discriminate H.
Qed.

Lemma schedule_order_ids_or_build_fails_witness :
  (exists d1 d2 rest,
     Codec.digit_run d1 /\ Codec.digit_run d2 /\ Codec.no_leading_digit rest /\
     "12345_6_BUS" = d1 +:+ "_" +:+ d2 +:+ rest /\
     Codec._extract_schedule_order_ids "12345_6_BUS"
     = Some (int_digits d1, int_digits d2)) /\
  exists bad,
    bad ∈ trips_txt Sample.broken_archive /\
    ~ Codec.has_schedule_order_prefix (row_trip_id bad) /\
    Loader.load_from_gtfs Sample.from_ymd_str Sample.int Sample.broken_archive
    = inl (ValueError (failed_to_extract_ids (row_trip_id bad))).
Proof.
  destruct (schedule_order_ids_or_build_fails Sample.from_ymd_str Sample.int)
    as [Hids Hfail].
  split.
  - apply (Hids "12345_6_BUS"). exists "12345", "6", "_BUS".
    split_and!; done.
  - destruct (Loader._load_services Sample.from_ymd_str
                (calendar_dates_txt Sample.broken_archive)
                (mkRange (mkDate 2025 5 31) (mkDate 2025 6 30)))
      as [e|services] eqn:E.
    + vm_compute in E. discriminate E.
    + apply (Hfail Sample.broken_archive
               (mkRange (mkDate 2025 5 31) (mkDate 2025 6 30)) services
               (mkTripRow "IC_6" "S1")).
      * reflexivity.
      * exact E.
      * right. left.
      * exact sample_id_without_prefix.
Defined.

Lemma entity_ids_unique_among_distinct_facts_witness :
  NoDup (Realtime.entity_ids Sample.alert_and_delay) /\
  Realtime.entity_ids Sample.alert_and_delay = ["A_42"; "D_2025-06-01_42"].
Proof.
  split; [|reflexivity].
  destruct (entity_ids_unique_among_distinct_facts
              (fun _ => "") Sample.rounded_timestamp Sample.alert_and_delay)
    as (_ & Hunique & _).
  - apply NoDup_singleton.
  - apply NoDup_singleton.
  - apply Forall_cons. split; [|by apply Forall_nil].
    unfold Calendar.valid. split_and!; apply Z.leb_le; reflexivity.
  - exact Hunique.
Defined.

Lemma sample_keys_registered :
  Loader.keys_registered Sample.one_trip Sample.one_trip_keys.
Proof.
  intros tid pairs p Hl Hp. unfold Sample.one_trip_keys in Hl.
  apply lookup_singleton_Some in Hl as [_ <-].
  apply list_elem_of_singleton in Hp as ->. simpl.
  unfold Sample.one_trip. rewrite lookup_singleton_eq. eauto.
Defined.

Lemma last_stop_time_row_wins_witness :
  exists by_order',
    Loader._load_stop_times Sample.int
      [mkStopTimeRow "12345_6" "1" "101" "2";
       mkStopTimeRow "999_9" "first" "" "";
       mkStopTimeRow "12345_6" "2" "102" "2"]
      Sample.one_trip Sample.one_trip_keys = inr by_order' /\
    Loader.stored Sample.key_12345 2 (mkStopTime Sample.trip_12345 2 "102") by_order'.
Proof.
  destruct (last_stop_time_row_wins Sample.int
              [mkStopTimeRow "12345_6" "1" "101" "2";
               mkStopTimeRow "999_9" "first" "" "";
               mkStopTimeRow "12345_6" "2" "102" "2"]
              Sample.one_trip Sample.one_trip_keys sample_keys_registered)
    as (bo' & Hrun & Hlast).
  - intros row Hrow Hpairs.
    apply elem_of_cons in Hrow as [->|Hrow]; [split; eexists; reflexivity|].
    apply elem_of_cons in Hrow as [->|Hrow]; [by destruct Hpairs|].
    apply elem_of_cons in Hrow as [->|Hrow]; [split; eexists; reflexivity|].
    by apply elem_of_nil in Hrow.
  - exists bo'. split; [exact Hrun|].
    apply (Hlast [mkStopTimeRow "12345_6" "1" "101" "2";
                  mkStopTimeRow "999_9" "first" "" ""]
                 (mkStopTimeRow "12345_6" "2" "102" "2") []
                 [] (mkTripKeyPair Sample.trip_12345 Sample.key_12345) [] 2 2);
      try reflexivity.
    + intros q Hq. by apply elem_of_nil in Hq.
    + intros row' q Hrow'. by apply elem_of_nil in Hrow'.
Defined.

Lemma paginated_delays_are_rejected_witness :
  Realtime.fetch_delays (fun _ => None) (fun _ => None) Sample.overflowed
  = inl (ValueError endpoint_overflowed).
Proof.
  exact (proj1 (paginated_delays_are_rejected
                  (fun _ => None) (fun _ => None) Sample.overflowed eq_refl)).
Defined.

Lemma uncancelled_stop_delay_is_not_rendered_witness :
  Realtime.StopDelay_as_gtfs_rt Sample.rounded_timestamp
    (mkStopDelay 100 1 false true Sample.noon Sample.noon)
  = inl AttributeError /\
  Realtime.StopDelay_as_gtfs_rt Sample.rounded_timestamp
    (mkStopDelay 200 1 true false Sample.noon Sample.noon)
  = inr (gtfs_realtime_pb2.mkStopTimeUpdate 1 "200"
           gtfs_realtime_pb2.SKIPPED None None).
Proof.
  split.
  - apply (proj2 (proj2 (uncancelled_stop_delay_is_not_rendered
                           Sample.rounded_timestamp
                           (mkStopDelay 100 1 false true Sample.noon Sample.noon)))).
    + reflexivity.
    + split; [apply Z.leb_le|apply Z.ltb_lt]; reflexivity.
    + split; [apply Z.leb_le|apply Z.ltb_lt]; reflexivity.
  - apply (proj1 (uncancelled_stop_delay_is_not_rendered
                    Sample.rounded_timestamp
                    (mkStopDelay 200 1 true false Sample.noon Sample.noon))).
    + reflexivity.
    + split; [apply Z.leb_le|apply Z.ltb_lt]; reflexivity.
Defined.

Lemma stop_time_of_unlisted_trip_is_skipped_witness :
  Loader._load_stop_times_row Sample.int Sample.one_trip_keys Sample.one_trip
    (mkStopTimeRow "999_9" "first" "" "")
  = inr Sample.one_trip.
Proof.
  exact (proj1 (stop_time_of_unlisted_trip_is_skipped
                  Sample.int Sample.one_trip_keys
                  (mkStopTimeRow "999_9" "first" "" "") eq_refl)
               Sample.one_trip).
Defined.

Example two_orders_ids_collide :
  Realtime.entity_ids Sample.two_orders
  = ["D_2025-06-01_42"; "D_2025-06-01_42"] /\
  Realtime.json_ids (fun _ => "") Sample.two_orders
  = [Some (JStr "D_2025-06-01_42"); Some (JStr "D_2025-06-01_42")].
Proof. split; reflexivity. Qed.

(** * Further properties *)

(** ** What the index holds *)

Lemma for_each_grows {A S} (P : S -> Prop) (body : S -> A -> result S)
    (xs : list A) :
  (forall s x s', P s -> body s x = inr s' -> P s') ->
  forall s s', P s -> for_each body xs s = inr s' -> P s'.
Proof. intros Hstep. apply for_each_inv. intros s x s' _. apply Hstep. Qed.

(** An exception of a loop is the exception of one of its iterations, run
    from a state that the iterations before it led to. *)
Lemma for_each_raises {A S} (P : S -> Prop) (body : S -> A -> result S)
    (xs : list A) (s : S) (e : exn) :
  (forall s x s', x ∈ xs -> P s -> body s x = inr s' -> P s') ->
  P s -> for_each body xs s = inl e ->
  exists s1 x, P s1 /\ x ∈ xs /\ body s1 x = inl e.
Proof.
  revert s. induction xs as [|x xs IH]; intros s Hstep Hs; simpl; [done|].
  destruct (body s x) as [e'|s'] eqn:Hbody; simpl.
  - intros [= <-]. exists s, x. split_and!; [done|by left|done].
  - intros Hrest. destruct (IH s') as (s1 & y & Hs1 & Hy & Hraise); [..|done|].
    + intros ? ? ? ?. apply Hstep. by right.
    + eapply Hstep; [by left|done|done].
    + exists s1, y. split_and!; [done|by right|done].
Qed.

Lemma foldl_grows {A S} (P : S -> Prop) (f : S -> A -> S) (xs : list A) :
  (forall s x, P s -> P (f s x)) -> forall s, P s -> P (foldl f s xs).
Proof. intros Hstep. apply foldl_inv. intros s x _. apply Hstep. Qed.

Section IndexProperties.

Variable from_ymd_str : string -> option Date.
Variable int : string -> option Z.

(** *** Nothing that is in range is lost *)

Lemma load_services_row_keeps range s row s' sid pairs p :
  Loader._load_services_row from_ymd_str range s row = inr s' ->
  s !! sid = Some pairs -> p ∈ pairs ->
  exists pairs', s' !! sid = Some pairs' /\ p ∈ pairs'.
Proof.
  unfold Loader._load_services_row. intros Hrow Hs Hp.
  apply bind_inr in Hrow as (start & _ & Hrow).
  apply bind_inr in Hrow as (op & _ & Hrow).
  destruct (contains range op); injection Hrow as <-; [|by exists pairs].
  unfold Loader.setdefault_append.
  destruct (decide (cal_service_id row = sid)) as [->|Hne].
  - rewrite lookup_insert_eq, Hs. simpl. eexists. split; [done|].
    apply elem_of_app. by left.
  - rewrite lookup_insert_ne by done. by exists pairs.
Qed.

Lemma load_services_complete rows range services row start op :
  Loader._load_services from_ymd_str rows range = inr services ->
  row ∈ rows ->
  from_ymd_str (cal_date row) = Some start ->
  Calendar.add_days start (- Codec._extract_start_date_offset (cal_service_id row))
  = inr op ->
  contains range op = true ->
  exists pairs,
    services !! cal_service_id row = Some pairs /\ mkDatePair op start ∈ pairs.
Proof.
  unfold Loader._load_services. intros Hrun Hrow Hstart Hop Hrange.
  apply list_elem_of_split in Hrow as (before & after & ->).
  rewrite for_each_app in Hrun. apply bind_inr in Hrun as (s1 & _ & Hrun).
  simpl in Hrun. apply bind_inr in Hrun as (s2 & Hstep & Hrun).
  revert Hrun.
  apply (for_each_grows
           (fun s => exists pairs,
              s !! cal_service_id row = Some pairs /\ mkDatePair op start ∈ pairs)).
  - intros s r s' (pairs & Hs & Hp) Hr. by eapply load_services_row_keeps.
  - unfold Loader._load_services_row, Loader.parse_date in Hstep.
    rewrite Hstart in Hstep. simpl in Hstep. rewrite Hop in Hstep. simpl in Hstep.
    rewrite Hrange in Hstep. injection Hstep as <-.
    unfold Loader.setdefault_append. rewrite lookup_insert_eq.
    eexists. split; [done|]. apply elem_of_app. right. by left.
Qed.

Lemma register_trip_keeps tid sid oid st p key td :
  Index.registered st key td ->
  Index.registered (Loader.register_trip tid sid oid st p) key td.
Proof.
  destruct st as [bo t2k]. intros [(t & Ht & Htd) (ps & Hps & Hp)].
  unfold Loader.register_trip. simpl in *.
  set (key' := mkOrderKey sid oid (pair_operating_date p)).
  set (td' := mkTripDate tid (pair_start_date p)).
  assert (exists ps', Loader.setdefault_append tid (mkTripKeyPair td' key') t2k
                        !! trip_id td = Some ps' /\ mkTripKeyPair td key ∈ ps')
    as Hrev.
  { unfold Loader.setdefault_append.
    destruct (decide (tid = trip_id td)) as [->|Hne].
    - rewrite lookup_insert_eq, Hps. simpl. eexists. split; [done|].
      apply elem_of_app. by left.
    - rewrite lookup_insert_ne by done. by exists ps. }
  destruct (bo !! key') as [t'|] eqn:Hkey'; (split; [simpl|exact Hrev]).
  - destruct (decide (key' = key)) as [Heq|Hne].
    + rewrite Heq, lookup_insert_eq. eexists. split; [done|]. simpl.
      rewrite Heq, Ht in Hkey'. injection Hkey' as <-.
      apply elem_of_app. by left.
    + rewrite lookup_insert_ne by done. by exists t.
  - destruct (decide (key' = key)) as [Heq|Hne]; [congruence|].
    rewrite lookup_insert_ne by done. by exists t.
Qed.

Lemma register_trip_registers tid sid oid st p :
  Index.registered (Loader.register_trip tid sid oid st p)
    (mkOrderKey sid oid (pair_operating_date p))
    (mkTripDate tid (pair_start_date p)).
Proof.
  destruct st as [bo t2k]. unfold Loader.register_trip.
  set (key := mkOrderKey sid oid (pair_operating_date p)).
  set (td := mkTripDate tid (pair_start_date p)).
  assert (exists ps, Loader.setdefault_append tid (mkTripKeyPair td key) t2k
                       !! trip_id td = Some ps /\ mkTripKeyPair td key ∈ ps)
    as Hrev.
  { unfold Loader.setdefault_append. simpl. rewrite lookup_insert_eq.
    eexists. split; [done|]. apply elem_of_app. right. by left. }
  destruct (bo !! key) as [t|] eqn:Hkey; (split; [simpl|exact Hrev]);
    rewrite lookup_insert_eq; eexists; (split; [done|]); simpl.
  - apply elem_of_app. right. by left.
  - by left.
Qed.

Lemma load_trips_complete rows services by_order trip_id_to_keys row pairs p sid oid :
  Loader._load_trips rows services = inr (by_order, trip_id_to_keys) ->
  row ∈ rows ->
  services !! row_service_id row = Some pairs -> p ∈ pairs ->
  Codec._extract_schedule_order_ids (row_trip_id row) = Some (sid, oid) ->
  Index.registered (by_order, trip_id_to_keys)
    (mkOrderKey sid oid (pair_operating_date p))
    (mkTripDate (row_trip_id row) (pair_start_date p)).
Proof.
  unfold Loader._load_trips. intros Hrun Hrow Hpairs Hp Hids.
  set (key := mkOrderKey sid oid (pair_operating_date p)).
  set (td := mkTripDate (row_trip_id row) (pair_start_date p)).
  assert (Hrow_keeps : forall st r st',
    Index.registered st key td ->
    Loader._load_trips_row services st r = inr st' ->
    Index.registered st' key td).
  { intros st r st' Hst Hr. unfold Loader._load_trips_row in Hr.
    destruct (Codec._extract_schedule_order_ids (row_trip_id r))
      as [[s o]|]; [|done].
    injection Hr as <-. apply (foldl_grows (fun st => Index.registered st key td));
      [|done].
    intros st1 q. apply register_trip_keeps. }
  apply list_elem_of_split in Hrow as (before & after & ->).
  rewrite for_each_app in Hrun. apply bind_inr in Hrun as (st1 & _ & Hrun).
  simpl in Hrun. apply bind_inr in Hrun as (st2 & Hstep & Hrun).
  revert Hrun.
  apply (for_each_grows (fun st => Index.registered st key td)); [done|].
  unfold Loader._load_trips_row in Hstep. rewrite Hids, Hpairs in Hstep.
  simpl in Hstep. injection Hstep as <-.
  apply list_elem_of_split in Hp as (ps1 & ps2 & ->).
  rewrite foldl_app. simpl.
  apply (foldl_grows (fun st => Index.registered st key td)).
  - intros st3 q. apply register_trip_keeps.
  - apply register_trip_registers.
Qed.

(** X1: in a built index, every occurrence that the tables describe and
    whose operating date is valid is stored: for a trip row and a calendar
    row of its service, the start date of the calendar row is listed under
    the key made of the two numbers of the trip identifier and of the
    start date less the day shift. *)
Theorem active_occurrences_are_stored arch sched row cal start op :
  Loader.load_from_gtfs from_ymd_str int arch = inr sched ->
  row ∈ trips_txt arch -> cal ∈ calendar_dates_txt arch ->
  cal_service_id cal = row_service_id row ->
  from_ymd_str (cal_date cal) = Some start ->
  Calendar.add_days start
    (- Codec._extract_start_date_offset (row_service_id row)) = inr op ->
  contains (valid_operating_dates sched) op = true ->
  exists sid oid t,
    Codec._extract_schedule_order_ids (row_trip_id row) = Some (sid, oid) /\
    by_order sched !! mkOrderKey sid oid op = Some t /\
    mkTripDate (row_trip_id row) start ∈ all t.
Proof.
  unfold Loader.load_from_gtfs. intros Hload Hrow Hcal Hsid Hstart Hop Hin.
  apply bind_inr in Hload as (range & _ & Hload).
  apply bind_inr in Hload as (services & Hserv & Hload).
  apply bind_inr in Hload as ([bo t2k] & Htrips & Hload).
  apply bind_inr in Hload as (bo' & Hstops & Hload).
  injection Hload as <-. simpl in *.
  rewrite <- Hsid in Hop.
  destruct (load_services_complete _ _ _ _ _ _ Hserv Hcal Hstart Hop Hin)
    as (pairs & Hpairs & Hp).
  rewrite Hsid in Hpairs.
  destruct (Codec._extract_schedule_order_ids (row_trip_id row))
    as [[sid oid]|] eqn:Hids.
  - destruct (load_trips_complete _ _ _ _ _ _ _ _ _ Htrips Hrow Hpairs Hp Hids)
      as [(t & Ht & Htd) _]. simpl in *.
    pose proof (load_stop_times_all int _ _ _ _ Hstops
                  (mkOrderKey sid oid op)) as Hall.
    rewrite Ht in Hall. simpl in Hall.
    destruct (bo' !! mkOrderKey sid oid op) as [t'|] eqn:Ht'; [|done].
    simpl in Hall. injection Hall as Hall. exists sid, oid, t'.
    split_and!; [done|done|by rewrite Hall].
  - exfalso. unfold Loader._load_trips in Htrips.
    destruct (load_trips_raises services (trips_txt arch) (∅, ∅) row Hrow Hids)
      as (bad & _ & _ & Hraise).
    congruence.
Qed.

(** *** Dates out of range *)

(** X2: a calendar row whose operating date is not among the valid
    operating dates leaves the services as they are, and the pass gives
    the same result with and without the row. *)
Theorem out_of_range_date_is_dropped range row start op :
  from_ymd_str (cal_date row) = Some start ->
  Calendar.add_days start
    (- Codec._extract_start_date_offset (cal_service_id row)) = inr op ->
  contains range op = false ->
  (forall services,
     Loader._load_services_row from_ymd_str range services row = inr services) /\
  (forall before after,
     Loader._load_services from_ymd_str (before ++ row :: after) range
     = Loader._load_services from_ymd_str (before ++ after) range).
Proof.
  intros Hstart Hop Hout.
  assert (Hrow : forall services,
    Loader._load_services_row from_ymd_str range services row = inr services).
  { intros services. unfold Loader._load_services_row, Loader.parse_date.
    rewrite Hstart. simpl. rewrite Hop. simpl. by rewrite Hout. }
  split; [done|]. intros before after. unfold Loader._load_services.
  rewrite !for_each_app. destruct (for_each _ before ∅) as [e|s]; [done|].
  simpl. by rewrite Hrow.
Qed.

(** *** Where an exception of the build comes from *)

Lemma load_feed_dates_raises f e :
  Loader._load_feed_dates from_ymd_str f = inl e ->
  match e with
  | StopIteration => f = []
  | ValueError (invalid_date text) =>
      from_ymd_str text = None /\
      exists row, row ∈ f /\ (text = feed_start_date row \/ text = feed_end_date row)
  | ValueError range_end_before_start =>
      exists row rest F L S,
        f = row :: rest /\
        from_ymd_str (feed_start_date row) = Some F /\
        from_ymd_str (feed_end_date row) = Some L /\
        Calendar.add_days F (-1) = inr S /\ Calendar.leb S L = false
  | OverflowError => True
  | _ => False
  end.
Proof.
  destruct f as [|row f]; simpl; [by intros [= <-]|].
  unfold Loader.parse_date.
  destruct (from_ymd_str (feed_start_date row)) as [F|] eqn:HF; simpl.
  - destruct (Calendar.add_days F (-1)) as [e1|S] eqn:HS; simpl.
    { unfold Calendar.add_days, ret, raise in HS.
      destruct (_ && _); [done|]. injection HS as <-. by intros [= <-]. }
    destruct (from_ymd_str (feed_end_date row)) as [L|] eqn:HL; simpl.
    + unfold new_BoundedDateRange. rewrite ltb_negb_leb.
      destruct (Calendar.leb S L) eqn:Hle; simpl; [done|].
      intros [= <-]. by exists row, f, F, L, S.
    + intros [= <-]. split; [done|]. exists row. split; [by left|by right].
  - intros [= <-]. split; [done|]. exists row. split; [by left|by left].
Qed.

Lemma load_services_raises rows range e :
  Loader._load_services from_ymd_str rows range = inl e ->
  match e with
  | ValueError (invalid_date text) =>
      from_ymd_str text = None /\ exists row, row ∈ rows /\ text = cal_date row
  | OverflowError => True
  | _ => False
  end.
Proof.
  unfold Loader._load_services. intros Hrun.
  apply (for_each_raises (fun _ => True)) in Hrun as (s & row & _ & Hrow & Hraise);
    [|done..].
  unfold Loader._load_services_row, Loader.parse_date in Hraise.
  destruct (from_ymd_str (cal_date row)) as [start|] eqn:Hstart; simpl in Hraise.
  - unfold Calendar.add_days, ret, raise in Hraise.
    destruct (_ && _); simpl in Hraise; [|by injection Hraise as <-].
    by destruct (contains _ _).
  - injection Hraise as <-. split; [done|]. by exists row.
Qed.

Lemma load_trips_raises_cause rows services e :
  Loader._load_trips rows services = inl e ->
  exists row,
    row ∈ rows /\
    Codec._extract_schedule_order_ids (row_trip_id row) = None /\
    e = ValueError (failed_to_extract_ids (row_trip_id row)).
Proof.
  unfold Loader._load_trips. intros Hrun.
  apply (for_each_raises (fun _ => True)) in Hrun as (s & row & _ & Hrow & Hraise);
    [|done..].
  unfold Loader._load_trips_row in Hraise.
  destruct (Codec._extract_schedule_order_ids (row_trip_id row))
    as [[sid oid]|] eqn:Hids; [done|].
  injection Hraise as <-. by exists row.
Qed.

Lemma set_stop_time_keys row by_order p by_order' trip_id_to_keys :
  Loader.set_stop_time int row by_order p = inr by_order' ->
  Loader.keys_registered by_order trip_id_to_keys ->
  Loader.keys_registered by_order' trip_id_to_keys.
Proof.
  intros Hset Hkeys tid ps q Hps Hq.
  pose proof (set_stop_time_all int _ _ _ _ Hset (live q)) as Hall.
  destruct (Hkeys tid ps q Hps Hq) as [t Ht]. rewrite Ht in Hall.
  destruct (by_order' !! live q); [eauto|done].
Qed.

Lemma load_stop_times_raises rows by_order trip_id_to_keys e :
  Loader.keys_registered by_order trip_id_to_keys ->
  Loader._load_stop_times int rows by_order trip_id_to_keys = inl e ->
  exists row text,
    row ∈ rows /\ Loader.row_pairs trip_id_to_keys row <> [] /\
    (text = st_stop_sequence row \/ text = st_plk_order row) /\
    int text = None /\ e = ValueError (invalid_int_literal text).
Proof.
  unfold Loader._load_stop_times. intros Hkeys Hrun.
  apply (for_each_raises (fun bo => Loader.keys_registered bo trip_id_to_keys))
    in Hrun as (bo & row & Hbo & Hrow & Hraise); [|clear Hrun|done].
  - unfold Loader._load_stop_times_row in Hraise.
    fold (Loader.row_pairs trip_id_to_keys row) in Hraise.
    apply (for_each_raises (fun bo => Loader.keys_registered bo trip_id_to_keys))
      in Hraise as (bo1 & p & Hbo1 & Hp & Hraise); [| |done].
    + exists row.
      assert (Loader.row_pairs trip_id_to_keys row <> []) as Hne
        by (intros Hnil; rewrite Hnil in Hp; by apply elem_of_nil in Hp).
      unfold Loader.set_stop_time, Loader.parse_int in Hraise.
      destruct (int (st_stop_sequence row)) as [s|] eqn:Hs; simpl in Hraise.
      * destruct (int (st_plk_order row)) as [n|] eqn:Hn; simpl in Hraise.
        -- exfalso. unfold Loader.row_pairs in Hp.
           destruct (trip_id_to_keys !! st_trip_id row) as [ps|] eqn:Hps;
             simpl in Hp; [|by apply elem_of_nil in Hp].
           destruct (Hbo1 _ _ _ Hps Hp) as [t Ht]. by rewrite Ht in Hraise.
        -- injection Hraise as <-. exists (st_plk_order row).
           split_and!; [done|done|by right|done|done].
      * injection Hraise as <-. exists (st_stop_sequence row).
        split_and!; [done|done|by left|done|done].
    + intros bo1 p bo2 _ Hbo1 Hset. by eapply set_stop_time_keys.
  - intros bo row bo' _ Hbo. unfold Loader._load_stop_times_row.
    apply (for_each_inv (fun bo => Loader.keys_registered bo trip_id_to_keys));
      [|done].
    intros bo1 p bo2 _ Hbo1 Hset. by eapply set_stop_time_keys.
Qed.

(** X3: what an error of the build tells about the archive, for an
    archive that has the four tables with their columns. [StopIteration]
    means that the feed-info table has no row; a date error names a date
    cell of the feed-info or of the calendar table that does not parse; the
    error for a range means that the last day of the first feed-info row is
    before the day preceding its first day; the error for a trip identifier
    names the identifier of a trip row that lacks the two numbers; and the
    error for an integer names the stop-sequence or order cell of a
    stop-time row. Nothing is said of any other exception. *)
Theorem build_error_names_its_cell arch e :
  Loader.load_from_gtfs from_ymd_str int arch = inl e ->
  match e with
  | StopIteration => feed_info_txt arch = []
  | ValueError (invalid_date text) =>
      from_ymd_str text = None /\
      ((exists row, row ∈ feed_info_txt arch /\
                    (text = feed_start_date row \/ text = feed_end_date row)) \/
       (exists row, row ∈ calendar_dates_txt arch /\ text = cal_date row))
  | ValueError range_end_before_start =>
      exists row rest F L S,
        feed_info_txt arch = row :: rest /\
        from_ymd_str (feed_start_date row) = Some F /\
        from_ymd_str (feed_end_date row) = Some L /\
        Calendar.add_days F (-1) = inr S /\ Calendar.leb S L = false
  | ValueError (failed_to_extract_ids tid) =>
      exists row, row ∈ trips_txt arch /\ row_trip_id row = tid /\
                  ~ Codec.has_schedule_order_prefix tid
  | ValueError (invalid_int_literal text) =>
      int text = None /\
      exists row, row ∈ stop_times_txt arch /\
                  (text = st_stop_sequence row \/ text = st_plk_order row)
  | _ => True
  end.
Proof.
  unfold Loader.load_from_gtfs. intros Hload.
  destruct (Loader._load_feed_dates from_ymd_str (feed_info_txt arch))
    as [e1|range] eqn:H1; simpl in Hload.
  { injection Hload as <-. apply load_feed_dates_raises in H1.
    destruct e1 as [|[]| | | |]; try done.
    destruct H1 as [Hnone Hcell]. split; [done|by left]. }
  destruct (Loader._load_services from_ymd_str (calendar_dates_txt arch) range)
    as [e2|services] eqn:H2; simpl in Hload.
  { injection Hload as <-. apply load_services_raises in H2.
    destruct e2 as [|[]| | | |]; try done.
    destruct H2 as [Hnone Hcell]. split; [done|by right]. }
  destruct (Loader._load_trips (trips_txt arch) services)
    as [e3|[bo t2k]] eqn:H3; simpl in Hload.
  { injection Hload as <-.
    apply load_trips_raises_cause in H3 as (row & Hrow & Hids & ->).
    exists row. split_and!; [done|done|].
    intros Hprefix. apply extract_ids_prefix_some in Hprefix as [ids Hsome].
    congruence. }
  apply load_trips_justified in H3 as [_ Hkeys].
  destruct (Loader._load_stop_times int (stop_times_txt arch) bo t2k)
    as [e4|bo'] eqn:H4; simpl in Hload; [|done].
  injection Hload as <-.
  apply load_stop_times_raises in H4 as (row & text & Hrow & _ & Hcell & Hnone & ->);
    [|done].
  split; [done|]. by exists row.
Qed.

(** *** Where a stored stop time comes from *)

Lemma register_trip_sound tid sid oid st p :
  Index.reverse_index_sound st ->
  (forall key t, st.1 !! key = Some t -> by_order_number t = ∅) ->
  Index.reverse_index_sound (Loader.register_trip tid sid oid st p) /\
  (forall key t,
     (Loader.register_trip tid sid oid st p).1 !! key = Some t ->
     by_order_number t = ∅).
Proof.
  destruct st as [bo t2k]. intros Hsound Hempty. simpl in Hempty.
  pose proof (register_trip_registers tid sid oid (bo, t2k) p) as [Hnew _].
  assert (Hkeep : forall k t x, bo !! k = Some t -> x ∈ all t ->
    exists t', (Loader.register_trip tid sid oid (bo, t2k) p).1 !! k = Some t' /\
               x ∈ all t').
  { intros k t x Hk Hx. unfold Loader.register_trip.
    set (key := mkOrderKey sid oid (pair_operating_date p)).
    destruct (bo !! key) as [t0|] eqn:Hkey; simpl;
      (destruct (decide (key = k)) as [Heq|Hne];
       [|rewrite lookup_insert_ne by done; by exists t]).
    - rewrite Heq, lookup_insert_eq. eexists. split; [done|]. simpl.
      rewrite Heq, Hk in Hkey. injection Hkey as <-. apply elem_of_app. by left.
    - congruence. }
  split.
  - intros tid' ps q Hps Hq.
    assert ((Loader.register_trip tid sid oid (bo, t2k) p).2
            = Loader.setdefault_append tid
                (mkTripKeyPair (mkTripDate tid (pair_start_date p))
                   (mkOrderKey sid oid (pair_operating_date p))) t2k) as Eq2.
    { unfold Loader.register_trip. by destruct (bo !! _). }
    rewrite Eq2 in Hps. unfold Loader.setdefault_append in Hps.
    destruct (decide (tid = tid')) as [<-|Hne].
    + rewrite lookup_insert_eq in Hps. injection Hps as <-.
      apply elem_of_app in Hq as [Hq|Hq].
      * destruct (t2k !! tid) as [old|] eqn:Hold; simpl in Hq;
          [|by apply elem_of_nil in Hq].
        destruct (Hsound tid old q Hold Hq) as (Htid & t & Ht & Hin).
        split; [done|]. by eapply Hkeep.
      * apply list_elem_of_singleton in Hq as ->. simpl. split; [done|].
        exact Hnew.
    + rewrite lookup_insert_ne in Hps by done.
      destruct (Hsound tid' ps q Hps Hq) as (Htid & t & Ht & Hin).
      split; [done|]. by eapply Hkeep.
  - intros k t. unfold Loader.register_trip.
    set (key := mkOrderKey sid oid (pair_operating_date p)).
    destruct (bo !! key) as [t0|] eqn:Hkey; simpl;
      (destruct (decide (key = k)) as [<-|Hne];
       [rewrite lookup_insert_eq; intros [= <-]; simpl
       |rewrite lookup_insert_ne by done; apply Hempty]).
    + by eapply Hempty.
    + done.
Qed.

Lemma load_trips_sound rows services by_order trip_id_to_keys :
  Loader._load_trips rows services = inr (by_order, trip_id_to_keys) ->
  Index.reverse_index_sound (by_order, trip_id_to_keys) /\
  (forall key t, by_order !! key = Some t -> by_order_number t = ∅).
Proof.
  unfold Loader._load_trips.
  set (P := fun st : gmap OrderKey Trips * gmap string (list TripKeyPair) =>
              Index.reverse_index_sound st /\
              (forall key t, st.1 !! key = Some t -> by_order_number t = ∅)).
  apply (for_each_grows P).
  - intros st row st' Hst Hrow. unfold Loader._load_trips_row in Hrow.
    destruct (Codec._extract_schedule_order_ids (row_trip_id row))
      as [[sid oid]|]; [|done].
    injection Hrow as <-. apply (foldl_grows P); [|done].
    intros st1 p [H1 H2]. by apply register_trip_sound.
  - split.
    + intros tid ps p Hps. simpl in Hps. by rewrite lookup_empty in Hps.
    + intros key t Ht. simpl in Ht. by rewrite lookup_empty in Ht.
Qed.

Lemma set_stop_time_sound rows trip_id_to_keys row by_order p by_order' :
  row ∈ rows -> p ∈ Loader.row_pairs trip_id_to_keys row ->
  Index.reverse_index_sound (by_order, trip_id_to_keys) ->
  Index.stop_times_sound int rows by_order ->
  Loader.set_stop_time int row by_order p = inr by_order' ->
  Index.reverse_index_sound (by_order', trip_id_to_keys) /\
  Index.stop_times_sound int rows by_order'.
Proof.
  intros Hrow Hp Hsound Hstops Hset. split.
  - intros tid ps q Hps Hq. simpl in *.
    destruct (Hsound tid ps q Hps Hq) as (Htid & t & Ht & Hin). split; [done|].
    pose proof (set_stop_time_all int _ _ _ _ Hset (live q)) as Hall.
    simpl in Ht. rewrite Ht in Hall.
    destruct (by_order' !! live q) as [t'|]; [|done].
    simpl in Hall. injection Hall as Hall. exists t'. by rewrite Hall.
  - unfold Loader.row_pairs in Hp.
    destruct (trip_id_to_keys !! st_trip_id row) as [ps|] eqn:Hps; simpl in Hp;
      [|by apply elem_of_nil in Hp].
    destruct (Hsound _ _ _ Hps Hp) as (Htid & t0 & Ht0 & Hin0). simpl in Ht0.
    unfold Loader.set_stop_time, Loader.parse_int in Hset.
    apply bind_inr in Hset as (s & Hs & Hset). apply of_option_inr in Hs.
    apply bind_inr in Hset as (n & Hn & Hset). apply of_option_inr in Hn.
    rewrite Ht0 in Hset. injection Hset as <-.
    intros key t n' stop_time Hkey Hlook.
    destruct (decide (live p = key)) as [<-|Hne].
    + rewrite lookup_insert_eq in Hkey. injection Hkey as <-. simpl in *.
      destruct (decide (n = n')) as [<-|Hn'].
      * rewrite lookup_insert_eq in Hlook. injection Hlook as <-. simpl.
        split; [done|]. exists row. by split_and!.
      * rewrite lookup_insert_ne in Hlook by done. by eapply Hstops.
    + rewrite lookup_insert_ne in Hkey by done. by eapply Hstops.
Qed.

(** X4: in a built index, every stop time stored under a key belongs to
    an occurrence listed under that key, and was read from a stop-time row
    of that trip: the order number, the stop sequence and the stop are
    those of the row. *)
Theorem stored_stop_times_belong_to_their_key arch sched key t n stop_time :
  Loader.load_from_gtfs from_ymd_str int arch = inr sched ->
  by_order sched !! key = Some t ->
  by_order_number t !! n = Some stop_time ->
  trip stop_time ∈ all t /\
  exists row,
    row ∈ stop_times_txt arch /\
    st_trip_id row = trip_id (trip stop_time) /\
    int (st_plk_order row) = Some n /\
    int (st_stop_sequence row) = Some (stop_sequence stop_time) /\
    st_stop_id row = stop_id stop_time.
Proof.
  unfold Loader.load_from_gtfs. intros Hload Hkey Hn.
  apply bind_inr in Hload as (range & _ & Hload).
  apply bind_inr in Hload as (services & _ & Hload).
  apply bind_inr in Hload as ([bo t2k] & Htrips & Hload).
  apply bind_inr in Hload as (bo' & Hstops & Hload).
  injection Hload as <-. simpl in *.
  apply load_trips_sound in Htrips as [Hsound Hempty].
  set (Q := fun b : gmap OrderKey Trips =>
              Index.reverse_index_sound (b, t2k) /\
              Index.stop_times_sound int (stop_times_txt arch) b).
  assert (Q bo') as [_ Hfinal].
  { revert Hstops. unfold Loader._load_stop_times. apply (for_each_inv Q).
    - intros b row b' Hrow Hb. unfold Loader._load_stop_times_row.
      fold (Loader.row_pairs t2k row). apply (for_each_inv Q); [|done].
      intros b1 p b2 Hp [H1 H2] Hset. by eapply set_stop_time_sound.
    - split; [done|]. intros k t0 n0 st0 Hk Hl.
      rewrite (Hempty k t0 Hk) in Hl. by rewrite lookup_empty in Hl. }
  exact (Hfinal key t n stop_time Hkey Hn).
Qed.

End IndexProperties.

(** ** The codec on the identifiers the feed carries *)

(** X5: for an identifier that does not end with a line feed, the day
    shift is the signed number of the final sign-digits-[D] group, whatever
    precedes the group, a minus sign negating the number; and it is 0 when
    the identifier has no such ending. *)
Theorem offset_of_identifier_without_line_feed (service_id : string) :
  (forall s, service_id <> s +:+ Codec.line_feed) ->
  (forall front sign ds,
     Codec.is_sign sign = true -> Codec.digit_run ds ->
     service_id = front +:+ String sign ds +:+ "D" ->
     Codec._extract_start_date_offset service_id
     = if Ascii.eqb sign "-" then - int_digits ds else int_digits ds) /\
  (~ Codec.has_offset_suffix service_id ->
   Codec._extract_start_date_offset service_id = 0).
Proof.
  intros Hlf. split.
  - intros front sign ds Hsign Hds ->. by apply offset_of_suffix.
  - intros Hno. apply offset_default; [done|].
    intros s Heq. by destruct (Hlf s).
Qed.

(** *** Decimal numerals *)

Lemma int_digits_from_app (acc : Z) (a b : string) :
  int_digits_from acc (a +:+ b) = int_digits_from (int_digits_from acc a) b.
Proof.
  revert acc. induction a as [|c a IH]; intros acc; [done|].
  rewrite append_cons. simpl. apply IH.
Qed.

Lemma pretty_N_char_digit (r : N) :
  (r < 10)%N ->
  is_digit (pretty_N_char r) = true /\ digit_value (pretty_N_char r) = Z.of_N r.
Proof.
  intros Hr.
  assert (r = 0 \/ r = 1 \/ r = 2 \/ r = 3 \/ r = 4 \/ r = 5 \/ r = 6 \/ r = 7
          \/ r = 8 \/ r = 9)%N as Hcases by lia.
  repeat (destruct Hcases as [->|Hcases]; [by vm_compute|]). subst. by vm_compute.
Qed.

Lemma pretty_N_go_app (x : N) (s : string) :
  pretty_N_go x s = pretty_N_go x "" +:+ s.
Proof.
  revert s. induction (N.lt_wf_0 x) as [x _ IH]; intros s.
  destruct (decide (0 < x)%N) as [Hx|Hx].
  - rewrite (pretty_N_go_step x s), (pretty_N_go_step x "") by done.
    assert (x `div` 10 < x)%N as Hlt by (apply N.div_lt; lia).
    rewrite (IH _ Hlt (String (pretty_N_char (x `mod` 10)) s)).
    rewrite (IH _ Hlt (String (pretty_N_char (x `mod` 10)) "")).
    by rewrite append_assoc.
  - replace x with 0%N by lia. by rewrite !pretty_N_go_0.
Qed.

Lemma pretty_N_go_digits (x : N) :
  all_digits (pretty_N_go x "") = true /\
  int_digits (pretty_N_go x "") = Z.of_N x /\
  ((0 < x)%N -> pretty_N_go x "" <> "").
Proof.
  induction (N.lt_wf_0 x) as [x _ IH].
  destruct (decide (0 < x)%N) as [Hx|Hx].
  - rewrite (pretty_N_go_step x "") by done. rewrite pretty_N_go_app.
    destruct (IH (x `div` 10)%N) as (Hall & Hval & _); [apply N.div_lt; lia|].
    destruct (pretty_N_char_digit (x `mod` 10)%N) as [Hd Hv];
      [apply N.mod_lt; lia|].
    split_and!.
    + rewrite all_digits_app, Hall. simpl. by rewrite Hd.
    + unfold int_digits in *. rewrite int_digits_from_app, Hval. simpl.
      rewrite Hv. pose proof (N.div_mod x 10 ltac:(lia)). lia.
    + intros _. by destruct (pretty_N_go (x `div` 10)%N "").
  - replace x with 0%N by lia. rewrite pretty_N_go_0. split_and!; [done|done|lia].
Qed.

(** [str(z)] of a natural number is its run of digits. *)
Lemma str_digit_run (z : Z) :
  0 <= z -> Codec.digit_run (Realtime.str z) /\ int_digits (Realtime.str z) = z.
Proof.
  intros Hz. unfold Realtime.str, pretty, pretty_Z.
  destruct z as [|p|p]; [by split| |lia].
  unfold pretty, pretty_positive, pretty, pretty_N.
  destruct (decide (N.pos p = 0%N)) as [|_]; [done|].
  destruct (pretty_N_go_digits (N.pos p)) as (Hall & Hval & Hne).
  split; [split; [apply Hne; lia|done]|]. by rewrite Hval.
Qed.

Lemma str_negative (z : Z) :
  z < 0 -> exists s, Realtime.str z = String "-" s.
Proof.
  intros Hz. destruct z as [|p|p]; [lia|lia|].
  unfold Realtime.str, pretty, pretty_Z. eexists. by rewrite append_cons.
Qed.

(** X6: the trip identifier that [get_trip_id] builds from a schedule
    number and an order number that are not negative yields these two
    numbers back, with or without a train order; from a negative schedule
    number it yields nothing. *)
Theorem trip_id_round_trip (schedule_id order_id : Z) (train_order_id : option Z) :
  (0 <= schedule_id -> 0 <= order_id ->
   Codec._extract_schedule_order_ids
     (Ids.get_trip_id schedule_id order_id train_order_id)
   = Some (schedule_id, order_id)) /\
  (schedule_id < 0 ->
   Codec._extract_schedule_order_ids
     (Ids.get_trip_id schedule_id order_id train_order_id)
   = None).
Proof.
  split.
  - intros Hs Ho.
    destruct (str_digit_run schedule_id Hs) as [Hrun1 Hval1].
    destruct (str_digit_run order_id Ho) as [Hrun2 Hval2].
    unfold Ids.get_trip_id. destruct train_order_id as [t|].
    + rewrite (extract_ids_of_prefix _ _ ("_" +:+ Realtime.str t)); [|done..].
      by rewrite Hval1, Hval2.
    + rewrite <- (append_nil_r (Realtime.str order_id)).
      rewrite (extract_ids_of_prefix _ _ ""); [|done..].
      by rewrite Hval1, Hval2.
  - intros Hs. destruct (str_negative schedule_id Hs) as [s Hstr].
    unfold Ids.get_trip_id, Codec._extract_schedule_order_ids.
    by destruct train_order_id; rewrite Hstr, !append_cons.
Qed.

(** ** Rendering and merging facts *)

Lemma substring_prefix (a b : string) :
  String.substring 0 (String.length a) (a +:+ b) = a.
Proof.
  induction a as [|c a IH]; simpl.
  - by destruct b.
  - by rewrite IH.
Qed.

Lemma strftime_Ymd_inj (d d' : Date) :
  Calendar.valid d -> Calendar.valid d' ->
  Calendar.strftime_Ymd d = Calendar.strftime_Ymd d' -> d = d'.
Proof.
  intros Hd Hd'. apply valid_bounds in Hd as (Hy & Hm & Hday).
  apply valid_bounds in Hd' as (Hy' & Hm' & Hday').
  destruct d as [y m dd], d' as [y' m' dd']; simpl in *.
  unfold Calendar.strftime_Ymd; simpl. intros H.
  assert (Calendar.fmt_04d y = Calendar.fmt_04d y' /\
          Calendar.fmt_02d m = Calendar.fmt_02d m' /\
          Calendar.fmt_02d dd = Calendar.fmt_02d dd') as (Ey & Em & Ed).
  { unfold Calendar.fmt_04d, Calendar.fmt_02d in *.
    cbv [String.append] in H. injection H as ? ? ? ? ? ? ? ?.
    split_and!; congruence. }
  apply fmt_04d_inj in Ey; [|done..]. apply fmt_02d_inj in Em; [|done..].
  apply fmt_02d_inj in Ed; [|done..]. by subst.
Qed.

Lemma isoformat_inj (d d' : Date) :
  Calendar.valid d -> Calendar.valid d' ->
  Calendar.isoformat d = Calendar.isoformat d' -> d = d'.
Proof.
  intros Hd Hd' H.
  apply (isoformat_app_inj d d' "" ""); [done|done|by rewrite !append_nil_r].
Qed.

Section FactProperties.

Variable date_fromisoformat : string -> option Date.
Variable datetime_fromisoformat : string -> option datetime.
Variable datetime_isoformat : datetime -> string.
Variable datetime_isoformat_seconds : datetime -> string.
Variable rounded_timestamp : datetime -> Z.

(** X7: [TripDate.parse] reads the first ten characters of the operating
    date and nothing else: whatever follows them, a time of day or
    anything at all, does not change the result. *)
Theorem trip_date_parse_ignores_the_tail (schedule_id : Z) (day tail : string) :
  String.length day = 10%nat ->
  Realtime.TripDate_parse date_fromisoformat schedule_id (day +:+ tail)
  = Realtime.TripDate_parse date_fromisoformat schedule_id day.
Proof.
  intros Hlen. unfold Realtime.TripDate_parse.
  assert (String.substring 0 10 (day +:+ tail) = day) as ->
    by (rewrite <- Hlen; apply substring_prefix).
  assert (String.substring 0 10 day = day) as ->; [|done].
  rewrite <- Hlen. rewrite <- (append_nil_r day) at 2. apply substring_prefix.
Qed.

(** X8: a trip occurrence can be read back from either of its renderings:
    two occurrences with valid dates that have the same JSON view, or the
    same trip descriptor, are the same occurrence. *)
Theorem trip_date_renderings_are_injective (t t' : TripDate Z) :
  Calendar.valid (start_date t) -> Calendar.valid (start_date t') ->
  (Realtime.TripDate_as_json t = Realtime.TripDate_as_json t' -> t = t') /\
  (Realtime.TripDate_as_gtfs_rt t = Realtime.TripDate_as_gtfs_rt t' -> t = t').
Proof.
  intros Hv Hv'. destruct t as [i d], t' as [i' d']; simpl in *.
  unfold Realtime.TripDate_as_json, Realtime.TripDate_as_gtfs_rt, Realtime.str;
    simpl.
  split; intros H.
  - assert (pretty i = pretty i' /\ Calendar.isoformat d = Calendar.isoformat d')
      as [Hid Hdate] by (split; congruence).
    apply (inj pretty) in Hid. apply isoformat_inj in Hdate; [by subst|done..].
  - assert (pretty i = pretty i' /\
            Calendar.strftime_Ymd d = Calendar.strftime_Ymd d')
      as [Hid Hdate] by (split; congruence).
    apply (inj pretty) in Hid. apply strftime_Ymd_inj in Hdate; [by subst|done..].
Qed.

(** X10: merging in the other order changes the order of the facts and
    nothing else: the instants of the two timestamps are equal, the facts
    are the same up to their order, and so are the rendered identifiers.
    The timestamps themselves are equal unless the two containers carry
    one instant with different offsets. *)
Theorem merge_commutes_up_to_order (a b : FactContainer) :
  instant (timestamp (Realtime.merge a b))
  = instant (timestamp (Realtime.merge b a)) /\
  Permutation (facts (Realtime.merge a b)) (facts (Realtime.merge b a)) /\
  Permutation (Realtime.entity_ids (Realtime.merge a b))
              (Realtime.entity_ids (Realtime.merge b a)) /\
  (instant (timestamp a) <> instant (timestamp b) ->
   timestamp (Realtime.merge a b) = timestamp (Realtime.merge b a)).
Proof.
  unfold Realtime.entity_ids. simpl. split_and!.
  - rewrite !max_datetime_instant. lia.
  - apply Permutation_app_comm.
  - rewrite !map_app. apply Permutation_app_comm.
  - intros Hne. unfold max_datetime.
    destruct (Z.ltb_spec (instant (timestamp a)) (instant (timestamp b)));
      destruct (Z.ltb_spec (instant (timestamp b)) (instant (timestamp a)));
      try done; lia.
Qed.

(** *** Which containers a feed is made of *)

Lemma Alert_as_gtfs_rt_raises (a : Alert) :
  Realtime.Alert_as_gtfs_rt a = inl TypeError.
Proof. reflexivity. Qed.

Lemma StopDelay_renders_iff (s : StopDelay) u :
  Realtime.StopDelay_as_gtfs_rt rounded_timestamp s = inr u <->
  Realtime.stop_renders s /\ u = Realtime.skipped_update s.
Proof.
  rewrite (StopDelay_as_gtfs_rt_inr rounded_timestamp).
  unfold Realtime.stop_renders, Realtime.skipped_update. tauto.
Qed.

Lemma TripDelay_as_gtfs_rt_inr (d : TripDelay) e :
  Realtime.TripDelay_as_gtfs_rt rounded_timestamp d = inr e <->
  Forall Realtime.stop_renders (stops d) /\ e = Realtime.skipped_entity d.
Proof.
  unfold Realtime.TripDelay_as_gtfs_rt, Realtime.skipped_entity.
  pose proof (comprehension_map (Realtime.StopDelay_as_gtfs_rt rounded_timestamp)
                Realtime.skipped_update Realtime.stop_renders (stops d)) as Hmap.
  split.
  - intros H. apply bind_inr in H as (us & Hus & H). injection H as <-.
    apply Hmap in Hus as [Hall ->]; [done|].
    intros s u. apply StopDelay_renders_iff.
  - intros [Hall ->].
    assert (comprehension (Realtime.StopDelay_as_gtfs_rt rounded_timestamp) (stops d)
            = inr (map Realtime.skipped_update (stops d))) as ->; [|done].
    apply Hmap; [|done].
    intros s u. apply StopDelay_renders_iff.
Qed.

Lemma Fact_as_gtfs_rt_inr (f : Fact) e :
  Realtime.Fact_as_gtfs_rt rounded_timestamp f = inr e <->
  Realtime.fact_renders f /\
  exists d, f = TripDelayFact d /\ e = Realtime.skipped_entity d.
Proof.
  destruct f as [a|d]; simpl.
  - rewrite Alert_as_gtfs_rt_raises. split; [done|]. by intros [[] _].
  - rewrite TripDelay_as_gtfs_rt_inr. split.
    + intros [Hall ->]. split; [done|]. by exists d.
    + intros [Hall (d' & [= <-] & ->)]. done.
Qed.

(** X11: which containers a feed is made of. [as_gtfs_rt] returns a feed
    exactly when the timestamp of the container fits the header, the
    container holds no alert and every stop of its trip delays is cancelled,
    with a sequence number that fits its field: one alert, or one stop that
    is not cancelled, makes the rendering of the whole container raise.
    A feed that is returned has the timestamp in its header and one entity
    per fact, in the order of the facts: a trip update of skipped stops. *)
Theorem feed_is_made_of_cancelled_stops (c : FactContainer) :
  ((exists m, Realtime.as_gtfs_rt rounded_timestamp c = inr m) <->
   0 <= rounded_timestamp (timestamp c) < 2 ^ 64 /\
   Forall Realtime.fact_renders (facts c)) /\
  (forall m,
     Realtime.as_gtfs_rt rounded_timestamp c = inr m ->
     gtfs_realtime_pb2.header m
     = gtfs_realtime_pb2.mkFeedHeader "2.0" gtfs_realtime_pb2.FULL_DATASET
         (rounded_timestamp (timestamp c)) /\
     Forall2 (fun f e => exists d, f = TripDelayFact d /\
                                   e = Realtime.skipped_entity d)
             (facts c) (gtfs_realtime_pb2.entity m)) /\
  (forall a m,
     AlertFact a ∈ facts c -> Realtime.as_gtfs_rt rounded_timestamp c <> inr m) /\
  (forall d s m,
     TripDelayFact d ∈ facts c -> s ∈ stops d -> cancelled s = false ->
     Realtime.as_gtfs_rt rounded_timestamp c <> inr m).
Proof.
  assert (Hshape : forall m,
    Realtime.as_gtfs_rt rounded_timestamp c = inr m ->
    0 <= rounded_timestamp (timestamp c) < 2 ^ 64 /\
    gtfs_realtime_pb2.header m
    = gtfs_realtime_pb2.mkFeedHeader "2.0" gtfs_realtime_pb2.FULL_DATASET
        (rounded_timestamp (timestamp c)) /\
    Forall2 (fun f e => Realtime.Fact_as_gtfs_rt rounded_timestamp f = inr e)
            (facts c) (gtfs_realtime_pb2.entity m)).
  { unfold Realtime.as_gtfs_rt, gtfs_realtime_pb2.new_FeedHeader,
      gtfs_realtime_pb2.uint64. intros m H.
    apply bind_inr in H as (h & Hh & H). apply bind_inr in Hh as (t & Ht & Hh).
    apply checked_inr in Ht as [-> Ht]. injection Hh as <-.
    apply bind_inr in H as (es & Hes & H). injection H as <-. simpl.
    split_and!; [lia..|done|by apply comprehension_inr]. }
  assert (Hall : forall m,
    Realtime.as_gtfs_rt rounded_timestamp c = inr m ->
    Forall Realtime.fact_renders (facts c)).
  { intros m H. apply Hshape in H as (_ & _ & H). clear Hshape.
    induction H as [|f e fs es Hfe _ IH]; constructor; [|done].
    by apply Fact_as_gtfs_rt_inr in Hfe as [? _]. }
  split_and!.
  - split.
    + intros [m H]. split; [by apply Hshape in H as [? _]|by eapply Hall].
    + intros [Hts Hfacts].
      destruct (comprehension_returns
                  (Realtime.Fact_as_gtfs_rt rounded_timestamp) (facts c))
        as [es Hes].
      { intros f Hf. eapply Forall_forall in Hfacts; [|exact Hf].
        destruct f as [a|d]; [done|]. exists (Realtime.skipped_entity d).
        apply Fact_as_gtfs_rt_inr. split; [done|]. by exists d. }
      unfold Realtime.as_gtfs_rt, gtfs_realtime_pb2.new_FeedHeader,
        gtfs_realtime_pb2.uint64.
      rewrite checked_in_range by lia. simpl. rewrite Hes. simpl. by eexists.
  - intros m H. apply Hshape in H as (_ & Hh & H). split; [done|].
    eapply Forall2_impl; [exact H|]. intros f e Hfe.
    by apply Fact_as_gtfs_rt_inr in Hfe as [_ ?].
  - intros a m Ha H. apply Hall in H.
    eapply Forall_forall in H; [|exact Ha]. done.
  - intros d s m Hd Hs Hc H. apply Hall in H.
    eapply Forall_forall in H; [|exact Hd]. simpl in H.
    eapply Forall_forall in H; [|exact Hs]. destruct H as [Hc' _]. congruence.
Qed.

End FactProperties.

(** ** Parsing a snapshot *)

Section SnapshotProperties.

Variable date_fromisoformat : string -> option Date.
Variable datetime_fromisoformat : string -> option datetime.

Lemma TripDate_parse_inr sid od t :
  Realtime.TripDate_parse date_fromisoformat sid od = inr t <->
  Snapshot.trip_of date_fromisoformat sid od t.
Proof.
  unfold Realtime.TripDate_parse, Snapshot.trip_of.
  destruct (date_fromisoformat (String.substring 0 10 od)) as [d|]; simpl.
  - split.
    + by intros [= <-].
    + intros [Hid [= Hd]]. destruct t as [i d']. simpl in *. by subst.
  - split; [done|]. by intros [_ ?].
Qed.

Lemma parse_alert_inr rec a :
  Realtime.parse_alert date_fromisoformat rec = inr a ->
  Snapshot.alert_of date_fromisoformat rec (AlertFact a).
Proof.
  unfold Realtime.parse_alert. intros H.
  apply bind_inr in H as (ts & Hts & H). injection H as <-.
  exists (mkAlert (a_id rec) (default "" (a_tt rec)) (default "" (a_msg rec)) ts).
  split_and!; try done. simpl.
  apply comprehension_inr in Hts. eapply Forall2_impl; [exact Hts|].
  intros i t Hit. by apply TripDate_parse_inr.
Qed.

Lemma parse_stop_delay_inr s sd :
  Realtime.parse_stop_delay datetime_fromisoformat s = inr sd ->
  Snapshot.stop_of datetime_fromisoformat s sd.
Proof.
  unfold Realtime.parse_stop_delay, Snapshot.stop_of. intros H.
  apply bind_inr in H as (arr & Harr & H). apply of_option_inr in Harr.
  apply bind_inr in H as (dep & Hdep & H). apply of_option_inr in Hdep.
  by injection H as <-.
Qed.

Lemma parse_trip_delay_inr rec d :
  Realtime.parse_trip_delay date_fromisoformat datetime_fromisoformat rec = inr d ->
  Snapshot.delay_of date_fromisoformat datetime_fromisoformat rec (TripDelayFact d).
Proof.
  unfold Realtime.parse_trip_delay. intros H.
  apply bind_inr in H as (t & Ht & H). apply bind_inr in H as (ss & Hss & H).
  injection H as <-. exists (mkTripDelay t ss). split_and!; [done| |]; simpl.
  - by apply TripDate_parse_inr.
  - apply comprehension_inr in Hss. eapply Forall2_impl; [exact Hss|].
    intros s sd. apply parse_stop_delay_inr.
Qed.

Lemma fetch_alerts_inr data c :
  Realtime.fetch_alerts date_fromisoformat datetime_fromisoformat data = inr c ->
  datetime_fromisoformat (alerts_ts data) = Some (timestamp c) /\
  Forall2 (fun rec f => exists a, f = AlertFact a /\
             Realtime.parse_alert date_fromisoformat rec = inr a)
          (ds data) (facts c).
Proof.
  intros H. unfold Realtime.fetch_alerts in H.
  apply bind_inr in H as (ts & Hts & H). apply of_option_inr in Hts.
  apply bind_inr in H as (fs & Hfs & H). injection H as <-. simpl.
  split; [done|]. apply comprehension_inr in Hfs.
  apply Forall2_fmap_r. eapply Forall2_impl; [exact Hfs|]. eauto.
Qed.

(** X13: fetching the alerts returns a container exactly when the snapshot
    instant and the day of every affected trip parse, and raises otherwise
    (no alert is dropped to save the rest). The container then has the
    snapshot instant as its timestamp and one alert per record, in the
    order of the records, with the id of the record, a null title or
    message replaced by the empty string, and one trip per reference. *)
Theorem fetch_alerts_all_or_nothing (data : AlertsBody) :
  ((exists c, Realtime.fetch_alerts date_fromisoformat datetime_fromisoformat data
              = inr c)
   <-> Snapshot.alerts_parse date_fromisoformat datetime_fromisoformat data) /\
  (forall c,
     Realtime.fetch_alerts date_fromisoformat datetime_fromisoformat data = inr c ->
     datetime_fromisoformat (alerts_ts data) = Some (timestamp c) /\
     Forall2 (Snapshot.alert_of date_fromisoformat) (ds data) (facts c)).
Proof.
  pose proof (fetch_alerts_inr data) as Hshape.
  split; [split|].
  - intros [c Hc]. destruct (Hshape c Hc) as [Hts Hfs]. split; [eauto|].
    intros rec i Hrec Hi.
    assert (exists a, Realtime.parse_alert date_fromisoformat rec = inr a) as [a Ha].
    { clear -Hfs Hrec. induction Hfs as [|r f rs fs (a & _ & Ha) _ IH].
      - by apply elem_of_nil in Hrec.
      - apply elem_of_cons in Hrec as [->|Hrec]; [eauto|by apply IH]. }
    unfold Realtime.parse_alert in Ha. apply bind_inr in Ha as (ts & Hts' & _).
    apply comprehension_inr in Hts'.
    destruct (Forall2_inr_elem _ _ _ i Hts' Hi) as [t Ht].
    apply TripDate_parse_inr in Ht as [_ Ht]. eauto.
  - intros [[ts Hts] Hall]. unfold Realtime.fetch_alerts. rewrite Hts. simpl.
    destruct (comprehension_returns (Realtime.parse_alert date_fromisoformat)
                (ds data)) as [fs Hfs].
    + intros rec Hrec. unfold Realtime.parse_alert.
      destruct (comprehension_returns
                  (fun i => Realtime.TripDate_parse date_fromisoformat
                              (i_sid i) (i_od i)) (a_ar rec)) as [trs Htrs].
      * intros i Hi. destruct (Hall rec i Hrec Hi) as [d Hd].
        unfold Realtime.TripDate_parse. rewrite Hd. simpl. by eexists.
      * rewrite Htrs. simpl. by eexists.
    + rewrite Hfs. simpl. by eexists.
  - intros c Hc. destruct (Hshape c Hc) as [Hts Hfs]. split; [done|].
    eapply Forall2_impl; [exact Hfs|].
    intros rec f (a & -> & Ha). by apply parse_alert_inr.
Qed.

Lemma fetch_delays_inr data c :
  Realtime.fetch_delays date_fromisoformat datetime_fromisoformat data = inr c ->
  pg_hn data = false /\
  datetime_fromisoformat (delays_ts data) = Some (timestamp c) /\
  Forall2 (fun rec f => exists d, f = TripDelayFact d /\
             Realtime.parse_trip_delay date_fromisoformat datetime_fromisoformat
               rec = inr d)
          (tr data) (facts c).
Proof.
  intros H. unfold Realtime.fetch_delays in H.
  destruct (pg_hn data); [done|].
  apply bind_inr in H as (ts & Hts & H). apply of_option_inr in Hts.
  apply bind_inr in H as (fs & Hfs & H). injection H as <-. simpl.
  split_and!; [done|done|]. apply comprehension_inr in Hfs.
  apply Forall2_fmap_r. eapply Forall2_impl; [exact Hfs|]. eauto.
Qed.

(** X14: fetching the delays returns a container exactly when the
    pagination flag is not set and the snapshot instant, the day of every
    trip and the two instants of every stop parse; one instant that does
    not parse makes the whole fetch raise. The container then has the
    snapshot instant as its timestamp and one trip delay per record, in
    order, with one stop per row, a null cancelled or confirmed flag
    counting as false. *)
Theorem fetch_delays_all_or_nothing (data : DelaysBody) :
  ((exists c, Realtime.fetch_delays date_fromisoformat datetime_fromisoformat data
              = inr c)
   <-> pg_hn data = false /\
       Snapshot.delays_parse date_fromisoformat datetime_fromisoformat data) /\
  (forall c,
     Realtime.fetch_delays date_fromisoformat datetime_fromisoformat data = inr c ->
     datetime_fromisoformat (delays_ts data) = Some (timestamp c) /\
     Forall2 (Snapshot.delay_of date_fromisoformat datetime_fromisoformat)
             (tr data) (facts c)).
Proof.
  pose proof (fetch_delays_inr data) as Hshape.
  split; [split|].
  - intros [c Hc]. destruct (Hshape c Hc) as (Hflag & Hts & Hfs).
    split; [done|]. split; [eauto|]. intros rec Hrec.
    assert (exists d, Realtime.parse_trip_delay date_fromisoformat
                        datetime_fromisoformat rec = inr d) as [d Hd].
    { clear -Hfs Hrec. induction Hfs as [|r f rs fs (d & _ & Hd) _ IH].
      - by apply elem_of_nil in Hrec.
      - apply elem_of_cons in Hrec as [->|Hrec]; [eauto|by apply IH]. }
    apply parse_trip_delay_inr in Hd as (d' & _ & [_ Hday] & Hstops).
    split; [eauto|]. intros s Hs.
    clear -Hstops Hs. induction Hstops as [|s' sd ss sds Hsd _ IH].
    + by apply elem_of_nil in Hs.
    + apply elem_of_cons in Hs as [->|Hs]; [|by apply IH].
      destruct Hsd as (_ & _ & _ & _ & Harr & Hdep). eauto.
  - intros [Hflag [[ts Hts] Hall]]. unfold Realtime.fetch_delays.
    rewrite Hflag, Hts. simpl.
    destruct (comprehension_returns
                (Realtime.parse_trip_delay date_fromisoformat datetime_fromisoformat)
                (tr data)) as [fs Hfs].
    + intros rec Hrec. destruct (Hall rec Hrec) as [[d Hd] Hstops].
      unfold Realtime.parse_trip_delay, Realtime.TripDate_parse.
      rewrite Hd. simpl.
      destruct (comprehension_returns
                  (Realtime.parse_stop_delay datetime_fromisoformat) (d_st rec))
        as [ss Hss].
      * intros s Hs. destruct (Hstops s Hs) as [[arr Harr] [dep Hdep]].
        unfold Realtime.parse_stop_delay. rewrite Harr, Hdep. simpl. by eexists.
      * rewrite Hss. simpl. by eexists.
    + rewrite Hfs. simpl. by eexists.
  - intros c Hc. destruct (Hshape c Hc) as (_ & Hts & Hfs). split; [done|].
    eapply Forall2_impl; [exact Hfs|].
    intros rec f (d & -> & Hd). by apply parse_trip_delay_inr.
Qed.

(** X15: the container that [main] renders. When both fetches return, its
    facts are the alerts followed by the trip delays, so are the rendered
    identifiers, and its instant is the later of the two snapshot instants.
    An exception of the alerts is the exception of the run, whatever the
    delays hold; and when the alerts return and the delays are paginated,
    the run raises and renders nothing, the alerts included. *)
Theorem facts_of_a_run (alerts : AlertsBody) (delays : DelaysBody) :
  (forall c,
     App.facts_of_main date_fromisoformat datetime_fromisoformat alerts delays
     = inr c ->
     exists a d,
       Realtime.fetch_alerts date_fromisoformat datetime_fromisoformat alerts
       = inr a /\
       Realtime.fetch_delays date_fromisoformat datetime_fromisoformat delays
       = inr d /\
       facts c = facts a ++ facts d /\
       Realtime.alert_ids (facts c) = map a_id (ds alerts) /\
       map (trip_id (I:=Z)) (Realtime.delay_trips (facts c)) = map d_sid (tr delays) /\
       instant (timestamp c)
       = Z.max (instant (timestamp a)) (instant (timestamp d))) /\
  (forall e,
     Realtime.fetch_alerts date_fromisoformat datetime_fromisoformat alerts
     = inl e ->
     App.facts_of_main date_fromisoformat datetime_fromisoformat alerts delays
     = inl e) /\
  (forall a,
     Realtime.fetch_alerts date_fromisoformat datetime_fromisoformat alerts
     = inr a ->
     pg_hn delays = true ->
     App.facts_of_main date_fromisoformat datetime_fromisoformat alerts delays
     = inl (ValueError endpoint_overflowed)).
Proof.
  unfold App.facts_of_main. split_and!.
  - intros c H. apply bind_inr in H as (a & Ha & H).
    apply bind_inr in H as (d & Hd & H). injection H as <-.
    exists a, d. split_and!; [done|done|done| | |apply max_datetime_instant].
    + destruct (fetch_alerts_inr _ _ Ha) as [_ Hfs].
      destruct (fetch_delays_inr _ _ Hd) as (_ & _ & Hfs'). simpl.
      clear -Hfs Hfs'. induction Hfs as [|r f rs fs (x & -> & Hx) _ IH]; simpl.
      * induction Hfs' as [|r f rs fs (x & -> & _) _ IH]; simpl; done.
      * apply parse_alert_inr in Hx as (x' & [= <-] & Hid & _). by rewrite Hid, IH.
    + destruct (fetch_alerts_inr _ _ Ha) as [_ Hfs].
      destruct (fetch_delays_inr _ _ Hd) as (_ & _ & Hfs'). simpl.
      clear -Hfs Hfs'. induction Hfs as [|r f rs fs (x & -> & _) _ IH]; simpl.
      * induction Hfs' as [|r f rs fs (x & -> & Hx) _ IH]; simpl; [done|].
        apply parse_trip_delay_inr in Hx as (x' & [= <-] & [Hid _] & _).
        by rewrite Hid, IH.
      * done.
  - intros e He. by rewrite He.
  - intros a Ha Hflag. rewrite Ha. simpl.
    unfold Realtime.fetch_delays. by rewrite Hflag.
Qed.

End SnapshotProperties.

(** ** The API key *)

Section ApiKeyProperties.

Variable strip : string -> string.

(** X16: where the key comes from. A key in [PKP_PLK_APIKEY] that is not
    empty is used, stripped, and the file is not opened, so a file variable
    that names no file does no harm. When that key is unset or empty and
    [PKP_PLK_APIKEY_FILE] names a path, the key is the stripped content of
    the file: a missing file is an error of its own, an empty file is the
    error for a key that is not set. When neither names anything, it is
    that error too. *)
Theorem api_key_source (env files : gmap string string) :
  (forall key,
     env !! "PKP_PLK_APIKEY" = Some key -> key <> "" ->
     ApiKey.get_apikey strip env files = inr (strip key)) /\
  (forall path,
     ApiKey.falsy (env !! "PKP_PLK_APIKEY") = true ->
     env !! "PKP_PLK_APIKEY_FILE" = Some path -> path <> "" ->
     ApiKey.get_apikey strip env files
     = match files !! path with
       | None => inl ApiKey.FileNotFound
       | Some "" => inl ApiKey.NotSet
       | Some content => inr (strip content)
       end) /\
  (ApiKey.falsy (env !! "PKP_PLK_APIKEY") = true ->
   ApiKey.falsy (env !! "PKP_PLK_APIKEY_FILE") = true ->
   ApiKey.get_apikey strip env files = inl ApiKey.NotSet).
Proof.
  unfold ApiKey.get_apikey. split_and!.
  - intros key -> Hne. by destruct key.
  - intros path Hkey -> Hne. rewrite Hkey.
    destruct path as [|c path]; [done|]. simpl.
    by destruct (files !! String c path) as [[|c' content]|].
  - intros Hkey Hfile. rewrite Hkey.
    destruct (env !! "PKP_PLK_APIKEY_FILE") as [[|c path]|]; try done;
      by destruct (env !! "PKP_PLK_APIKEY") as [[|c' key]|].
Qed.

End ApiKeyProperties.

(** ** Bus legs *)

Lemma track_is_not_category : "track" <> "plk_category_code".
Proof. done. Qed.

(** X17: the test for a bus departure is stable under [departure_only]: the
    stop time made for the departure of a leg, from a stop time and from
    the result of the test on it, passes the test exactly when the stop time
    itself does. A stop time made by [arrival_only] or [departure_only] for
    a bus leg always passes it. *)
Theorem bus_departure_test_is_stable {R} (stop_time : SplitBusLegs.StopTime R) :
  SplitBusLegs.get_departure_data
    (SplitBusLegs.departure_only stop_time
       (SplitBusLegs.get_departure_data stop_time))
  = SplitBusLegs.get_departure_data stop_time /\
  SplitBusLegs.get_departure_data (SplitBusLegs.departure_only stop_time true)
  = true /\
  SplitBusLegs.get_departure_data (SplitBusLegs.arrival_only stop_time true)
  = true.
Proof.
  unfold SplitBusLegs.get_departure_data, SplitBusLegs.departure_only,
    SplitBusLegs.arrival_only.
  split_and!; [|done..].
  destruct (String.eqb (SplitBusLegs.platform stop_time) "BUS") eqn:Hbus; simpl;
    [done|].
  destruct (SplitBusLegs.startswith _ _ && SplitBusLegs.startswith _ _) eqn:Hkm;
    simpl; [done|].
  by rewrite Hbus, Hkm.
Qed.

(** X18: [arrival_only] and [departure_only] make a stop time without
    dwell: the two times of the result are the arrival, or the departure, of
    the original. They keep the trip, every attribute they do not name and
    every extra field but the track, and applying one of them twice is
    applying it once. After [departure_only] for a leg that is not a bus leg
    the platform is never the bus platform. *)
Theorem one_sided_stop_times {R} (stop_time : SplitBusLegs.StopTime R) (bus : bool) :
  let a := SplitBusLegs.arrival_only stop_time bus in
  let d := SplitBusLegs.departure_only stop_time bus in
  (SplitBusLegs.arrival_time a = SplitBusLegs.arrival_time stop_time /\
   SplitBusLegs.departure_time a = SplitBusLegs.arrival_time stop_time) /\
  (SplitBusLegs.arrival_time d = SplitBusLegs.departure_time stop_time /\
   SplitBusLegs.departure_time d = SplitBusLegs.departure_time stop_time) /\
  (SplitBusLegs.trip_id a = SplitBusLegs.trip_id stop_time /\
   SplitBusLegs.rest a = SplitBusLegs.rest stop_time /\
   SplitBusLegs.trip_id d = SplitBusLegs.trip_id stop_time /\
   SplitBusLegs.rest d = SplitBusLegs.rest stop_time) /\
  (forall field, field <> "track" ->
     SplitBusLegs.extra_fields a !! field
     = SplitBusLegs.extra_fields stop_time !! field /\
     SplitBusLegs.extra_fields d !! field
     = SplitBusLegs.extra_fields stop_time !! field) /\
  SplitBusLegs.arrival_only a bus = a /\
  SplitBusLegs.departure_only d bus = d /\
  (bus = false -> SplitBusLegs.platform d <> "BUS").
Proof.
  unfold SplitBusLegs.arrival_only, SplitBusLegs.departure_only.
  destruct stop_time as [tid arr dep plat extra r]. simpl.
  destruct bus; simpl; [|destruct (String.eqb_spec plat "BUS") as [->|Hplat]; simpl];
    split_and!; try done;
    try (intros field Hne; split; by rewrite ?lookup_insert_ne by done);
    try (rewrite ?lookup_insert_ne by done; by rewrite ?insert_insert_eq);
    try (by destruct (String.eqb_spec plat "BUS")).
Qed.

Section CurationProperties.

Variable Match : Type.
Variable re_search : string -> string -> option Match.
Variable expand : Match -> string -> string.
Variable format : string -> string -> string.
Variable text_color_for : string -> string.

Lemma curate_skips {R} before others (route : SplitBusLegs.Route R) :
  (forall c, c ∈ before -> SplitBusLegs.curation_match Match re_search c route = None) ->
  SplitBusLegs.curate Match re_search expand format text_color_for
    (before ++ others) route
  = SplitBusLegs.curate Match re_search expand format text_color_for others route.
Proof.
  induction before as [|c before IH]; intros Hnone; simpl; [done|].
  rewrite (Hnone c) by by left. apply IH. intros ? ?. apply Hnone. by right.
Qed.

(** X19: the first curated route that applies decides: when no curated
    route before [c] matches the agency and the short name of the route and
    [c] does, the route is curated by [c] alone, whatever curated routes
    follow it, and the fallback is not applied. The route becomes a bus
    route; a replacement that is absent or empty leaves the name or the
    colours as they were. *)
Theorem first_curated_route_decides {R} before c after m
    (route : SplitBusLegs.Route R) :
  (forall c', c' ∈ before ->
     SplitBusLegs.curation_match Match re_search c' route = None) ->
  SplitBusLegs.curation_match Match re_search c route = Some m ->
  let r := SplitBusLegs.update_bus_replacement_route Match re_search expand
             format text_color_for (before ++ c :: after) route in
  r = SplitBusLegs.update_bus_replacement_route Match re_search expand
        format text_color_for [c] route /\
  SplitBusLegs.type r = SplitBusLegs.BUS /\
  SplitBusLegs.short_name r
  = match SplitBusLegs.truthy (SplitBusLegs.short_name_replacement c) with
    | Some template => expand m template
    | None => SplitBusLegs.short_name route
    end /\
  SplitBusLegs.long_name r
  = match SplitBusLegs.truthy (SplitBusLegs.long_name_replacement c) with
    | Some template => format template (SplitBusLegs.long_name route)
    | None => SplitBusLegs.long_name route
    end /\
  (SplitBusLegs.color r, SplitBusLegs.text_color r)
  = match SplitBusLegs.truthy (SplitBusLegs.curated_color c) with
    | Some colour => (colour, text_color_for colour)
    | None => (SplitBusLegs.color route, SplitBusLegs.text_color route)
    end.
Proof.
  intros Hbefore Hc. unfold SplitBusLegs.update_bus_replacement_route.
  rewrite curate_skips by (intros c' Hc'; by apply Hbefore).
  simpl.
  change (SplitBusLegs.curation_match Match re_search c
            (SplitBusLegs.mkRoute (SplitBusLegs.agency_id route)
               (SplitBusLegs.short_name route) (SplitBusLegs.long_name route)
               SplitBusLegs.BUS (SplitBusLegs.color route)
               (SplitBusLegs.text_color route) (SplitBusLegs.route_rest route)))
    with (SplitBusLegs.curation_match Match re_search c route).
  rewrite Hc. unfold SplitBusLegs.apply_curation. simpl.
  by destruct (SplitBusLegs.truthy (SplitBusLegs.curated_color c)).
Qed.

(** X20: when no curated route matches, and so when there is none, the route
    gets the fallback: the short name after [ZKA], the long name before
    the words for a replacement bus service, and the two fallback colours.
    In every case the route becomes a bus route of the same agency. *)
Theorem fallback_curation_when_nothing_matches {R} curated
    (route : SplitBusLegs.Route R) :
  let r := SplitBusLegs.update_bus_replacement_route Match re_search expand
             format text_color_for curated route in
  (SplitBusLegs.type r = SplitBusLegs.BUS /\
   SplitBusLegs.agency_id r = SplitBusLegs.agency_id route /\
   SplitBusLegs.route_rest r = SplitBusLegs.route_rest route) /\
  ((forall c, c ∈ curated ->
      SplitBusLegs.curation_match Match re_search c route = None) ->
   SplitBusLegs.short_name r = "ZKA " +:+ SplitBusLegs.short_name route /\
   SplitBusLegs.long_name r
   = SplitBusLegs.long_name route +:+ " (Zastępcza Komunikacja Autobusowa)" /\
   SplitBusLegs.color r = "DE4E4E" /\ SplitBusLegs.text_color r = "FFFFFF").
Proof.
  unfold SplitBusLegs.update_bus_replacement_route. split.
  - induction curated as [|c curated IH]; simpl; [done|].
    destruct (SplitBusLegs.curation_match _ _ _ _) as [m|]; [|exact IH].
    unfold SplitBusLegs.apply_curation. simpl.
    by destruct (SplitBusLegs.truthy (SplitBusLegs.curated_color c)).
  - intros Hnone. rewrite <- (app_nil_r curated).
    rewrite curate_skips; [done|]. intros c Hc. by apply Hnone.
Qed.

End CurationProperties.

(** ** The further properties on the sample inputs *)

Example sample_range :
  Views.range_of
    (Loader.load_from_gtfs Sample.from_ymd_str Sample.int Sample.archive)
  = Some (mkRange (mkDate 2025 5 31) (mkDate 2025 6 30)).
Proof. vm_compute. reflexivity. Qed.

Lemma active_occurrences_are_stored_witness :
  exists sched sid oid t,
    Loader.load_from_gtfs Sample.from_ymd_str Sample.int Sample.archive
    = inr sched /\
    Codec._extract_schedule_order_ids "777_1" = Some (sid, oid) /\
    by_order sched !! mkOrderKey sid oid (mkDate 2025 5 31) = Some t /\
    mkTripDate "777_1" (mkDate 2025 6 1) ∈ all t.
Proof.
  pose proof sample_range as Hrange. unfold Views.range_of in Hrange.
  destruct (Loader.load_from_gtfs Sample.from_ymd_str Sample.int Sample.archive)
    as [e|sched] eqn:E; [discriminate Hrange|].
  injection Hrange as Hrange.
  destruct (active_occurrences_are_stored Sample.from_ymd_str Sample.int
              Sample.archive sched (mkTripRow "777_1" "S2+1D")
              (mkCalendarDateRow "S2+1D" "20250601")
              (mkDate 2025 6 1) (mkDate 2025 5 31) E)
    as (sid & oid & t & H).
  - right. right. left.
  - right. left.
  - reflexivity.
  - reflexivity.
  - reflexivity.
  - rewrite Hrange. reflexivity.
  - exists sched, sid, oid, t. split; [reflexivity|exact H].
Defined.

Lemma out_of_range_date_is_dropped_witness :
  Loader._load_services_row Sample.from_ymd_str
    (mkRange (mkDate 2025 5 31) (mkDate 2025 6 30)) ∅
    (mkCalendarDateRow "S3-1D" "20250630")
  = inr ∅.
Proof.
  exact (proj1 (out_of_range_date_is_dropped Sample.from_ymd_str
                  (mkRange (mkDate 2025 5 31) (mkDate 2025 6 30))
                  (mkCalendarDateRow "S3-1D" "20250630")
                  (mkDate 2025 6 30) (mkDate 2025 7 1)
                  eq_refl eq_refl eq_refl) ∅).
Defined.

Lemma build_error_names_its_cell_witness :
  exists row,
    row ∈ trips_txt Sample.broken_archive /\ row_trip_id row = "IC_6" /\
    ~ Codec.has_schedule_order_prefix "IC_6".
Proof.
  apply (build_error_names_its_cell Sample.from_ymd_str Sample.int
           Sample.broken_archive (ValueError (failed_to_extract_ids "IC_6"))).
  vm_compute. reflexivity.
Defined.

Lemma stored_stop_times_belong_to_their_key_witness :
  exists sched t,
    Loader.load_from_gtfs Sample.from_ymd_str Sample.int Sample.archive
    = inr sched /\
    by_order sched !! Sample.key_12345 = Some t /\
    Sample.trip_12345 ∈ all t /\
    exists row,
      row ∈ stop_times_txt Sample.archive /\
      st_trip_id row = "12345_6" /\
      Sample.int (st_plk_order row) = Some 2 /\
      Sample.int (st_stop_sequence row) = Some 2 /\
      st_stop_id row = "102".
Proof.
  pose proof sample_index_key as V. unfold Sample.view in V.
  destruct (Loader.load_from_gtfs Sample.from_ymd_str Sample.int Sample.archive)
    as [e|sched] eqn:E; [discriminate V|].
  destruct (by_order sched !! Sample.key_12345) as [t|] eqn:Ht; [|discriminate V].
  assert (by_order_number t !! 2 = Some (mkStopTime Sample.trip_12345 2 "102"))
    as Hn by congruence.
  exists sched, t. split; [reflexivity|]. split; [exact Ht|].
  exact (stored_stop_times_belong_to_their_key Sample.from_ymd_str Sample.int
           Sample.archive sched Sample.key_12345 t 2
           (mkStopTime Sample.trip_12345 2 "102") E Ht Hn).
Defined.

Lemma sample_id_has_no_line_feed (s : string) : "PR+1D" <> s +:+ Codec.line_feed.
Proof.
  intros H. change "PR+1D" with ("PR+1" +:+ "D") in H.
  by apply append_last_inj in H as [_ ?].
Defined.

Lemma offset_of_identifier_without_line_feed_witness :
  Codec._extract_start_date_offset "PR+1D" = 1.
Proof.
  apply (proj1 (offset_of_identifier_without_line_feed "PR+1D"
                  sample_id_has_no_line_feed) "PR" "+"%char "1").
  - reflexivity.
  - split; [discriminate|reflexivity].
  - reflexivity.
Defined.

Lemma trip_id_round_trip_witness :
  Codec._extract_schedule_order_ids (Ids.get_trip_id 12345 6 (Some 2))
  = Some (12345, 6).
Proof.
  apply (proj1 (trip_id_round_trip 12345 6 (Some 2))); lia.
Defined.

Lemma trip_date_parse_ignores_the_tail_witness :
  Realtime.TripDate_parse Fixtures.date_fromisoformat 42
    ("2025-06-01" +:+ "T00:00:00.000")
  = Realtime.TripDate_parse Fixtures.date_fromisoformat 42 "2025-06-01".
Proof.
  exact (trip_date_parse_ignores_the_tail Fixtures.date_fromisoformat 42
           "2025-06-01" "T00:00:00.000" eq_refl).
Defined.

Lemma sample_date_valid : Calendar.valid (mkDate 2025 6 1).
Proof. unfold Calendar.valid. split_and!; apply Z.leb_le; reflexivity. Defined.

Lemma trip_date_renderings_are_injective_witness :
  Calendar.valid (mkDate 2025 6 1) /\
  Realtime.TripDate_as_gtfs_rt (mkTripDate 42 (mkDate 2025 6 1))
  = Realtime.TripDate_as_gtfs_rt (mkTripDate (40 + 2) (mkDate 2025 6 1)) /\
  mkTripDate 42 (mkDate 2025 6 1) = mkTripDate (40 + 2) (mkDate 2025 6 1).
Proof.
  split; [exact sample_date_valid|].
  split; [reflexivity|].
  exact (proj2 (trip_date_renderings_are_injective
                  (mkTripDate 42 (mkDate 2025 6 1))
                  (mkTripDate (40 + 2) (mkDate 2025 6 1))
                  sample_date_valid sample_date_valid) eq_refl).
Defined.

Lemma merge_commutes_up_to_order_witness :
  timestamp (Realtime.merge Views.earlier Views.later)
  = timestamp (Realtime.merge Views.later Views.earlier).
Proof.
  destruct (merge_commutes_up_to_order Views.earlier Views.later)
    as (_ & _ & _ & H).
  apply H. discriminate.
Defined.

Lemma feed_is_made_of_cancelled_stops_witness :
  (exists m,
     Realtime.as_gtfs_rt Sample.rounded_timestamp Sample.cancelled_only = inr m) /\
  (forall m,
     Realtime.as_gtfs_rt Sample.rounded_timestamp Sample.alert_and_delay <> inr m).
Proof.
  split.
  - apply (proj1 (feed_is_made_of_cancelled_stops
                    Sample.rounded_timestamp Sample.cancelled_only)).
    split.
    + split; [apply Z.leb_le|apply Z.ltb_lt]; reflexivity.
    + constructor; [|constructor]. simpl. constructor; [|constructor].
      split; [reflexivity|]. split; [apply Z.leb_le|apply Z.ltb_lt]; reflexivity.
  - intros m.
    apply (proj1 (proj2 (proj2 (feed_is_made_of_cancelled_stops
                                  Sample.rounded_timestamp Sample.alert_and_delay)))
             Sample.alert_42 m).
    constructor.
Defined.

Lemma fetch_alerts_all_or_nothing_witness :
  Snapshot.alerts_parse Fixtures.date_fromisoformat
    Fixtures.datetime_fromisoformat Fixtures.alerts.
Proof.
  apply (proj1 (proj1 (fetch_alerts_all_or_nothing Fixtures.date_fromisoformat
                         Fixtures.datetime_fromisoformat Fixtures.alerts))).
  eexists. vm_compute. reflexivity.
Defined.

Lemma fetch_delays_all_or_nothing_witness :
  pg_hn Fixtures.delays = false /\
  Snapshot.delays_parse Fixtures.date_fromisoformat
    Fixtures.datetime_fromisoformat Fixtures.delays.
Proof.
  apply (proj1 (proj1 (fetch_delays_all_or_nothing Fixtures.date_fromisoformat
                         Fixtures.datetime_fromisoformat Fixtures.delays))).
  eexists. vm_compute. reflexivity.
Defined.

Lemma facts_of_a_run_witness :
  exists c,
    App.facts_of_main Fixtures.date_fromisoformat Fixtures.datetime_fromisoformat
      Fixtures.alerts Fixtures.delays = inr c /\
    Realtime.alert_ids (facts c) = map a_id (ds Fixtures.alerts) /\
    map (trip_id (I:=Z)) (Realtime.delay_trips (facts c))
    = map d_sid (tr Fixtures.delays).
Proof.
  destruct (App.facts_of_main Fixtures.date_fromisoformat
              Fixtures.datetime_fromisoformat Fixtures.alerts Fixtures.delays)
    as [e|c] eqn:E.
  - vm_compute in E. discriminate E.
  - exists c. split; [reflexivity|].
    destruct (proj1 (facts_of_a_run Fixtures.date_fromisoformat
                       Fixtures.datetime_fromisoformat
                       Fixtures.alerts Fixtures.delays) c E)
      as (a & d & _ & _ & _ & Hids & Htrips & _).
    split; [exact Hids|exact Htrips].
Defined.

Lemma api_key_source_witness :
  ApiKey.get_apikey Fixtures2.strip Fixtures2.env_with_key ∅
  = inr (Fixtures2.strip " secret ").
Proof.
  apply (proj1 (api_key_source Fixtures2.strip Fixtures2.env_with_key ∅)).
  - reflexivity.
  - discriminate.
Defined.

Lemma one_sided_stop_times_witness :
  SplitBusLegs.platform (SplitBusLegs.departure_only Fixtures2.km_stop false)
  <> "BUS".
Proof.
  destruct (one_sided_stop_times Fixtures2.km_stop false)
    as (_ & _ & _ & _ & _ & _ & H).
  apply H. reflexivity.
Defined.

Lemma first_curated_route_decides_witness :
  SplitBusLegs.short_name
    (SplitBusLegs.update_bus_replacement_route string Fixtures2.re_search
       Fixtures2.expand Fixtures2.format Fixtures2.text_color_for
       ([Fixtures2.for_ic] ++ Fixtures2.for_r1 :: [Fixtures2.for_any_r1])
       Fixtures2.km_route)
  = Fixtures2.expand "R1" "ZR1".
Proof.
  destruct (first_curated_route_decides string Fixtures2.re_search
              Fixtures2.expand Fixtures2.format Fixtures2.text_color_for
              [Fixtures2.for_ic] Fixtures2.for_r1 [Fixtures2.for_any_r1] "R1"
              Fixtures2.km_route)
    as (_ & _ & Hshort & _).
  - intros c' Hc'. apply list_elem_of_singleton in Hc'. subst c'. reflexivity.
  - reflexivity.
  - exact Hshort.
Defined.

Lemma fallback_curation_when_nothing_matches_witness :
  SplitBusLegs.short_name
    (SplitBusLegs.update_bus_replacement_route string Fixtures2.re_search
       Fixtures2.expand Fixtures2.format Fixtures2.text_color_for
       [Fixtures2.for_ic] Fixtures2.km_route)
  = "ZKA R1".
Proof.
  destruct (fallback_curation_when_nothing_matches string Fixtures2.re_search
              Fixtures2.expand Fixtures2.format Fixtures2.text_color_for
              [Fixtures2.for_ic] Fixtures2.km_route) as [_ H].
  destruct H as (Hshort & _).
  - intros c Hc. apply list_elem_of_singleton in Hc. subst c. reflexivity.
  - exact Hshort.
Defined.
